(** * Todo applications: a shallow embedding and its verified properties

    Three programs of the repository are embedded here:
    - [JsonCli]: the JSON-file todo manager of [todo-app-phase-1/src/main.py]
      ([TodoItem], [TodoManager]);
    - [MemoryCli]: the in-memory manager of [todo-app-phase-1/main.py]
      ([Task], [TodoCore]);
    - [Web]: the task routes and services of the FastAPI backend
      ([backend/src/api/routes/tasks.py], [backend/src/services.py]).

    Conventions.  A Python [str] is a [string] whose characters are code
    points below 256.  A Python [int] is a [Z].  Mutable objects held in a
    list are updated at their index, which is what mutation through a
    shared reference amounts to for a list that holds each object once.
    [datetime.now()] reads a clock given as a function of the number of
    earlier readings. *)

From Stdlib Require Import ZArith Lia String Ascii Permutation Sorted.
From stdpp Require Import base decidable option numbers list strings.

Local Open Scope string_scope.
Local Open Scope Z_scope.

(** ** The datetime library, as far as the programs use it *)

Module Calendar.

Record datetime := mk_datetime {
  year : Z; month : Z; day : Z;
  hour : Z; minute : Z; second : Z; microsecond : Z
}.

Definition midnight (y m d : Z) : datetime := mk_datetime y m d 0 0 0 0.

Definition is_leap (y : Z) : bool :=
  (y mod 4 =? 0) && (negb (y mod 100 =? 0) || (y mod 400 =? 0)).

Definition days_in_month (y m : Z) : Z :=
  if m =? 2 then (if is_leap y then 29 else 28)
  else if (m =? 4) || (m =? 6) || (m =? 9) || (m =? 11) then 30
  else 31.

Definition MINYEAR : Z := 1.
Definition MAXYEAR : Z := 9999.

Definition valid_date (y m d : Z) : bool :=
  (MINYEAR <=? y) && (y <=? MAXYEAR) && (1 <=? m) && (m <=? 12)
  && (1 <=? d) && (d <=? days_in_month y m).

Definition valid_time (h mi s us : Z) : bool :=
  (0 <=? h) && (h <? 24) && (0 <=? mi) && (mi <? 60)
  && (0 <=? s) && (s <? 60) && (0 <=? us) && (us <? 1000000).

Definition valid_datetime (dt : datetime) : bool :=
  valid_date (year dt) (month dt) (day dt)
  && valid_time (hour dt) (minute dt) (second dt) (microsecond dt).

(** Proleptic Gregorian ordinal, 0001-01-01 being day 1
    ([date.toordinal]). *)
Definition days_before_year (y : Z) : Z :=
  let p := y - 1 in p * 365 + p / 4 - p / 100 + p / 400.

Fixpoint days_before_month_aux (y : Z) (n : nat) : Z :=
  match n with
  | O => 0
  | S k => days_before_month_aux y k + days_in_month y (Z.of_nat n)
  end.

Definition days_before_month (y m : Z) : Z :=
  days_before_month_aux y (Z.to_nat (m - 1)).

Definition toordinal (dt : datetime) : Z :=
  days_before_year (year dt) + days_before_month (year dt) (month dt) + day dt.

(** The day after; [None] past 9999-12-31, where the library raises
    [OverflowError].  The time of day is kept. *)
Definition next_day (dt : datetime) : option datetime :=
  let (y, m, d, h, mi, s, us) := dt in
  if d <? days_in_month y m then Some (mk_datetime y m (d + 1) h mi s us)
  else if m <? 12 then Some (mk_datetime y (m + 1) 1 h mi s us)
  else if y <? MAXYEAR then Some (mk_datetime (y + 1) 1 1 h mi s us)
  else None.

(** [dt + timedelta(days=k)] for a whole, non-negative number of days. *)
Fixpoint add_days (k : nat) (dt : datetime) : option datetime :=
  match k with
  | O => Some dt
  | S k' => match next_day dt with
            | Some dt' => add_days k' dt'
            | None => None
            end
  end.

(** Decimal digits. *)
Definition digit_char (n : Z) : ascii :=
  ascii_of_nat (48 + Z.to_nat (n mod 10)).

Definition digit_val (c : ascii) : option Z :=
  let n := Z.of_nat (nat_of_ascii c) in
  if (48 <=? n) && (n <=? 57) then Some (n - 48) else None.

(** The [width] low-order decimal digits of [n], zero padded. *)
Fixpoint pad_digits (width : nat) (n : Z) : string :=
  match width with
  | O => EmptyString
  | S w => pad_digits w (n / 10) +:+ String (digit_char n) EmptyString
  end.

(** [strftime('%Y-%m-%d')]; the year is printed with four digits, as
    every platform does from year 1000 on. *)
Definition strftime_Ymd (dt : datetime) : string :=
  pad_digits 4 (year dt) +:+ "-" +:+ pad_digits 2 (month dt)
    +:+ "-" +:+ pad_digits 2 (day dt).

(** [datetime.isoformat()] of a naive datetime. *)
Definition isoformat (dt : datetime) : string :=
  strftime_Ymd dt +:+ "T" +:+ pad_digits 2 (hour dt) +:+ ":"
    +:+ pad_digits 2 (minute dt) +:+ ":" +:+ pad_digits 2 (second dt)
    +:+ (if microsecond dt =? 0 then EmptyString
         else "." +:+ pad_digits 6 (microsecond dt)).

(** Reading [n] digits, then the rest. *)
Fixpoint read_digits (n : nat) (acc : Z) (s : string) : option (Z * string) :=
  match n with
  | O => Some (acc, s)
  | S k => match s with
           | String c rest =>
               match digit_val c with
               | Some v => read_digits k (acc * 10 + v) rest
               | None => None
               end
           | EmptyString => None
           end
  end.

Definition expect (c : ascii) (s : string) : option string :=
  match s with
  | String c' rest => if Ascii.eqb c c' then Some rest else None
  | EmptyString => None
  end.

(** The shape [dddd-dd-dd], with what follows it. *)
Definition read_date_shape (s : string) : option (Z * Z * Z * string) :=
  '(y, s1) ← read_digits 4 0 s;
  s2 ← expect "-" s1;
  '(m, s3) ← read_digits 2 0 s2;
  s4 ← expect "-" s3;
  '(d, s5) ← read_digits 2 0 s4;
  Some (y, m, d, s5).

(** The shape [dd:dd:dd] or [dd:dd:dd.dddddd], up to the end. *)
Definition read_time_shape (s : string) : option (Z * Z * Z * Z) :=
  '(h, s1) ← read_digits 2 0 s;
  s2 ← expect ":" s1;
  '(mi, s3) ← read_digits 2 0 s2;
  s4 ← expect ":" s3;
  '(sec, s5) ← read_digits 2 0 s4;
  match s5 with
  | EmptyString => Some (h, mi, sec, 0)
  | _ => s6 ← expect "." s5;
         '(us, s7) ← read_digits 6 0 s6;
         match s7 with EmptyString => Some (h, mi, sec, us) | _ => None end
  end.

(** [datetime.fromisoformat].  Three forms are modelled: [YYYY-MM-DD],
    [YYYY-MM-DDTHH:MM:SS] and [YYYY-MM-DDTHH:MM:SS.ffffff]; a string of
    one of these forms is parsed when its fields are in range and is a
    [ValueError] otherwise.  What the library does with any other string
    depends on its version and is left open ([Unmodelled]). *)
Inductive parsed := Parsed (dt : datetime) | Invalid | Unmodelled.

Definition fromisoformat (s : string) : parsed :=
  match read_date_shape s with
  | Some (y, m, d, EmptyString) =>
      if valid_date y m d then Parsed (midnight y m d) else Invalid
  | Some (y, m, d, String "T" rest) =>
      match read_time_shape rest with
      | Some (h, mi, sec, us) =>
          if valid_date y m d && valid_time h mi sec us
          then Parsed (mk_datetime y m d h mi sec us) else Invalid
      | None => Unmodelled
      end
  | _ => Unmodelled
  end.

(** Comparison of naive datetimes: field by field, most significant
    first. *)
Definition fields (dt : datetime) : list Z :=
  [year dt; month dt; day dt; hour dt; minute dt; second dt; microsecond dt].

End Calendar.

Import Calendar.

(** ** Python built-ins used by the programs *)

Module Py.

(** [bool(s)] for a string. *)
Definition truthy (s : string) : bool := negb (String.eqb s "").

(** [s in [..]] for a list of strings. *)
Definition str_in (s : string) (l : list string) : bool :=
  bool_decide (s ∈ l).

(** [str.isspace] on one character: the code points below 256 that
    [str.strip()] removes. *)
Definition is_space (c : ascii) : bool :=
  let n := Z.of_nat (nat_of_ascii c) in
  ((9 <=? n) && (n <=? 13)) || ((28 <=? n) && (n <=? 32))
  || (n =? 133) || (n =? 160).

Fixpoint lstrip (s : string) : string :=
  match s with
  | String c rest => if is_space c then lstrip rest else s
  | EmptyString => EmptyString
  end.

Fixpoint rstrip (s : string) : string :=
  match s with
  | String c rest =>
      match rstrip rest with
      | EmptyString => if is_space c then EmptyString else String c EmptyString
      | r => String c r
      end
  | EmptyString => EmptyString
  end.

Definition strip (s : string) : string := rstrip (lstrip s).

(** [$] of a regular expression: the end of the string, or the last
    position before a final newline. *)
Definition at_dollar (s : string) : bool :=
  match s with
  | EmptyString => true
  | String c EmptyString => Ascii.eqb c "010"
  | _ => false
  end.

(** [re.match(r'^\d{4}-\d{2}-\d{2}$', s)]. *)
Definition match_date_re (s : string) : bool :=
  match read_date_shape s with
  | Some (_, _, _, rest) => at_dollar rest
  | None => false
  end.

(** Lexicographic order on tuples of integers. *)
Fixpoint lex_ltb (a b : list Z) : bool :=
  match a, b with
  | [], [] => false
  | [], _ :: _ => true
  | _ :: _, [] => false
  | x :: a', y :: b' => (x <? y) || ((x =? y) && lex_ltb a' b')
  end.

(** [list.sort(key=.., reverse=True)] on a list already paired with its
    keys: the stable sort into non-increasing order of the keys, elements
    of equal key keeping their relative order. *)
Section Sort.
Context {A : Type}.

Fixpoint insert_reverse (x : list Z * A) (l : list (list Z * A))
  : list (list Z * A) :=
  match l with
  | [] => [x]
  | y :: l' =>
      if lex_ltb (fst x) (fst y) then y :: insert_reverse x l'
      else x :: l
  end.

Definition sort_reverse (l : list (list Z * A)) : list (list Z * A) :=
  foldr insert_reverse [] l.

(** [x] may come before [y] in non-increasing order. *)
Definition not_below (x y : list Z * A) : Prop :=
  lex_ltb (fst x) (fst y) = false.
End Sort.

End Py.

Import Py.

(** ** JSON documents and files

    [json.load] and [json.dump] are the library's; a file is kept up to
    what [json.load] makes of it: either a text the parser rejects
    ([JSONDecodeError]) or the document it parses to.  Numbers are
    integers. *)

Module Json.

#[local] Set Warnings "-register-all".

Inductive json :=
| JNull
| JBool (b : bool)
| JInt (n : Z)
| JStr (s : string)
| JList (l : list json)
| JDict (kvs : list (string * json)).

Inductive file_contents :=
| Unparseable
| Document (j : json).

(** [d.get(k)]: the value of the first binding of [k]. *)
Fixpoint dict_get (k : string) (kvs : list (string * json)) : option json :=
  match kvs with
  | [] => None
  | (k', v) :: rest => if String.eqb k k' then Some v else dict_get k rest
  end.

Definition as_int (j : json) : option Z :=
  match j with JInt n => Some n | _ => None end.
Definition as_str (j : json) : option string :=
  match j with JStr s => Some s | _ => None end.
Definition as_bool (j : json) : option bool :=
  match j with JBool b => Some b | _ => None end.

(** What [for item in data] yields: the elements of a list, the keys of a
    dictionary, the characters of a string; other values are not
    iterable. *)
Fixpoint chars (s : string) : list json :=
  match s with
  | EmptyString => []
  | String c rest => JStr (String c EmptyString) :: chars rest
  end.

Definition iterate (j : json) : option (list json) :=
  match j with
  | JList l => Some l
  | JDict kvs => Some (map (fun kv => JStr (fst kv)) kvs)
  | JStr s => Some (chars s)
  | _ => None
  end.

End Json.

Import Json.

(** ** The JSON-file todo manager ([todo-app-phase-1/src/main.py]) *)

Module JsonCli.

Record TodoItem := mk_TodoItem {
  id : Z;
  title : string;
  description : string;
  completed : bool;
  priority : string;
  category : string;
  due_date : string;
  recurring_pattern : string;
  created_at : string;
  updated_at : string
}.

Definition set_title (v : string) (t : TodoItem) : TodoItem :=
  mk_TodoItem (id t) v (description t) (completed t) (priority t)
    (category t) (due_date t) (recurring_pattern t) (created_at t) (updated_at t).
Definition set_description (v : string) (t : TodoItem) : TodoItem :=
  mk_TodoItem (id t) (title t) v (completed t) (priority t)
    (category t) (due_date t) (recurring_pattern t) (created_at t) (updated_at t).
Definition set_completed (v : bool) (t : TodoItem) : TodoItem :=
  mk_TodoItem (id t) (title t) (description t) v (priority t)
    (category t) (due_date t) (recurring_pattern t) (created_at t) (updated_at t).
Definition set_priority (v : string) (t : TodoItem) : TodoItem :=
  mk_TodoItem (id t) (title t) (description t) (completed t) v
    (category t) (due_date t) (recurring_pattern t) (created_at t) (updated_at t).
Definition set_category (v : string) (t : TodoItem) : TodoItem :=
  mk_TodoItem (id t) (title t) (description t) (completed t) (priority t)
    v (due_date t) (recurring_pattern t) (created_at t) (updated_at t).
Definition set_due_date (v : string) (t : TodoItem) : TodoItem :=
  mk_TodoItem (id t) (title t) (description t) (completed t) (priority t)
    (category t) v (recurring_pattern t) (created_at t) (updated_at t).
Definition set_recurring_pattern (v : string) (t : TodoItem) : TodoItem :=
  mk_TodoItem (id t) (title t) (description t) (completed t) (priority t)
    (category t) (due_date t) v (created_at t) (updated_at t).
Definition set_updated_at (v : string) (t : TodoItem) : TodoItem :=
  mk_TodoItem (id t) (title t) (description t) (completed t) (priority t)
    (category t) (due_date t) (recurring_pattern t) (created_at t) v.

(** The manager object together with the part of the world it acts on:
    the storage file, the number of times the file was opened for
    writing, what was printed, and the clock. *)
Record state := mk_state {
  todos : list TodoItem;
  next_id : Z;
  file : option file_contents;
  writes : nat;
  stdout : list string;
  clock : nat -> datetime;
  ticks : nat
}.

Inductive exn :=
| ValueError | KeyError | TypeError | OverflowError | JSONDecodeError.

(** How a call ends: it returns, it raises, or it leaves the typed model
    (an object would hold a value of another type than its annotation,
    or a library call is one of those left open). *)
Inductive outcome (A : Type) :=
| Ok (a : A)
| Raise (e : exn)
| OutOfModel.
Arguments Ok {A} a.
Arguments Raise {A} e.
Arguments OutOfModel {A}.

Definition M (A : Type) : Type := state -> outcome A * state.

Definition ret {A} (a : A) : M A := fun s => (Ok a, s).
Definition raise {A} (e : exn) : M A := fun s => (Raise e, s).
Definition out_of_model {A} : M A := fun s => (OutOfModel, s).

Definition bind {A B} (m : M A) (k : A -> M B) : M B :=
  fun s =>
    match m s with
    | (Ok a, s') => k a s'
    | (Raise e, s') => (Raise e, s')
    | (OutOfModel, s') => (OutOfModel, s')
    end.

Notation "'let*' x ':=' m 'in' k" := (bind m (fun x => k))
  (at level 10, x name, m at level 100, k at level 200, only parsing).
Notation "m >> k" := (bind m (fun _ => k))
  (at level 90, right associativity, only parsing).

(** [try: body except (..): handler], for the exceptions [caught]. *)
Definition try_except {A} (body : M A) (caught : exn -> bool) (handler : M A)
  : M A :=
  fun s =>
    match body s with
    | (Raise e, s') => if caught e then handler s' else (Raise e, s')
    | r => r
    end.

Definition typed {A} (o : option A) : M A :=
  match o with Some a => ret a | None => out_of_model end.

Definition get_todos : M (list TodoItem) := fun s => (Ok (todos s), s).
Definition get_next_id : M Z := fun s => (Ok (next_id s), s).

Definition put_todos (l : list TodoItem) : M unit := fun s =>
  (Ok tt, mk_state l (next_id s) (file s) (writes s) (stdout s) (clock s) (ticks s)).
Definition put_next_id (n : Z) : M unit := fun s =>
  (Ok tt, mk_state (todos s) n (file s) (writes s) (stdout s) (clock s) (ticks s)).
Definition write_file (c : file_contents) : M unit := fun s =>
  (Ok tt, mk_state (todos s) (next_id s) (Some c) (S (writes s)) (stdout s)
            (clock s) (ticks s)).
Definition print (line : string) : M unit := fun s =>
  (Ok tt, mk_state (todos s) (next_id s) (file s) (writes s)
            (stdout s ++ [line]) (clock s) (ticks s)).

(** [datetime.now().isoformat()]. *)
Definition now_isoformat : M string := fun s =>
  (Ok (isoformat (clock s (ticks s))),
   mk_state (todos s) (next_id s) (file s) (writes s) (stdout s) (clock s)
     (S (ticks s))).

(** [obj.attr = v] on the object at index [i] of [self.todos]. *)
Definition setattr (i : nat) (f : TodoItem -> TodoItem) : M unit :=
  let* l := get_todos in put_todos (alter f i l).

Fixpoint for_each {A B} (f : A -> M B) (l : list A) : M (list B) :=
  match l with
  | [] => ret []
  | x :: rest =>
      let* y := f x in
      let* ys := for_each f rest in
      ret (y :: ys)
  end.

(** *** TodoItem *)

Definition TodoItem__init__ (id : Z) (title description : string)
    (completed : bool) (created_at : option string)
    (priority category due_date recurring_pattern : string) : M TodoItem :=
  let priority' :=
    if str_in priority ["High"; "Medium"; "Low"] then priority else "Medium" in
  let* created :=
    match created_at with
    | Some c => if truthy c then ret c else now_isoformat
    | None => now_isoformat
    end in
  let* updated := now_isoformat in
  ret (mk_TodoItem id title description completed priority' category
         due_date recurring_pattern created updated).

Definition to_dict (t : TodoItem) : json :=
  JDict [("id", JInt (id t));
         ("title", JStr (title t));
         ("description", JStr (description t));
         ("completed", JBool (completed t));
         ("priority", JStr (priority t));
         ("category", JStr (category t));
         ("due_date", JStr (due_date t));
         ("recurring_pattern", JStr (recurring_pattern t));
         ("created_at", JStr (created_at t));
         ("updated_at", JStr (updated_at t))].

(** [data[k]]; a value that is not a dictionary cannot be indexed by a
    string. *)
Definition subscript (data : json) (k : string) : M json :=
  match data with
  | JDict kvs =>
      match dict_get k kvs with
      | Some v => ret v
      | None => raise KeyError
      end
  | _ => raise TypeError
  end.

(** [data.get(k, default)], read at the annotated type of the field. *)
Definition get_as {A} (view : json -> option A) (data : json) (k : string)
    (default : A) : option A :=
  match data with
  | JDict kvs =>
      match dict_get k kvs with
      | Some v => view v
      | None => Some default
      end
  | _ => None
  end.

(** [data.get('created_at')], [None] when absent or null. *)
Definition as_optional_str (j : json) : option (option string) :=
  match j with
  | JNull => Some None
  | JStr s => Some (Some s)
  | _ => None
  end.

Definition from_dict (data : json) : M TodoItem :=
  let* v_id := subscript data "id" in
  let* v_title := subscript data "title" in
  let* id := typed (as_int v_id) in
  let* title := typed (as_str v_title) in
  let* description := typed (get_as as_str data "description" "") in
  let* completed := typed (get_as as_bool data "completed" false) in
  let* created_at := typed (get_as as_optional_str data "created_at" None) in
  let* priority := typed (get_as as_str data "priority" "Medium") in
  let* category := typed (get_as as_str data "category" "") in
  let* due_date := typed (get_as as_str data "due_date" "") in
  let* recurring_pattern := typed (get_as as_str data "recurring_pattern" "") in
  let* item := TodoItem__init__ id title description completed created_at
                 priority category due_date recurring_pattern in
  let* default := now_isoformat in
  let* updated := typed (get_as as_str data "updated_at" default) in
  ret (set_updated_at updated item).

(** *** TodoManager *)

Definition max_id (l : list TodoItem) : Z :=
  match l with
  | [] => 0
  | t :: rest => foldl Z.max (id t) (map id rest)
  end.

Definition _update_next_id : M unit :=
  let* l := get_todos in
  match l with
  | [] => put_next_id 1
  | _ => put_next_id (max_id l + 1)
  end.

Definition _validate_priority (priority : string) : bool :=
  str_in priority ["High"; "Medium"; "Low"].

Definition _validate_date_format (date_str : string) : bool :=
  if truthy date_str then match_date_re date_str else true.

Definition _validate_recurring_pattern (pattern : string) : bool :=
  str_in pattern [""; "Daily"; "Weekly"; "Monthly"].

Definition save_todos : M unit :=
  let* l := get_todos in
  write_file (Document (JList (map to_dict l))).

Definition msg_invalid_priority (priority : string) : string :=
  "Invalid priority: " +:+ priority +:+ ". Must be one of: High, Medium, Low".
Definition msg_invalid_date (due_date : string) : string :=
  "Invalid date format: " +:+ due_date +:+ ". Expected format: YYYY-MM-DD".
Definition msg_invalid_pattern (recurring_pattern : string) : string :=
  "Invalid recurring pattern: " +:+ recurring_pattern
    +:+ ". Must be one of: Daily, Weekly, Monthly, or empty".

Definition add_todo (title description priority category due_date
    recurring_pattern : string) : M (option TodoItem) :=
  if negb (_validate_priority priority) then
    print (msg_invalid_priority priority) >> ret None
  else if negb (_validate_date_format due_date) then
    print (msg_invalid_date due_date) >> ret None
  else if negb (_validate_recurring_pattern recurring_pattern) then
    print (msg_invalid_pattern recurring_pattern) >> ret None
  else
    let* n := get_next_id in
    let* todo := TodoItem__init__ n title description false None priority
                   category due_date recurring_pattern in
    let* l := get_todos in
    put_todos (l ++ [todo]) >>
    put_next_id (n + 1) >>
    save_todos >>
    ret (Some todo).

(** The first item of the list with the given id, with its index. *)
Definition find_id (todo_id : Z) (l : list TodoItem) : option (nat * TodoItem) :=
  list_find (fun t => id t = todo_id) l.

Definition remove_todo (todo_id : Z) : M bool :=
  let* l := get_todos in
  match find_id todo_id l with
  | Some (i, _) => put_todos (delete i l) >> save_todos >> ret true
  | None => ret false
  end.

(** The due date of the successor: [k] days after a non-empty due date. *)
Definition next_due (k : nat) (due_date : string) : M string :=
  if truthy due_date then
    match fromisoformat due_date with
    | Parsed dt =>
        match add_days k dt with
        | Some dt' => ret (strftime_Ymd dt')
        | None => raise OverflowError
        end
    | Invalid => raise ValueError
    | Unmodelled => out_of_model
    end
  else ret "".

Definition _create_recurring_task (completed_todo : TodoItem) : M unit :=
  let create (next_due : string) : M unit :=
    let* n := get_next_id in
    let* new_todo := TodoItem__init__ n (title completed_todo)
                       (description completed_todo) false None
                       (priority completed_todo) (category completed_todo)
                       next_due (recurring_pattern completed_todo) in
    let* l := get_todos in
    put_todos (l ++ [new_todo]) >>
    put_next_id (n + 1) >>
    save_todos in
  if String.eqb (recurring_pattern completed_todo) "Daily" then
    let* d := next_due 1 (due_date completed_todo) in create d
  else if String.eqb (recurring_pattern completed_todo) "Weekly" then
    let* d := next_due 7 (due_date completed_todo) in create d
  else if String.eqb (recurring_pattern completed_todo) "Monthly" then
    let* d := next_due 30 (due_date completed_todo) in create d
  else ret tt.

Definition toggle_completion (todo_id : Z) : M bool :=
  let* l := get_todos in
  match find_id todo_id l with
  | Some (i, todo) =>
      setattr i (set_completed (negb (completed todo))) >>
      let* now := now_isoformat in
      setattr i (set_updated_at now) >>
      let todo' := set_updated_at now (set_completed (negb (completed todo)) todo) in
      (if completed todo' && truthy (recurring_pattern todo')
       then _create_recurring_task todo' else ret tt) >>
      save_todos >>
      ret true
  | None => ret false
  end.

(** One optional argument of [update_todo]: left alone when [None],
    assigned when valid, otherwise reported and the call returns
    [False]. *)
Definition assign_checked (arg : option string) (valid : string -> bool)
    (assign : string -> M unit) (message : string -> string)
    (rest : M bool) : M bool :=
  match arg with
  | None => rest
  | Some v =>
      if valid v then assign v >> rest
      else print (message v) >> ret false
  end.

Definition assign_given (arg : option string) (assign : string -> M unit)
    (rest : M bool) : M bool :=
  match arg with
  | None => rest
  | Some v => assign v >> rest
  end.

Definition update_todo (todo_id : Z) (title description priority category
    due_date recurring_pattern : option string) : M bool :=
  let* l := get_todos in
  match find_id todo_id l with
  | Some (i, _) =>
      assign_given title (fun v => setattr i (set_title v))
      (assign_given description (fun v => setattr i (set_description v))
      (assign_checked priority _validate_priority
         (fun v => setattr i (set_priority v)) msg_invalid_priority
      (assign_given category (fun v => setattr i (set_category v))
      (assign_checked due_date _validate_date_format
         (fun v => setattr i (set_due_date v)) msg_invalid_date
      (assign_checked recurring_pattern _validate_recurring_pattern
         (fun v => setattr i (set_recurring_pattern v)) msg_invalid_pattern
      (let* now := now_isoformat in
       setattr i (set_updated_at now) >>
       save_todos >>
       ret true))))))
  | None => ret false
  end.

Definition get_todo (todo_id : Z) : M (option TodoItem) :=
  let* l := get_todos in
  ret (snd <$> find_id todo_id l).

Definition priority_order (p : string) : option Z :=
  if String.eqb p "High" then Some 3
  else if String.eqb p "Medium" then Some 2
  else if String.eqb p "Low" then Some 1
  else None.

(** [datetime.fromisoformat(x.created_at)] as a sort key. *)
Definition created_key (x : TodoItem) : M (list Z) :=
  match fromisoformat (created_at x) with
  | Parsed dt => ret (fields dt)
  | Invalid => raise ValueError
  | Unmodelled => out_of_model
  end.

(** [(priority_order[x.priority], datetime.fromisoformat(x.created_at))]. *)
Definition priority_key (x : TodoItem) : M (list Z) :=
  match priority_order (priority x) with
  | Some p => let* k := created_key x in ret (p :: k)
  | None => raise KeyError
  end.

(** With [show_completed] the local [todos] is the manager's own list,
    which [sort] then reorders in place; otherwise it is a fresh list. *)
Definition list_todos (show_completed sort_by_priority : bool)
  : M (list TodoItem) :=
  let* l := get_todos in
  let selected :=
    if show_completed then l
    else filter (fun t => completed t = false) l in
  let* keys := for_each (if sort_by_priority then priority_key else created_key)
                 selected in
  let sorted := map snd (sort_reverse (zip keys selected)) in
  (if show_completed then put_todos sorted else ret tt) >>
  ret sorted.

Definition json_load (c : file_contents) : M json :=
  match c with
  | Document j => ret j
  | Unparseable => raise JSONDecodeError
  end.

Definition load_todos : M unit :=
  fun s =>
    match file s with
    | Some c =>
        try_except
          (let* data := json_load c in
           let* items := match iterate data with
                         | Some items => ret items
                         | None => raise TypeError
                         end in
           let* l := for_each from_dict items in
           put_todos l >>
           _update_next_id)
          (fun e => match e with
                    | JSONDecodeError | KeyError => true
                    | _ => false
                    end)
          (put_todos [] >> put_next_id 1)
          s
    | None => (Ok tt, s)
    end.

Definition TodoManager__init__ : M unit :=
  put_todos [] >>
  put_next_id 1 >>
  load_todos >>
  _update_next_id.

(** A world before any manager exists. *)
Definition boot (f : option file_contents) (clk : nat -> datetime) : state :=
  mk_state [] 0 f 0 [] clk 0.

(** *** Sessions *)

Inductive call :=
| Add (title description priority category due_date recurring_pattern : string)
| Remove (todo_id : Z)
| Toggle (todo_id : Z)
| Update (todo_id : Z)
    (title description priority category due_date recurring_pattern : option string)
| Get (todo_id : Z)
| List (show_completed sort_by_priority : bool)
| Load.

Definition discard {A} (m : M A) : M unit := let* _ := m in ret tt.

Definition run_call (c : call) : M unit :=
  match c with
  | Add t d p c du r => discard (add_todo t d p c du r)
  | Remove i => discard (remove_todo i)
  | Toggle i => discard (toggle_completion i)
  | Update i t d p c du r => discard (update_todo i t d p c du r)
  | Get i => discard (get_todo i)
  | List sc sp => discard (list_todos sc sp)
  | Load => load_todos
  end.

Definition in_model {A} (o : outcome A) : Prop :=
  match o with OutOfModel => False | _ => True end.

(** Another program rewrites the storage file. *)
Definition overwrite (f : option file_contents) (s : state) : state :=
  mk_state (todos s) (next_id s) f (writes s) (stdout s) (clock s) (ticks s).

(** The states a manager can be in: it was constructed without an
    exception, then any calls were made, each returning or raising (the
    caller may catch the exception and go on), with the file possibly
    rewritten from outside in between. *)
Inductive reachable : state -> Prop :=
| reachable_init f clk s :
    TodoManager__init__ (boot f clk) = (Ok tt, s) -> reachable s
| reachable_call s c :
    reachable s -> in_model (fst (run_call c s)) ->
    reachable (snd (run_call c s))
| reachable_overwrite s f :
    reachable s -> reachable (overwrite f s).

Definition run_calls (cs : list call) (s : state) : state :=
  foldl (fun s c => snd (run_call c s)) s cs.

(** *** Vocabulary of the statements *)

(** The [k]-th next reading of the clock, as [isoformat()] prints it. *)
Definition now (s : state) (k : nat) : string :=
  isoformat (clock s (k + ticks s)%nat).

(** What [toggle_completion] does to the item it finds. *)
Definition touch (stamp : string) (t : TodoItem) : TodoItem :=
  set_updated_at stamp (set_completed (negb (completed t)) t).

(** The file as [save_todos] leaves it. *)
Definition snapshot (l : list TodoItem) : option file_contents :=
  Some (Document (JList (map to_dict l))).

Definition with_ticks (n : nat) (s : state) : state :=
  mk_state (todos s) (next_id s) (file s) (writes s) (stdout s) (clock s) n.

(** What the constructor guarantees of every [TodoItem]. *)
Definition item_ok (t : TodoItem) : Prop :=
  priority t ∈ ["High"; "Medium"; "Low"] /\ created_at t <> "".

Definition ids_below (n : Z) (l : list TodoItem) : Prop :=
  Forall (fun t => id t < n) l.

Record inv (s : state) : Prop := mk_inv {
  inv_items : Forall item_ok (todos s);
  inv_ids : ids_below (next_id s) (todos s)
}.

(** A computation keeps [I] however it ends. *)
Definition stable {A} (I : state -> Prop) (m : M A) : Prop :=
  forall s, I s -> I (snd (m s)).

(** A property of the items and the counter alone. *)
Definition data_only (I : state -> Prop) : Prop :=
  forall s s', todos s' = todos s -> next_id s' = next_id s -> I s -> I s'.

(** An assignment that leaves the id alone and keeps a well-formed item
    well formed. *)
Definition harmless (f : TodoItem -> TodoItem) : Prop :=
  forall t, id (f t) = id t /\ (item_ok t -> item_ok (f t)).

(** The priority the constructor stores. *)
Definition normalised (priority : string) : string :=
  if str_in priority ["High"; "Medium"; "Low"] then priority else "Medium".

(** The item the constructor builds in state [s] when no creation stamp
    is passed. *)
Definition fresh_item (s : state) (title description priority category
    due_date recurring_pattern : string) : TodoItem :=
  mk_TodoItem (next_id s) title description false (normalised priority)
    category due_date recurring_pattern (now s 0) (now s 1).

(** The state once such an item is appended, the counter stepped and the
    list saved. *)
Definition appended (s : state) (t : TodoItem) : state :=
  mk_state (todos s ++ [t]) (next_id s + 1) (snapshot (todos s ++ [t]))
    (S (writes s)) (stdout s) (clock s) (2 + ticks s).

(** The state once the list is saved. *)
Definition saved (s : state) : state :=
  mk_state (todos s) (next_id s) (snapshot (todos s)) (S (writes s))
    (stdout s) (clock s) (ticks s).

(** States that differ from [s0] in the clock readings only. *)
Definition same_data (s0 s : state) : Prop := s = with_ticks (ticks s) s0.

(** The list [list_todos] sorts. *)
Definition selection (show_completed : bool) (s : state) : list TodoItem :=
  if show_completed then todos s
  else filter (fun t => completed t = false) (todos s).

(** The counter [_update_next_id] computes. *)
Definition recount (l : list TodoItem) : Z :=
  match l with [] => 1 | _ => max_id l + 1 end.

(** The exceptions [load_todos] catches. *)
Definition caught_on_load (e : exn) : bool :=
  match e with JSONDecodeError | KeyError => true | _ => false end.

(** A due date [next_due] can shift by [k] days: empty, or a calendar date
    from year 1000 on whose [k]-th successor is not past 9999-12-31. *)
Definition shiftable (k : nat) (due : string) : Prop :=
  due = "" \/
  exists d d', fromisoformat due = Parsed d /\ 1000 <= year d
               /\ add_days k d = Some d'.

(** The counter has not gone below [n0]. *)
Definition counter_from (n0 : Z) (s : state) : Prop := n0 <= next_id s.

(** The number of days a recurrence pattern stands for. *)
Definition pattern_days (pattern : string) : option nat :=
  if String.eqb pattern "Daily" then Some 1%nat
  else if String.eqb pattern "Weekly" then Some 7%nat
  else if String.eqb pattern "Monthly" then Some 30%nat
  else None.

(** [shifted k due due']: [due'] is the due date [k] days after [due]:
    empty for an empty one, and otherwise the date [k] ordinals later,
    printed as [YYYY-MM-DD]. *)
Inductive shifted (k : nat) : string -> string -> Prop :=
| shifted_empty : shifted k "" ""
| shifted_date due d d' :
    fromisoformat due = Parsed d ->
    add_days k d = Some d' ->
    toordinal d' = toordinal d + Z.of_nat k ->
    shifted k due (strftime_Ymd d').




(** The sort key of [list_todos], when it can be computed. *)
Definition sort_key (sort_by_priority : bool) (t : TodoItem) : option (list Z) :=
  match fromisoformat (created_at t) with
  | Parsed dt =>
      if sort_by_priority
      then (fun p => p :: fields dt) <$> priority_order (priority t)
      else Some (fields dt)
  | _ => None
  end.

(** Non-increasing keys: no item is followed by one of a greater key. *)
Definition sorted_reverse (sort_by_priority : bool) (l : list TodoItem) : Prop :=
  StronglySorted
    (fun a b => forall ka kb,
         sort_key sort_by_priority a = Some ka ->
         sort_key sort_by_priority b = Some kb ->
         lex_ltb ka kb = false) l.

End JsonCli.

(** ** The in-memory todo manager ([todo-app-phase-1/main.py]) *)

Module MemoryCli.

Record Task := mk_Task {
  id : Z;
  title : string;
  description : string;
  status : string;
  created_at : datetime
}.

Record TodoCore := mk_TodoCore {
  tasks : list Task;
  next_id : Z;
  clock : nat -> datetime;
  ticks : nat
}.

Definition TodoCore__init__ (clk : nat -> datetime) : TodoCore :=
  mk_TodoCore [] 1 clk 0.

Inductive result (A : Type) :=
| Returns (a : A)
| RaisesValueError (message : string).
Arguments Returns {A} a.
Arguments RaisesValueError {A} message.

Definition add_task (title description : string) (self : TodoCore)
  : result Task * TodoCore :=
  if negb (truthy (strip title)) then
    (RaisesValueError "Task title cannot be empty", self)
  else
    let task := mk_Task (next_id self) (strip title) (strip description)
                  "pending" (clock self (ticks self)) in
    (Returns task,
     mk_TodoCore (tasks self ++ [task]) (next_id self + 1) (clock self)
       (S (ticks self))).

Definition view_all_tasks (self : TodoCore) : list Task :=
  map snd (sort_reverse (map (fun t => (fields (created_at t), t)) (tasks self))).

Definition find_id (task_id : Z) (l : list Task) : option (nat * Task) :=
  list_find (fun t => id t = task_id) l.

Definition update_task (task_id : Z) (title description : option string)
    (self : TodoCore) : option Task * TodoCore :=
  match find_id task_id (tasks self) with
  | Some (i, task) =>
      let task1 :=
        match title with
        | Some v =>
            mk_Task (id task)
              (if truthy (strip v) then strip v else MemoryCli.title task)
              (MemoryCli.description task) (status task) (created_at task)
        | None => task
        end in
      let task2 :=
        match description with
        | Some v =>
            mk_Task (id task1) (MemoryCli.title task1) (strip v)
              (status task1) (created_at task1)
        | None => task1
        end in
      (Some task2,
       mk_TodoCore (<[i := task2]> (tasks self)) (next_id self) (clock self)
         (ticks self))
  | None => (None, self)
  end.

Definition delete_task (task_id : Z) (self : TodoCore) : bool * TodoCore :=
  match find_id task_id (tasks self) with
  | Some (i, _) =>
      (true,
       mk_TodoCore (delete i (tasks self)) (next_id self) (clock self)
         (ticks self))
  | None => (false, self)
  end.

Definition mark_task_completed (task_id : Z) (self : TodoCore)
  : bool * TodoCore :=
  match find_id task_id (tasks self) with
  | Some (i, task) =>
      (true,
       mk_TodoCore
         (<[i := mk_Task (id task) (title task) (description task)
                   "completed" (created_at task)]> (tasks self))
         (next_id self) (clock self) (ticks self))
  | None => (false, self)
  end.

Inductive call :=
| AddTask (title description : string)
| UpdateTask (task_id : Z) (title description : option string)
| DeleteTask (task_id : Z)
| MarkCompleted (task_id : Z).

Definition run_call (c : call) (self : TodoCore) : TodoCore :=
  match c with
  | AddTask t d => snd (add_task t d self)
  | UpdateTask i t d => snd (update_task i t d self)
  | DeleteTask i => snd (delete_task i self)
  | MarkCompleted i => snd (mark_task_completed i self)
  end.

Definition run_calls (cs : list call) (self : TodoCore) : TodoCore :=
  foldl (fun s c => run_call c s) self cs.

(** Every id held is below the counter. *)
Definition ids_below (self : TodoCore) : Prop :=
  Forall (fun t => id t < next_id self) (tasks self).

End MemoryCli.

(** ** The web backend ([backend/src/services.py], [backend/src/api/routes/tasks.py])

    The ORM session is a table of task rows with the counter the database
    draws primary keys from, the number of statements sent to the
    database so far, and the clock behind [datetime.utcnow()].  The
    authenticated user is the value the [get_current_active_user]
    dependency hands to a route. *)

Module Web.

Record Task := mk_Task {
  id : Z;
  user_id : Z;
  title : string;
  description : option string;
  completed : bool;
  created_at : datetime;
  updated_at : datetime
}.

Record User := mk_User {
  u_id : option Z;
  email : string;
  is_active : bool
}.

Record TaskCreate := mk_TaskCreate {
  tc_title : string;
  tc_description : option string;
  tc_user_id : option Z
}.

(** A field of [TaskUpdate] is [None] when the request did not set it
    ([exclude_unset]). *)
Record TaskUpdate := mk_TaskUpdate {
  tu_title : option string;
  tu_description : option (option string);
  tu_completed : option bool
}.

Record Session := mk_Session {
  rows : list Task;
  next_pk : Z;
  statements : nat;
  clock : nat -> datetime;
  ticks : nat
}.

Definition exec_count (session : Session) : Session :=
  mk_Session (rows session) (next_pk session) (S (statements session))
    (clock session) (ticks session).

Definition utcnow (session : Session) : datetime * Session :=
  (clock session (ticks session),
   mk_Session (rows session) (next_pk session) (statements session)
     (clock session) (S (ticks session))).

Definition put_rows (l : list Task) (session : Session) : Session :=
  mk_Session l (next_pk session) (S (statements session))
    (clock session) (ticks session).

(** *** services.py *)

(** [owner] is [task_create.user_id], which the only caller has just
    overwritten with the path user id; the database assigns the primary
    key on commit. *)
Definition create_task (task_create : TaskCreate) (owner : Z)
    (session : Session) : Task * Session :=
  let (created, s1) := utcnow session in
  let (updated, s2) := utcnow s1 in
  let db_task := mk_Task (next_pk s2) owner (tc_title task_create)
                   (tc_description task_create) false created updated in
  (db_task,
   mk_Session (rows s2 ++ [db_task]) (next_pk s2 + 1) (S (statements s2))
     (clock s2) (ticks s2)).

Definition matches (task_id user_id : Z) (t : Task) : Prop :=
  id t = task_id /\ Web.user_id t = user_id.

#[export] Instance matches_dec task_id user_id t
  : Decision (matches task_id user_id t).
Proof. unfold matches. apply _. Defined.

(** [select(Task).where(Task.id == task_id, Task.user_id == user_id)],
    [.first()]: the row and its position in the table. *)
Definition get_task_by_id (task_id user_id : Z) (session : Session)
  : option (nat * Task) * Session :=
  (list_find (matches task_id user_id) (rows session), exec_count session).

Definition get_tasks_by_user (user_id : Z) (completed : option bool)
    (session : Session) : list Task * Session :=
  let mine := filter (fun t => Web.user_id t = user_id) (rows session) in
  let selected :=
    match completed with
    | Some c => filter (fun t => Web.completed t = c) mine
    | None => mine
    end in
  (map snd (sort_reverse (map (fun t => (fields (created_at t), t)) selected)),
   exec_count session).

Definition apply_update (u : TaskUpdate) (t : Task) : Task :=
  mk_Task (id t) (user_id t)
    (default (title t) (tu_title u))
    (default (description t) (tu_description u))
    (default (completed t) (tu_completed u))
    (created_at t) (updated_at t).

Definition set_updated_at (now : datetime) (t : Task) : Task :=
  mk_Task (id t) (user_id t) (title t) (description t) (completed t)
    (created_at t) now.

Definition set_completed (c : bool) (t : Task) : Task :=
  mk_Task (id t) (user_id t) (title t) (description t) c
    (created_at t) (updated_at t).

Definition update_task (task_id user_id : Z) (task_update : TaskUpdate)
    (session : Session) : option Task * Session :=
  match get_task_by_id task_id user_id session with
  | (Some (i, db_task), s1) =>
      let (now, s2) := utcnow s1 in
      let db_task' := set_updated_at now (apply_update task_update db_task) in
      (Some db_task', put_rows (<[i := db_task']> (rows s2)) s2)
  | (None, s1) => (None, s1)
  end.

Definition delete_task (task_id user_id : Z) (session : Session)
  : bool * Session :=
  match get_task_by_id task_id user_id session with
  | (Some (i, _), s1) => (true, put_rows (delete i (rows s1)) s1)
  | (None, s1) => (false, s1)
  end.

Definition toggle_task_completion (task_id user_id : Z) (completed : bool)
    (session : Session) : option Task * Session :=
  match get_task_by_id task_id user_id session with
  | (Some (i, db_task), s1) =>
      let (now, s2) := utcnow s1 in
      let db_task' := set_updated_at now (set_completed completed db_task) in
      (Some db_task', put_rows (<[i := db_task']> (rows s2)) s2)
  | (None, s1) => (None, s1)
  end.

(** *** api/routes/tasks.py *)

Inductive body :=
| OneTask (t : Task)
| Tasks (l : list Task)
| Message (m : string).

Inductive response :=
| Returned (b : body)
| HTTPException (status_code : Z) (detail : string).

Definition is_user (current_user : User) (user_id : Z) : bool :=
  bool_decide (u_id current_user = Some user_id).

Definition create_new_task (user_id : Z) (task : TaskCreate)
    (current_user : User) (session : Session) : response * Session :=
  if negb (is_user current_user user_id) then
    (HTTPException 403 "Not authorized to create tasks for this user", session)
  else
    let (t, s') := create_task task user_id session in
    (Returned (OneTask t), s').

Definition read_tasks (user_id : Z) (completed : option bool)
    (current_user : User) (session : Session) : response * Session :=
  if negb (is_user current_user user_id) then
    (HTTPException 403 "Not authorized to access tasks for this user", session)
  else
    let (l, s') := get_tasks_by_user user_id completed session in
    (Returned (Tasks l), s').

Definition read_task (user_id task_id : Z) (current_user : User)
    (session : Session) : response * Session :=
  if negb (is_user current_user user_id) then
    (HTTPException 403 "Not authorized to access tasks for this user", session)
  else
    match get_task_by_id task_id user_id session with
    | (Some (_, task), s') => (Returned (OneTask task), s')
    | (None, s') => (HTTPException 404 "Task not found", s')
    end.

Definition update_existing_task (user_id task_id : Z)
    (task_update : TaskUpdate) (current_user : User) (session : Session)
  : response * Session :=
  if negb (is_user current_user user_id) then
    (HTTPException 403 "Not authorized to update tasks for this user", session)
  else
    match update_task task_id user_id task_update session with
    | (Some updated_task, s') => (Returned (OneTask updated_task), s')
    | (None, s') => (HTTPException 404 "Task not found", s')
    end.

Definition delete_existing_task (user_id task_id : Z) (current_user : User)
    (session : Session) : response * Session :=
  if negb (is_user current_user user_id) then
    (HTTPException 403 "Not authorized to delete tasks for this user", session)
  else
    match delete_task task_id user_id session with
    | (true, s') => (Returned (Message "Task deleted successfully"), s')
    | (false, s') => (HTTPException 404 "Task not found", s')
    end.

Definition toggle_task_complete (user_id task_id : Z) (completed : bool)
    (current_user : User) (session : Session) : response * Session :=
  if negb (is_user current_user user_id) then
    (HTTPException 403 "Not authorized to update tasks for this user", session)
  else
    match toggle_task_completion task_id user_id completed session with
    | (Some task, s') => (Returned (OneTask task), s')
    | (None, s') => (HTTPException 404 "Task not found", s')
    end.

(** A request to one of the six task routes, with its path user id. *)
Inductive request :=
| PostTask (user_id : Z) (task : TaskCreate)
| GetTasks (user_id : Z) (completed : option bool)
| GetTask (user_id task_id : Z)
| PutTask (user_id task_id : Z) (task_update : TaskUpdate)
| DeleteTask (user_id task_id : Z)
| PatchComplete (user_id task_id : Z) (completed : bool).

Definition path_user (r : request) : Z :=
  match r with
  | PostTask u _ | GetTasks u _ | GetTask u _ | PutTask u _ _
  | DeleteTask u _ | PatchComplete u _ _ => u
  end.

Definition path_task (r : request) : option Z :=
  match r with
  | PostTask _ _ | GetTasks _ _ => None
  | GetTask _ t | PutTask _ t _ | DeleteTask _ t | PatchComplete _ t _ => Some t
  end.

Definition route (r : request) (current_user : User) (session : Session)
  : response * Session :=
  match r with
  | PostTask u task => create_new_task u task current_user session
  | GetTasks u c => read_tasks u c current_user session
  | GetTask u t => read_task u t current_user session
  | PutTask u t upd => update_existing_task u t upd current_user session
  | DeleteTask u t => delete_existing_task u t current_user session
  | PatchComplete u t c => toggle_task_complete u t c current_user session
  end.

(** The detail of the authorization error of each route. *)
Definition forbidden_detail (r : request) : string :=
  match r with
  | PostTask _ _ => "Not authorized to create tasks for this user"
  | GetTasks _ _ | GetTask _ _ => "Not authorized to access tasks for this user"
  | PutTask _ _ _ | PatchComplete _ _ _ =>
      "Not authorized to update tasks for this user"
  | DeleteTask _ _ => "Not authorized to delete tasks for this user"
  end.

(** No row has the given id and owner. *)
Definition missing (task_id user_id : Z) (session : Session) : Prop :=
  Forall (fun t => ~ matches task_id user_id t) (rows session).

End Web.

(** ** Concrete sessions, used to exercise the statements *)

Module Demo.

(** A clock that advances one second per reading, from 09:00 on
    2024-01-15. *)
Definition clock (n : nat) : datetime :=
  mk_datetime 2024 1 15 9 (Z.of_nat (n / 60)) (Z.of_nat (n mod 60)) 0.

(** A manager started in a directory without [todos.json]. *)
Definition started : JsonCli.state :=
  snd (JsonCli.TodoManager__init__ (JsonCli.boot None clock)).

Definition add_daily : JsonCli.call :=
  JsonCli.Add "Water plants" "balcony" "High" "home" "2024-01-31" "Daily".

Definition add_plain : JsonCli.call :=
  JsonCli.Add "File taxes" "" "Low" "" "" "".

(** One daily task, id 1. *)
Definition with_daily : JsonCli.state := snd (JsonCli.run_call add_daily started).

(** The daily task, then a task without recurrence: ids 1 and 2, stored
    oldest first. *)
Definition with_two : JsonCli.state := snd (JsonCli.run_call add_plain with_daily).

(** Both added, then the second removed. *)
Definition after_removal : JsonCli.state :=
  snd (JsonCli.run_call (JsonCli.Remove 2) with_two).

(** A task whose due date has the shape of a date but is none, accepted
    by [add_todo]. *)
Definition with_bad_date : JsonCli.state :=
  snd (JsonCli.run_call
         (JsonCli.Add "Pay rent" "" "Medium" "" "2024-02-30" "Monthly") started).

(** A storage file written by hand: one item with a pattern the program
    does not know, an unknown priority, and no optional field but
    these. *)
Definition yearly_file : option file_contents :=
  Some (Document (JList
    [JDict [("id", JInt 7); ("title", JStr "Renew passport");
            ("priority", JStr "Urgent");
            ("recurring_pattern", JStr "Yearly")]])).

Definition from_yearly_file : JsonCli.state :=
  snd (JsonCli.TodoManager__init__ (JsonCli.boot yearly_file clock)).


(** The in-memory manager after two tasks. *)
Definition memory_two : MemoryCli.TodoCore :=
  MemoryCli.run_calls
    [MemoryCli.AddTask "  Buy milk " ""; MemoryCli.AddTask "Call home" "evening"]
    (MemoryCli.TodoCore__init__ clock).

(** A table with one task of user 1, and the two users. *)
Definition table : Web.Session :=
  Web.mk_Session
    [Web.mk_Task 5 1 "Write report" None false (clock 0) (clock 0)]
    6 0 clock 1.

Definition alice : Web.User := Web.mk_User (Some 1) "alice@example.org" true.
Definition bob : Web.User := Web.mk_User (Some 2) "bob@example.org" true.

End Demo.

(** ** Further vocabulary for the JSON-file manager *)

Module JsonCliMore.
Import JsonCli.

(** The line [add_todo] prints for the first check that fails. *)
Definition first_error (priority due_date recurring_pattern : string) : string :=
  if negb (_validate_priority priority) then msg_invalid_priority priority
  else if negb (_validate_date_format due_date) then msg_invalid_date due_date
  else msg_invalid_pattern recurring_pattern.

(** The state after a line is printed. *)
Definition printed (line : string) (s : state) : state :=
  mk_state (todos s) (next_id s) (file s) (writes s) (stdout s ++ [line])
    (clock s) (ticks s).

(** A call of a mutating method ended in success. *)
Definition succeeded {A} (positive : A -> bool) (o : outcome A) : bool :=
  match o with Ok a => positive a | _ => false end.

(** The file is the current list, written during the call. *)
Definition saved_now (s s' : state) : Prop :=
  file s' = snapshot (todos s') /\ (writes s < writes s')%nat.

(** The file has not been touched by the call. *)
Definition file_untouched (s s' : state) : Prop :=
  file s' = file s /\ writes s' = writes s.

(** The item [update_todo] leaves in place of [t]: the given fields
    replaced, the update stamp renewed. *)
Definition updated_item (t : TodoItem) (title description priority category
    due_date recurring_pattern : option string) (stamp : string) : TodoItem :=
  mk_TodoItem (id t) (default (JsonCli.title t) title)
    (default (JsonCli.description t) description) (completed t)
    (default (JsonCli.priority t) priority)
    (default (JsonCli.category t) category)
    (default (JsonCli.due_date t) due_date)
    (default (JsonCli.recurring_pattern t) recurring_pattern)
    (created_at t) stamp.

(** An optional argument is absent or passes its check. *)
Definition acceptable (valid : string -> bool) (arg : option string) : Prop :=
  match arg with Some v => valid v = true | None => True end.

(** A step that returns and leaves the file alone. *)
Definition quiet (m : M unit) : Prop :=
  forall s, exists s', m s = (Ok tt, s') /\ file s' = file s /\ writes s' = writes s.

(** From a state in which the file is still as in [s0], the computation
    either returns [True] with the file saved, or ends otherwise with the
    file still as in [s0]. *)
Definition ends_saved (s0 : state) (m : M bool) : Prop :=
  forall s1, file_untouched s0 s1 ->
    match m s1 with
    | (Ok true, s2) => saved_now s0 s2
    | (_, s2) => file_untouched s0 s2
    end.

(** What a mutating call does to the file: saved on success, untouched
    otherwise. *)
Definition persists {A} (positive : A -> bool) (m : M A) (s : state) : Prop :=
  if succeeded positive (fst (m s)) then saved_now s (snd (m s))
  else file_untouched s (snd (m s)).

Definition some {A} (o : option A) : bool :=
  match o with Some _ => true | None => false end.

(** The state with another list of items. *)
Definition with_todos (l : list TodoItem) (s : state) : state :=
  mk_state l (next_id s) (file s) (writes s) (stdout s) (clock s) (ticks s).

(** What an optional assignment of [update_todo] does to the item. *)
Definition assigned (set : string -> TodoItem -> TodoItem)
    (arg : option string) (t : TodoItem) : TodoItem :=
  match arg with Some v => set v t | None => t end.

(** *** Sessions on a storage file of the manager's own *)

(** The creation stamp is an ISO date-time. *)
Definition stamped (t : TodoItem) : Prop :=
  exists dt, fromisoformat (created_at t) = Parsed dt.

(** A list as the manager itself builds it: well-formed items with
    readable creation stamps and distinct ids. *)
Definition well_kept (l : list TodoItem) : Prop :=
  Forall item_ok l /\ Forall stamped l /\ NoDup (map id l).

(** No storage file, one that is no JSON, or one that [save_todos] wrote
    for such a list. *)
Definition own_file (f : option file_contents) : Prop :=
  f = None \/ f = Some Unparseable \/ exists l, f = snapshot l /\ well_kept l.

(** Every reading of the clock is a date-time. *)
Definition ticking (clk : nat -> datetime) : Prop :=
  forall n, valid_datetime (clk n) = true.

Definition steady (s : state) : Prop :=
  ticking (clock s) /\ well_kept (todos s)
  /\ ids_below (next_id s) (todos s) /\ own_file (file s).

(** An assignment that leaves the id and the creation stamp alone and
    keeps a well-formed item well formed. *)
Definition gentle (f : TodoItem -> TodoItem) : Prop :=
  forall t, id (f t) = id t /\ created_at (f t) = created_at t
            /\ (item_ok t -> item_ok (f t)).

(** The states of a manager constructed on the file [f] and then called
    any number of times, nobody else writing the file. *)
Inductive session (f : option file_contents) (clk : nat -> datetime)
  : state -> Prop :=
| session_init s :
    TodoManager__init__ (boot f clk) = (Ok tt, s) -> session f clk s
| session_call s c :
    session f clk s -> in_model (fst (run_call c s)) ->
    session f clk (snd (run_call c s)).

Definition toggles (c : call) : bool :=
  match c with Toggle _ => true | _ => false end.

(** A computation that returns in every state. *)
Definition returns {A} (m : M A) : Prop :=
  forall s, exists a s', m s = (Ok a, s').

End JsonCliMore.

(** ** Further sample values *)
Module Samples.

(** A wall clock that advances one second per reading and wraps around
    at midnight. *)
Definition wall_clock (n : nat) : datetime :=
  mk_datetime 2024 1 15 (Z.of_nat ((n / 3600) mod 24))
    (Z.of_nat ((n / 60) mod 60)) (Z.of_nat (n mod 60)) 0.

(** A storage file whose only item has a creation stamp of the shape of
    a date that is no date. *)
Definition misdated_file : option file_contents :=
  Some (Document (JList
    [JDict [("id", JInt 1); ("title", JStr "Call home");
            ("created_at", JStr "2024-02-30")]])).

Definition from_misdated_file : JsonCli.state :=
  snd (JsonCli.TodoManager__init__ (JsonCli.boot misdated_file Demo.clock)).

End Samples.

(** ** Further vocabulary for the in-memory manager *)
Module MemoryCliMore.
Import MemoryCli.

(** What [add_task] guarantees of a task, and the other methods keep. *)
Definition task_ok (t : Task) : Prop :=
  title t <> "" /\ (status t = "pending" \/ status t = "completed").

Definition kept (self : TodoCore) : Prop :=
  Forall task_ok (tasks self)
  /\ NoDup (map id (tasks self))
  /\ Forall (fun t => 1 <= id t < next_id self) (tasks self)
  /\ 1 <= next_id self.

(** No task is followed by one created later. *)
Definition newest_first (l : list Task) : Prop :=
  StronglySorted
    (fun a b => lex_ltb (fields (created_at a)) (fields (created_at b)) = false)
    l.

(** Each reading of the clock is later than the one before. *)
Definition rising (clk : nat -> datetime) : Prop :=
  forall m n, (m < n)%nat -> lex_ltb (fields (clk m)) (fields (clk n)) = true.

(** The tasks are held in the order of their creation, each stamped by
    an earlier reading of the clock. *)
Definition in_clock_order (self : TodoCore) : Prop :=
  StronglySorted
    (fun a b => lex_ltb (fields (created_at a)) (fields (created_at b)) = true)
    (tasks self)
  /\ Forall (fun t => exists k, (k < ticks self)%nat
                                /\ created_at t = clock self k) (tasks self).

End MemoryCliMore.

(** ** Further vocabulary for the web service *)
Module WebMore.
Import Web.

(** The rows that do not belong to the caller. *)
Definition foreign (current_user : User) (session : Session) : list Task :=
  filter (fun t => u_id current_user <> Some (user_id t)) (rows session).

(** The primary key is a key: ids are distinct and below the next one the
    database hands out. *)
Definition keys_ok (session : Session) : Prop :=
  NoDup (map id (rows session))
  /\ Forall (fun t => id t < next_pk session) (rows session).

(** The rows [get_tasks_by_user] selects. *)
Definition wanted (user_id : Z) (completed : option bool) (t : Task) : Prop :=
  Web.user_id t = user_id
  /\ match completed with Some c => Web.completed t = c | None => True end.

(** No task is followed by one created later. *)
Definition newest_first (l : list Task) : Prop :=
  StronglySorted
    (fun a b => lex_ltb (fields (created_at a)) (fields (created_at b)) = false)
    l.

(** The requests that write one task and return it. *)
Definition writes_task (r : request) : bool :=
  match r with
  | PostTask _ _ | PutTask _ _ _ | PatchComplete _ _ _ => true
  | _ => false
  end.

End WebMore.

(** ** Registration (api/routes/auth.py) *)
Module Signup.

Record User := mk_User {
  id : Z;
  email : string;
  hashed_password : string;
  is_active : bool;
  created_at : datetime;
  updated_at : datetime
}.

Record UserRegister := mk_UserRegister {
  r_email : string;
  r_password : string
}.

(** The user table, the next primary key and the clock. *)
Record Session := mk_Session {
  users : list User;
  next_pk : Z;
  clock : nat -> datetime;
  ticks : nat
}.

Inductive response :=
| Returned (u : User)
| HTTPException (status_code : Z) (detail : string)
| Raised.

Section Hash.
(** [auth.get_password_hash], which is not among the sources: any
    function of the password that returns a string or raises ([None]). *)
Variable get_password_hash : string -> option string.

Definition register_user (user_data : UserRegister) (session : Session)
  : response * Session :=
  match list_find (fun u => email u = r_email user_data) (users session) with
  | Some _ => (HTTPException 400 "Email already registered", session)
  | None =>
      match get_password_hash (r_password user_data) with
      | None => (Raised, session)
      | Some hashed =>
          let db_user :=
            mk_User (next_pk session) (r_email user_data) hashed true
              (clock session (ticks session))
              (clock session (S (ticks session))) in
          (Returned db_user,
           mk_Session (users session ++ [db_user]) (next_pk session + 1)
             (clock session) (2 + ticks session))
      end
  end.
End Hash.

(** A stand-in for the hash in examples. *)
Definition sample_hash (password : string) : option string :=
  Some ("hashed:" +:+ password).

Definition empty_table : Session := mk_Session [] 1 Demo.clock 0.

End Signup.

(** * Properties *)

(** ** Calendar arithmetic *)

Section CalendarFacts.

Lemma days_before_year_succ (y : Z) :
  days_before_year (y + 1) =
  days_before_year y + (if is_leap y then 366 else 365).
Proof.
  unfold days_before_year, is_leap.
  replace (y + 1 - 1) with y by lia.
  destruct (y mod 4 =? 0) eqn:E4; destruct (y mod 100 =? 0) eqn:E100;
    destruct (y mod 400 =? 0) eqn:E400; simpl;
    rewrite ?Z.eqb_eq, ?Z.eqb_neq in *;
    Z.div_mod_to_equations; lia.
Qed.

Lemma days_before_month_succ (y m : Z) :
  1 <= m ->
  days_before_month y (m + 1) = days_before_month y m + days_in_month y m.
Proof.
  intros Hm. unfold days_before_month.
  replace (Z.to_nat (m + 1 - 1)) with (S (Z.to_nat (m - 1))) by lia.
  cbn [days_before_month_aux].
  replace (Z.of_nat (S (Z.to_nat (m - 1)))) with m by lia.
  reflexivity.
Qed.

Lemma days_before_december (y : Z) :
  days_before_month y 12 + 31 = if is_leap y then 366 else 365.
Proof.
  unfold days_before_month. change (Z.to_nat (12 - 1)) with 11%nat.
  cbn [days_before_month_aux]. unfold days_in_month.
  change (Z.of_nat 1 =? 2) with false.
  destruct (is_leap y); reflexivity.
Qed.

Lemma days_in_month_bounds (y m : Z) : 28 <= days_in_month y m <= 31.
Proof.
  unfold days_in_month.
  destruct (m =? 2); [destruct (is_leap y); lia|].
  destruct ((m =? 4) || (m =? 6) || (m =? 9) || (m =? 11)); lia.
Qed.

Lemma valid_date_spec (y m d : Z) :
  valid_date y m d = true <->
  1 <= y <= 9999 /\ 1 <= m <= 12 /\ 1 <= d <= days_in_month y m.
Proof.
  unfold valid_date, MINYEAR, MAXYEAR.
  rewrite !andb_true_iff, !Z.leb_le. lia.
Qed.

(** The day after a valid date is a valid date, one ordinal later, at
    the same time of day. *)
Lemma next_day_toordinal (dt dt' : datetime) :
  valid_date (year dt) (month dt) (day dt) = true ->
  next_day dt = Some dt' ->
  toordinal dt' = toordinal dt + 1
  /\ valid_date (year dt') (month dt') (day dt') = true
  /\ year dt <= year dt'
  /\ (hour dt', minute dt', second dt', microsecond dt')
     = (hour dt, minute dt, second dt, microsecond dt).
Proof.
  destruct dt as [y m d h mi s us]. cbn [year month day hour minute second microsecond].
  intros Hv Hn. apply valid_date_spec in Hv. destruct Hv as (Hy & Hm & Hd).
  unfold next_day in Hn.
  pose proof (days_in_month_bounds y m) as Hb.
  destruct (d <? days_in_month y m) eqn:E1.
  - apply Z.ltb_lt in E1. injection Hn as <-.
    cbn [year month day hour minute second microsecond]. unfold toordinal.
    cbn [year month day]. rewrite valid_date_spec. repeat split; lia.
  - apply Z.ltb_ge in E1. assert (d = days_in_month y m) as -> by lia.
    destruct (m <? 12) eqn:E2.
    + apply Z.ltb_lt in E2. injection Hn as <-. unfold toordinal.
      cbn [year month day hour minute second microsecond].
      rewrite days_before_month_succ by lia. rewrite valid_date_spec.
      pose proof (days_in_month_bounds y (m + 1)). repeat split; lia.
    + apply Z.ltb_ge in E2. assert (m = 12) as -> by lia.
      unfold MAXYEAR in Hn. destruct (y <? 9999) eqn:E3; [|discriminate].
      apply Z.ltb_lt in E3. injection Hn as <-. unfold toordinal.
      cbn [year month day hour minute second microsecond].
      rewrite days_before_year_succ.
      pose proof (days_before_december y) as Hdec.
      change (days_in_month y 12) with 31.
      change (days_before_month (y + 1) 1) with 0.
      rewrite valid_date_spec.
      pose proof (days_in_month_bounds (y + 1) 1).
      repeat split; try lia.
Qed.

(** [k] days after a valid date: [k] ordinals later. *)
Lemma add_days_toordinal (k : nat) (dt dt' : datetime) :
  valid_date (year dt) (month dt) (day dt) = true ->
  add_days k dt = Some dt' ->
  toordinal dt' = toordinal dt + Z.of_nat k
  /\ valid_date (year dt') (month dt') (day dt') = true
  /\ year dt <= year dt'.
Proof.
  revert dt. induction k as [|k IH]; intros dt Hv Hadd.
  - injection Hadd as <-. repeat split; [lia | assumption | lia].
  - cbn [add_days] in Hadd. destruct (next_day dt) as [dt1|] eqn:E; [|discriminate].
    destruct (next_day_toordinal dt dt1 Hv E) as (Ho & Hv1 & Hy & _).
    destruct (IH dt1 Hv1 Hadd) as (Ho' & Hv' & Hy').
    repeat split; [lia | assumption | lia].
Qed.

Lemma fromisoformat_valid (s : string) (dt : datetime) :
  fromisoformat s = Parsed dt ->
  valid_date (year dt) (month dt) (day dt) = true.
Proof.
  unfold fromisoformat.
  destruct (read_date_shape s) as [[[[y m] d] rest]|]; [|discriminate].
  destruct rest as [|c rest].
  - destruct (valid_date y m d) eqn:E; [|discriminate].
    intros [= <-]. exact E.
  - destruct c as [[] [] [] [] [] [] [] []]; try discriminate.
    destruct (read_time_shape rest) as [[[[h mi] sec] us]|]; [|discriminate].
    destruct (valid_date y m d) eqn:E; [|discriminate].
    destruct (valid_time h mi sec us); [|discriminate].
    intros [= <-]. exact E.
Qed.

Lemma append_nonempty_r (a b : string) : b <> "" -> a +:+ b <> "".
Proof. destruct a; simpl; [auto | discriminate]. Qed.

Lemma append_nonempty_l (a b : string) : a <> "" -> a +:+ b <> "".
Proof. destruct a; simpl; [congruence | discriminate]. Qed.

Lemma pad_digits_nonempty (w : nat) (n : Z) : pad_digits (S w) n <> "".
Proof. cbn [pad_digits]. apply append_nonempty_r. discriminate. Qed.

(** [isoformat()] never returns the empty string. *)
Lemma isoformat_nonempty (dt : datetime) : isoformat dt <> "".
Proof.
  unfold isoformat, strftime_Ymd.
  do 2 apply append_nonempty_l. apply pad_digits_nonempty.
Qed.

(** *** Printing and parsing dates *)

Lemma digit_val_digit_char (v : Z) : digit_val (digit_char v) = Some (v mod 10).
Proof.
  unfold digit_val, digit_char.
  assert (0 <= v mod 10 < 10) as H by (apply Z.mod_pos_bound; lia).
  rewrite nat_ascii_embedding by lia.
  replace (Z.of_nat (48 + Z.to_nat (v mod 10))) with (48 + v mod 10) by lia.
  destruct ((48 <=? 48 + v mod 10) && (48 + v mod 10 <=? 57)) eqn:E.
  - f_equal. lia.
  - apply andb_false_iff in E as [E|E]; [apply Z.leb_gt in E | apply Z.leb_gt in E]; lia.
Qed.

Lemma append_cons (x : ascii) (a b : string) :
  String x a +:+ b = String x (a +:+ b).
Proof. reflexivity. Qed.

Lemma append_empty_l (a : string) : "" +:+ a = a.
Proof. reflexivity. Qed.

Lemma append_assoc (a b c : string) : (a +:+ b) +:+ c = a +:+ (b +:+ c).
Proof.
  induction a as [|x a IH]; [reflexivity|].
  rewrite !append_cons, IH. reflexivity.
Qed.

Lemma append_empty_r (a : string) : a +:+ "" = a.
Proof.
  induction a as [|x a IH]; [reflexivity|]. rewrite append_cons, IH. reflexivity.
Qed.

Lemma read_digits_pad (w : nat) (acc v : Z) (rest : string) :
  0 <= v ->
  read_digits w acc (pad_digits w v +:+ rest)
  = Some (acc * 10 ^ Z.of_nat w + v mod 10 ^ Z.of_nat w, rest).
Proof.
  revert acc v rest. induction w as [|w IH]; intros acc v rest Hv.
  - cbn. rewrite Z.mod_1_r. do 2 f_equal. lia.
  - cbn [pad_digits]. rewrite append_assoc.
    assert (Hsplit : forall n a s a' s',
               read_digits n a s = Some (a', s') ->
               read_digits (S n) a s = read_digits 1 a' s').
    { clear. induction n as [|n IHn]; intros a s a' s'.
      - cbn. intros [= -> ->]. reflexivity.
      - intros H. cbn [read_digits] in H |- *.
        destruct s as [|c s]; [discriminate|].
        destruct (digit_val c) as [x|]; [|discriminate].
        apply (IHn _ _ _ _ H). }
    rewrite (Hsplit _ _ _ _ _ (IH acc (v / 10) _ ltac:(apply Z.div_pos; lia))).
    rewrite append_cons. cbn [read_digits]. rewrite digit_val_digit_char.
    do 2 f_equal.
    replace (Z.of_nat (S w)) with (1 + Z.of_nat w) by lia.
    rewrite Z.pow_add_r, Z.pow_1_r by lia.
    rewrite (Z.rem_mul_r v 10 (10 ^ Z.of_nat w)) by lia.
    lia.
Qed.

Lemma read_digits_pad_small (w : nat) (v : Z) (rest : string) :
  0 <= v < 10 ^ Z.of_nat w ->
  read_digits w 0 (pad_digits w v +:+ rest) = Some (v, rest).
Proof.
  intros H. rewrite read_digits_pad by lia.
  rewrite Z.mod_small by lia. reflexivity.
Qed.

Lemma read_date_shape_strftime (y m d : Z) (rest : string) :
  valid_date y m d = true ->
  read_date_shape (strftime_Ymd (midnight y m d) +:+ rest) = Some (y, m, d, rest).
Proof.
  intros H%valid_date_spec. destruct H as (Hy & Hm & Hd).
  pose proof (days_in_month_bounds y m).
  unfold read_date_shape, strftime_Ymd. cbn [year month day midnight].
  rewrite !append_assoc.
  rewrite read_digits_pad_small by (cbn; lia). cbn [mbind option_bind].
  rewrite !append_cons, !append_empty_l.
  cbn [expect Ascii.eqb Bool.eqb]. cbn [mbind option_bind].
  rewrite read_digits_pad_small by (cbn; lia). cbn [mbind option_bind].
  cbn [expect Ascii.eqb Bool.eqb]. cbn [mbind option_bind].
  rewrite read_digits_pad_small by (cbn; lia). reflexivity.
Qed.

(** A date printed by [strftime('%Y-%m-%d')] is read back by
    [fromisoformat]: the due date of a successor can be shifted again. *)
Lemma fromisoformat_strftime (dt : datetime) :
  valid_date (year dt) (month dt) (day dt) = true ->
  fromisoformat (strftime_Ymd dt)
  = Parsed (midnight (year dt) (month dt) (day dt)).
Proof.
  intros H. unfold fromisoformat.
  change (strftime_Ymd dt)
    with (strftime_Ymd (midnight (year dt) (month dt) (day dt))).
  pose proof (read_date_shape_strftime _ _ _ "" H) as Hr.
  rewrite append_empty_r in Hr. rewrite Hr, H. reflexivity.
Qed.

Lemma read_time_shape_isoformat (h mi s us : Z) :
  valid_time h mi s us = true ->
  read_time_shape
    (pad_digits 2 h +:+ ":" +:+ pad_digits 2 mi +:+ ":" +:+ pad_digits 2 s
       +:+ (if us =? 0 then EmptyString else "." +:+ pad_digits 6 us))
  = Some (h, mi, s, us).
Proof.
  unfold valid_time. rewrite !andb_true_iff, !Z.leb_le, !Z.ltb_lt.
  intros (((((((H1 & H2) & H3) & H4) & H5) & H6) & H7) & H8).
  unfold read_time_shape.
  rewrite read_digits_pad_small by (cbn; lia). cbn [mbind option_bind].
  rewrite !append_cons, !append_empty_l.
  cbn [expect Ascii.eqb Bool.eqb]. cbn [mbind option_bind].
  rewrite read_digits_pad_small by (cbn; lia). cbn [mbind option_bind].
  cbn [expect Ascii.eqb Bool.eqb]. cbn [mbind option_bind].
  rewrite read_digits_pad_small by (cbn; lia). cbn [mbind option_bind].
  destruct (us =? 0) eqn:E.
  - apply Z.eqb_eq in E. subst us. reflexivity.
  - apply Z.eqb_neq in E.
    cbn [expect Ascii.eqb Bool.eqb mbind option_bind].
    rewrite <- (append_empty_r (pad_digits 6 us)).
    rewrite read_digits_pad_small by (cbn; lia). reflexivity.
Qed.

(** A stamp printed by [isoformat()] is read back by [fromisoformat]:
    [list_todos] can compute the sort key of every item the program has
    stamped itself. *)
Lemma fromisoformat_isoformat (dt : datetime) :
  valid_datetime dt = true -> fromisoformat (isoformat dt) = Parsed dt.
Proof.
  destruct dt as [y m d h mi s us]. unfold valid_datetime.
  cbn [year month day hour minute second microsecond].
  intros [Hd Ht]%andb_true_iff. unfold fromisoformat, isoformat.
  cbn [year month day hour minute second microsecond].
  change (strftime_Ymd (mk_datetime y m d h mi s us))
    with (strftime_Ymd (midnight y m d)).
  rewrite (read_date_shape_strftime y m d _ Hd).
  rewrite append_cons, append_empty_l.
  rewrite (read_time_shape_isoformat h mi s us Ht), Hd, Ht. reflexivity.
Qed.

Example fromisoformat_examples :
  fromisoformat "2024-01-01" = Parsed (midnight 2024 1 1)
  /\ fromisoformat "2024-02-30" = Invalid
  /\ fromisoformat "2023-02-29" = Invalid
  /\ fromisoformat "0000-01-01" = Invalid
  /\ fromisoformat "2024-03-09T07:05:00.000012"
     = Parsed (mk_datetime 2024 3 9 7 5 0 12)
  /\ fromisoformat "tomorrow" = Unmodelled.
Proof. repeat split; reflexivity. Qed.

Example isoformat_examples :
  isoformat (mk_datetime 2024 3 9 7 5 0 12) = "2024-03-09T07:05:00.000012"
  /\ isoformat (mk_datetime 2024 12 31 23 59 59 0) = "2024-12-31T23:59:59".
Proof. split; reflexivity. Qed.

Example add_days_examples :
  (strftime_Ymd <$> add_days 1 (midnight 2024 2 28)) = Some "2024-02-29"
  /\ (strftime_Ymd <$> add_days 1 (midnight 2023 2 28)) = Some "2023-03-01"
  /\ (strftime_Ymd <$> add_days 7 (midnight 2023 12 28)) = Some "2024-01-04"
  /\ (strftime_Ymd <$> add_days 30 (midnight 2023 1 31)) = Some "2023-03-02"
  /\ add_days 1 (midnight 9999 12 31) = None
  /\ toordinal (midnight 1 1 1) = 1
  /\ toordinal (midnight 2024 1 1) = 738886.
Proof. repeat split; reflexivity. Qed.

Example match_date_re_examples :
  match_date_re "2024-01-31" = true
  /\ match_date_re "2024-13-45" = true
  /\ match_date_re "2024-1-1" = false
  /\ match_date_re "tomorrow" = false
  /\ strip "  Buy milk " = "Buy milk".
Proof. repeat split; reflexivity. Qed.

End CalendarFacts.

(** ** Sorting *)

Section SortFacts.
Context {A : Type}.
Implicit Types (x y : list Z * A) (l : list (list Z * A)).


Lemma lex_ltb_asym (a b : list Z) : lex_ltb a b = true -> lex_ltb b a = false.
Proof.
  revert b. induction a as [|x a IH]; intros [|y b]; cbn; try congruence.
  intros H. apply orb_true_iff in H. apply orb_false_iff.
  destruct H as [H|H].
  - apply Z.ltb_lt in H. split; [apply Z.ltb_ge; lia|].
    apply andb_false_iff. left. apply Z.eqb_neq. lia.
  - apply andb_true_iff in H. destruct H as [H1 H2]. apply Z.eqb_eq in H1. subst y.
    split; [apply Z.ltb_irrefl|]. rewrite Z.eqb_refl. cbn. apply IH, H2.
Qed.

(** If [a] is not below [b] and [b] is not below [c], then [a] is not
    below [c]. *)
Lemma lex_ltb_false_trans (a b c : list Z) :
  lex_ltb a b = false -> lex_ltb b c = false -> lex_ltb a c = false.
Proof.
  revert b c. induction a as [|x a IH]; intros [|y b] [|z c]; cbn;
    try congruence.
  intros H1 H2. apply orb_false_iff in H1, H2. apply orb_false_iff.
  destruct H1 as [H1 H1'], H2 as [H2 H2'].
  apply Z.ltb_ge in H1, H2. split; [apply Z.ltb_ge; lia|].
  destruct (x =? z) eqn:E; cbn; [|reflexivity].
  apply Z.eqb_eq in E. subst z. assert (y = x) as -> by lia.
  rewrite Z.eqb_refl in H1', H2'. cbn in H1', H2'. eapply IH; eassumption.
Qed.

Lemma insert_reverse_perm x l : Permutation (insert_reverse x l) (x :: l).
Proof.
  induction l as [|y l IH]; cbn; [reflexivity|].
  destruct (lex_ltb (fst x) (fst y)); [|reflexivity].
  rewrite IH. apply perm_swap.
Qed.

Lemma sort_reverse_perm l : Permutation (sort_reverse l) l.
Proof.
  induction l as [|x l IH]; cbn; [reflexivity|].
  rewrite insert_reverse_perm. apply perm_skip, IH.
Qed.

Lemma insert_reverse_sorted x l :
  StronglySorted not_below l -> StronglySorted not_below (insert_reverse x l).
Proof.
  induction 1 as [|y l Hs IH Hy]; cbn.
  - repeat constructor.
  - destruct (lex_ltb (fst x) (fst y)) eqn:E.
    + constructor; [exact IH|].
      eapply Permutation_Forall; [symmetry; apply insert_reverse_perm|].
      constructor; [|exact Hy]. apply lex_ltb_asym, E.
    + constructor; [constructor; assumption|].
      constructor; [exact E|].
      eapply Forall_impl; [exact Hy|]. cbn. intros z Hz.
      eapply lex_ltb_false_trans; eassumption.
Qed.

Lemma sort_reverse_sorted l : StronglySorted not_below (sort_reverse l).
Proof.
  induction l as [|x l IH]; cbn; [constructor|].
  apply insert_reverse_sorted, IH.
Qed.



End SortFacts.

(** ** The JSON-file manager *)

Section JsonCliFacts.
Import JsonCli.

Lemma alter_lookup {A} (f : A -> A) (l : list A) (i : nat) (x : A) :
  l !! i = Some x -> alter f i l = <[i := f x]> l.
Proof.
  intros H. rewrite list_insert_alter. apply list_alter_ext; [|reflexivity].
  intros y Hy. congruence.
Qed.

Lemma find_id_Some todo_id l i t :
  find_id todo_id l = Some (i, t) -> l !! i = Some t /\ id t = todo_id.
Proof. unfold find_id. intros H%list_find_Some. tauto. Qed.

Lemma find_id_None todo_id l :
  find_id todo_id l = None <-> Forall (fun t => id t <> todo_id) l.
Proof. unfold find_id. apply list_find_None. Qed.

(** *** Stability rules *)

Lemma stable_ret {A} I (a : A) : stable I (ret a).
Proof. intros s H. exact H. Qed.

Lemma stable_raise {A} I e : stable I (@raise A e).
Proof. intros s H. exact H. Qed.

Lemma stable_out_of_model {A} I : stable I (@out_of_model A).
Proof. intros s H. exact H. Qed.

Lemma stable_bind {A B} I (m : M A) (k : A -> M B) :
  stable I m -> (forall a, stable I (k a)) -> stable I (bind m k).
Proof.
  intros Hm Hk s Hs. unfold bind. specialize (Hm s Hs).
  destruct (m s) as [[a| |] s']; cbn in *; try assumption.
  apply Hk, Hm.
Qed.

Lemma stable_typed {A} I (o : option A) : stable I (typed o).
Proof. destruct o; [apply stable_ret | apply stable_out_of_model]. Qed.

Lemma stable_try_except {A} I (body handler : M A) caught :
  stable I body -> stable I handler -> stable I (try_except body caught handler).
Proof.
  intros Hb Hh s Hs. unfold try_except. specialize (Hb s Hs).
  destruct (body s) as [[a|e|] s']; cbn in *; try assumption.
  destruct (caught e); [apply Hh, Hb | exact Hb].
Qed.

Lemma stable_for_each {A B} I (f : A -> M B) (l : list A) :
  (forall x, stable I (f x)) -> stable I (for_each f l).
Proof.
  intros Hf. induction l as [|x l IH]; cbn [for_each].
  - apply stable_ret.
  - apply stable_bind; [apply Hf|]. intros y.
    apply stable_bind; [apply IH|]. intros ys. apply stable_ret.
Qed.

Lemma stable_discard {A} I (m : M A) : stable I m -> stable I (discard m).
Proof. intros H. apply stable_bind; [exact H|]. intros a. apply stable_ret. Qed.

Lemma stable_get_todos I : stable I get_todos.
Proof. intros s H. exact H. Qed.
Lemma stable_get_next_id I : stable I get_next_id.
Proof. intros s H. exact H. Qed.
Lemma stable_print I line : data_only I -> stable I (print line).
Proof. intros HI s H. apply (HI s); auto. Qed.
Lemma stable_write_file I c : data_only I -> stable I (write_file c).
Proof. intros HI s H. apply (HI s); auto. Qed.
Lemma stable_now_isoformat I : data_only I -> stable I now_isoformat.
Proof. intros HI s H. apply (HI s); auto. Qed.
Lemma stable_save_todos I : data_only I -> stable I save_todos.
Proof.
  intros HI. apply stable_bind; [apply stable_get_todos|].
  intros l. apply stable_write_file, HI.
Qed.

Lemma inv_data_only : data_only inv.
Proof. intros s s' Ht Hn [H1 H2]. split; rewrite ?Ht, ?Hn; assumption. Qed.

Lemma stable_setattr (i : nat) f : harmless f -> stable inv (setattr i f).
Proof.
  intros Hf s [H1 H2]. unfold setattr, bind, get_todos, put_todos. cbn.
  split; cbn.
  - apply Forall_alter; [exact H1|]. intros t _ Ht. apply Hf, Ht.
  - unfold ids_below. apply Forall_alter; [exact H2|]. intros t _ Ht.
    cbn beta in *. destruct (Hf t) as [-> _]. exact Ht.
Qed.


(** *** Creating an item *)

Lemma str_in_spec (x : string) (l : list string) : str_in x l = true <-> x ∈ l.
Proof. unfold str_in. apply bool_decide_eq_true. Qed.

Lemma normalised_valid (p : string) : normalised p ∈ ["High"; "Medium"; "Low"].
Proof.
  unfold normalised. destruct (str_in p _) eqn:E.
  - apply str_in_spec, E.
  - apply str_in_spec. reflexivity.
Qed.


Lemma fresh_item_ok s t d p c du r : item_ok (fresh_item s t d p c du r).
Proof. split; cbn; [apply normalised_valid | apply isoformat_nonempty]. Qed.

Lemma inv_appended (s : state) (t : TodoItem) :
  inv s -> item_ok t -> id t = next_id s -> inv (appended s t).
Proof.
  intros [H1 H2] Ht Hid. split; cbn.
  - apply Forall_app. split; [exact H1 | constructor; [exact Ht | constructor]].
  - unfold ids_below in *. apply Forall_app. split.
    + eapply Forall_impl; [exact H2|]. cbn. intros; lia.
    + constructor; [lia | constructor].
Qed.

Lemma add_todo_accepts (title description priority category due_date
    recurring_pattern : string) (s : state) :
  _validate_priority priority = true ->
  _validate_date_format due_date = true ->
  _validate_recurring_pattern recurring_pattern = true ->
  let t := fresh_item s title description priority category due_date
             recurring_pattern in
  add_todo title description priority category due_date recurring_pattern s
  = (Ok (Some t), appended s t).
Proof.
  intros Hp Hd Hr. unfold add_todo. rewrite Hp, Hd, Hr. reflexivity.
Qed.

Lemma add_todo_rejects (title description priority category due_date
    recurring_pattern : string) (s : state) :
  _validate_priority priority = false
  \/ _validate_date_format due_date = false
  \/ _validate_recurring_pattern recurring_pattern = false ->
  exists line,
    add_todo title description priority category due_date recurring_pattern s
    = (Ok None,
       mk_state (todos s) (next_id s) (file s) (writes s) (stdout s ++ [line])
         (clock s) (ticks s)).
Proof.
  intros H. unfold add_todo.
  destruct (_validate_priority priority); cbn [negb].
  - destruct (_validate_date_format due_date); cbn [negb].
    + destruct (_validate_recurring_pattern recurring_pattern); cbn [negb].
      * destruct H as [H|[H|H]]; discriminate.
      * eexists; reflexivity.
    + eexists; reflexivity.
  - eexists; reflexivity.
Qed.

Lemma stable_add_todo t d p c du r : stable inv (add_todo t d p c du r).
Proof.
  intros s Hs.
  destruct (_validate_priority p) eqn:Hp;
    [destruct (_validate_date_format du) eqn:Hd;
     [destruct (_validate_recurring_pattern r) eqn:Hr|]|].
  - rewrite add_todo_accepts by assumption. cbn [snd].
    apply inv_appended; [exact Hs | apply fresh_item_ok | reflexivity].
  - destruct (add_todo_rejects t d p c du r s) as [line ->]; [auto|].
    apply (inv_data_only s); auto.
  - destruct (add_todo_rejects t d p c du r s) as [line ->]; [auto|].
    apply (inv_data_only s); auto.
  - destruct (add_todo_rejects t d p c du r s) as [line ->]; [auto|].
    apply (inv_data_only s); auto.
Qed.


(** *** Regeneration *)

Lemma save_todos_exec (s : state) : save_todos s = (Ok tt, saved s).
Proof. reflexivity. Qed.

Lemma next_due_pure (k : nat) (due : string) (s : state) :
  next_due k due s = (fst (next_due k due s), s).
Proof.
  unfold next_due. destruct (truthy due); [|reflexivity].
  destruct (fromisoformat due) as [dt| |]; try reflexivity.
  destruct (add_days k dt); reflexivity.
Qed.

Lemma create_exec (t : TodoItem) (s : state) :
  _create_recurring_task t s =
  match pattern_days (recurring_pattern t) with
  | None => (Ok tt, s)
  | Some k =>
      match fst (next_due k (due_date t) s) with
      | Ok d =>
          (Ok tt,
           appended s (fresh_item s (title t) (description t) (priority t)
                         (category t) d (recurring_pattern t)))
      | Raise e => (Raise e, s)
      | OutOfModel => (OutOfModel, s)
      end
  end.
Proof.
  unfold _create_recurring_task, pattern_days.
  destruct (String.eqb (recurring_pattern t) "Daily");
    [|destruct (String.eqb (recurring_pattern t) "Weekly");
      [|destruct (String.eqb (recurring_pattern t) "Monthly")]];
    try reflexivity;
    unfold bind at 1; rewrite next_due_pure;
    destruct (fst (next_due _ (due_date t) s)); reflexivity.
Qed.

Lemma stable_create (t : TodoItem) : stable inv (_create_recurring_task t).
Proof.
  intros s Hs. rewrite create_exec.
  destruct (pattern_days (recurring_pattern t)) as [k|]; [|exact Hs].
  destruct (fst (next_due k (due_date t) s)); cbn [snd]; try exact Hs.
  apply inv_appended; [exact Hs | apply fresh_item_ok | reflexivity].
Qed.

Lemma toggle_exec (s : state) (todo_id : Z) (i : nat) (t : TodoItem) :
  find_id todo_id (todos s) = Some (i, t) ->
  let t' := touch (now s 0) t in
  let s1 := mk_state (<[i := t']> (todos s)) (next_id s) (file s) (writes s)
              (stdout s) (clock s) (S (ticks s)) in
  toggle_completion todo_id s =
  if completed t' && truthy (recurring_pattern t') then
    match _create_recurring_task t' s1 with
    | (Ok _, s2) => (Ok true, saved s2)
    | (Raise e, s2) => (Raise e, s2)
    | (OutOfModel, s2) => (OutOfModel, s2)
    end
  else (Ok true, saved s1).
Proof.
  intros Hf t' s1. pose proof (find_id_Some _ _ _ _ Hf) as [Hl _].
  unfold toggle_completion. unfold bind at 1. unfold get_todos at 1.
  rewrite Hf.
  unfold bind at 1. unfold setattr at 1, bind at 1, get_todos at 1, put_todos at 1.
  cbn [todos next_id file writes stdout clock ticks].
  unfold bind at 1. unfold now_isoformat at 1.
  cbn [todos next_id file writes stdout clock ticks].
  unfold bind at 1. unfold setattr at 1, bind at 1, get_todos at 1, put_todos at 1.
  cbn [todos next_id file writes stdout clock ticks].
  rewrite list_alter_alter_eq, (alter_lookup _ _ _ _ Hl).
  change ((set_updated_at (isoformat (clock s (ticks s))) ∘ set_completed (negb (completed t))) t)
    with t'.
  change (set_updated_at (isoformat (clock s (ticks s))) (set_completed (negb (completed t)) t))
    with t'.
  fold s1.
  destruct (completed t' && truthy (recurring_pattern t')).
  - unfold bind at 1.
    destruct (_create_recurring_task t' s1) as [[[]| |] s2]; reflexivity.
  - reflexivity.
Qed.

Lemma harmless_set_completed b : harmless (set_completed b).
Proof. intros t. split; [reflexivity | intros H; exact H]. Qed.
Lemma harmless_set_updated_at v : harmless (set_updated_at v).
Proof. intros t. split; [reflexivity | intros H; exact H]. Qed.
Lemma harmless_set_title v : harmless (set_title v).
Proof. intros t. split; [reflexivity | intros H; exact H]. Qed.
Lemma harmless_set_description v : harmless (set_description v).
Proof. intros t. split; [reflexivity | intros H; exact H]. Qed.
Lemma harmless_set_category v : harmless (set_category v).
Proof. intros t. split; [reflexivity | intros H; exact H]. Qed.
Lemma harmless_set_due_date v : harmless (set_due_date v).
Proof. intros t. split; [reflexivity | intros H; exact H]. Qed.
Lemma harmless_set_recurring_pattern v : harmless (set_recurring_pattern v).
Proof. intros t. split; [reflexivity | intros H; exact H]. Qed.
Lemma harmless_set_priority v :
  _validate_priority v = true -> harmless (set_priority v).
Proof.
  intros Hv t. split; [reflexivity|]. intros [_ Hc]. split; [|exact Hc].
  apply str_in_spec, Hv.
Qed.

Lemma stable_toggle_completion todo_id : stable inv (toggle_completion todo_id).
Proof.
  unfold toggle_completion.
  apply stable_bind; [apply stable_get_todos|]. intros l.
  destruct (find_id todo_id l) as [[i t]|]; [|apply stable_ret].
  apply stable_bind; [apply stable_setattr, harmless_set_completed|]. intros _.
  apply stable_bind; [apply stable_now_isoformat, inv_data_only|]. intros stamp.
  apply stable_bind; [apply stable_setattr, harmless_set_updated_at|]. intros _.
  apply stable_bind.
  - destruct (_ && _); [apply stable_create | apply stable_ret].
  - intros _. apply stable_bind; [apply stable_save_todos, inv_data_only|].
    intros _. apply stable_ret.
Qed.

Lemma stable_assign_given I arg assign rest :
  (forall v, stable I (assign v)) -> stable I rest ->
  stable I (assign_given arg assign rest).
Proof.
  intros Ha Hr. destruct arg as [v|]; cbn; [|exact Hr].
  apply stable_bind; [apply Ha | intros _; exact Hr].
Qed.

Lemma stable_assign_checked I arg valid assign message rest :
  data_only I ->
  (forall v, valid v = true -> stable I (assign v)) -> stable I rest ->
  stable I (assign_checked arg valid assign message rest).
Proof.
  intros HI Ha Hr. destruct arg as [v|]; cbn; [|exact Hr].
  destruct (valid v) eqn:E.
  - apply stable_bind; [apply Ha, E | intros _; exact Hr].
  - apply stable_bind; [apply stable_print, HI | intros _; apply stable_ret].
Qed.

Lemma stable_update_todo_gen (I : state -> Prop) todo_id t d p c du r :
  data_only I ->
  (forall i f, harmless f -> stable I (setattr i f)) ->
  stable I (update_todo todo_id t d p c du r).
Proof.
  intros HI Hset. unfold update_todo.
  apply stable_bind; [apply stable_get_todos|]. intros l.
  destruct (find_id todo_id l) as [[i t0]|]; [|apply stable_ret].
  apply stable_assign_given; [intros; apply Hset, harmless_set_title|].
  apply stable_assign_given; [intros; apply Hset, harmless_set_description|].
  apply stable_assign_checked;
    [exact HI | intros; apply Hset, harmless_set_priority; assumption|].
  apply stable_assign_given; [intros; apply Hset, harmless_set_category|].
  apply stable_assign_checked;
    [exact HI | intros; apply Hset, harmless_set_due_date|].
  apply stable_assign_checked;
    [exact HI | intros; apply Hset, harmless_set_recurring_pattern|].
  apply stable_bind; [apply stable_now_isoformat, HI|]. intros stamp.
  apply stable_bind; [apply Hset, harmless_set_updated_at|]. intros _.
  apply stable_bind; [apply stable_save_todos, HI|]. intros _.
  apply stable_ret.
Qed.

Lemma stable_update_todo todo_id t d p c du r :
  stable inv (update_todo todo_id t d p c du r).
Proof.
  apply stable_update_todo_gen; [apply inv_data_only|].
  intros i f. apply stable_setattr.
Qed.

Lemma remove_todo_exec (s : state) (todo_id : Z) :
  remove_todo todo_id s =
  match find_id todo_id (todos s) with
  | Some (i, _) =>
      (Ok true,
       saved (mk_state (delete i (todos s)) (next_id s) (file s) (writes s)
                (stdout s) (clock s) (ticks s)))
  | None => (Ok false, s)
  end.
Proof.
  unfold remove_todo, bind, get_todos.
  destruct (find_id todo_id (todos s)) as [[i t]|]; reflexivity.
Qed.

Lemma stable_remove_todo todo_id : stable inv (remove_todo todo_id).
Proof.
  intros s [H1 H2]. rewrite remove_todo_exec.
  destruct (find_id todo_id (todos s)) as [[i t]|]; [|split; assumption].
  split; cbn; [apply Forall_delete, H1 | apply Forall_delete, H2].
Qed.


(** *** Listing *)

Lemma for_each_pure {A B} (f : A -> M B) (l : list A) (s : state) :
  (forall x s, snd (f x s) = s) -> snd (for_each f l s) = s.
Proof.
  intros Hf. revert s. induction l as [|x l IH]; intros s; cbn [for_each].
  - reflexivity.
  - unfold bind at 1. specialize (Hf x s).
    destruct (f x s) as [[y| |] s1]; cbn in Hf; subst s1; try reflexivity.
    unfold bind at 1. specialize (IH s).
    destruct (for_each f l s) as [[ys| |] s1]; cbn in IH; subst s1; reflexivity.
Qed.

Lemma created_key_pure (x : TodoItem) (s : state) : snd (created_key x s) = s.
Proof. unfold created_key. destruct (fromisoformat (created_at x)); reflexivity. Qed.

Lemma priority_key_pure (x : TodoItem) (s : state) : snd (priority_key x s) = s.
Proof.
  unfold priority_key. destruct (priority_order (priority x)); [|reflexivity].
  unfold bind. pose proof (created_key_pure x s) as H.
  destruct (created_key x s) as [[k| |] s1]; cbn in H; subst s1; reflexivity.
Qed.

Lemma key_pure (sp : bool) (x : TodoItem) (s : state) :
  snd ((if sp then priority_key else created_key) x s) = s.
Proof. destruct sp; [apply priority_key_pure | apply created_key_pure]. Qed.

Lemma key_exec (sp : bool) (x : TodoItem) (k : list Z) (s : state) :
  sort_key sp x = Some k ->
  (if sp then priority_key else created_key) x s = (Ok k, s).
Proof.
  unfold sort_key.
  destruct (fromisoformat (created_at x)) as [dt| |] eqn:E; try discriminate.
  destruct sp; unfold priority_key, created_key.
  - destruct (priority_order (priority x)) as [p|]; [|discriminate].
    intros [= <-]. unfold bind, created_key. rewrite E. reflexivity.
  - intros [= <-]. rewrite E. reflexivity.
Qed.

Lemma keys_exec (sp : bool) (l : list TodoItem) (s : state) :
  Forall (fun t => is_Some (sort_key sp t)) l ->
  exists keys,
    for_each (if sp then priority_key else created_key) l s = (Ok keys, s)
    /\ Forall2 (fun t k => sort_key sp t = Some k) l keys.
Proof.
  induction 1 as [|t l [k Hk] _ (keys & IH & HF)]; cbn [for_each].
  - exists []. split; [reflexivity | constructor].
  - exists (k :: keys). split; [|constructor; assumption].
    unfold bind at 1. rewrite (key_exec sp t k s Hk).
    unfold bind at 1. rewrite IH. reflexivity.
Qed.

Lemma for_each_length {A B} (f : A -> M B) (l : list A) (ys : list B)
    (s s' : state) :
  for_each f l s = (Ok ys, s') -> length ys = length l.
Proof.
  revert ys s s'. induction l as [|x l IH]; intros ys s s'; cbn [for_each].
  - intros [= <- _]. reflexivity.
  - unfold bind at 1. destruct (f x s) as [[y| |] s1]; try discriminate.
    unfold bind at 1. destruct (for_each f l s1) as [[ys'| |] s2] eqn:E;
      try discriminate.
    intros [= <- _]. cbn. f_equal. eapply IH, E.
Qed.

Lemma zip_snd_length {K} (l : list TodoItem) (keys : list K) :
  length keys = length l -> map snd (zip keys l) = l.
Proof.
  revert keys. induction l as [|t l IH]; intros [|k keys]; cbn; try discriminate.
  - reflexivity.
  - intros [= H]. f_equal. apply IH, H.
Qed.

Lemma zip_keys_snd {K} (R : TodoItem -> K -> Prop) (l : list TodoItem)
    (keys : list K) :
  Forall2 R l keys -> map snd (zip keys l) = l.
Proof. induction 1; cbn; [reflexivity | f_equal; assumption]. Qed.

Lemma zip_keys_Forall (sp : bool) (l : list TodoItem) (keys : list (list Z)) :
  Forall2 (fun t k => sort_key sp t = Some k) l keys ->
  Forall (fun p => sort_key sp (snd p) = Some (fst p)) (zip keys l).
Proof. induction 1; cbn; constructor; assumption. Qed.

Lemma sorted_pairs_items (sp : bool) (ps : list (list Z * TodoItem)) :
  StronglySorted not_below ps ->
  Forall (fun p => sort_key sp (snd p) = Some (fst p)) ps ->
  sorted_reverse sp (map snd ps).
Proof.
  unfold sorted_reverse.
  induction 1 as [|p ps Hs IH Hp]; intros HF; cbn [map]; [constructor|].
  inversion HF as [|? ? Hk HF']; subst. constructor; [apply IH, HF'|].
  rewrite Forall_forall in Hp, HF'. apply Forall_forall.
  intros b Hb%list_elem_of_In. apply in_map_iff in Hb as (q & <- & Hq).
  apply list_elem_of_In in Hq.
  intros ka kb Ha Hb. specialize (Hp q Hq). specialize (HF' q Hq).
  unfold not_below in Hp. cbn beta in HF'. congruence.
Qed.

Lemma list_todos_unfold (sc sp : bool) (s : state) :
  list_todos sc sp s =
  match for_each (if sp then priority_key else created_key) (selection sc s) s with
  | (Ok keys, s1) =>
      let sorted := map snd (sort_reverse (zip keys (selection sc s))) in
      (Ok sorted,
       if sc then mk_state sorted (next_id s1) (file s1) (writes s1) (stdout s1)
                    (clock s1) (ticks s1)
       else s1)
  | (Raise e, s1) => (Raise e, s1)
  | (OutOfModel, s1) => (OutOfModel, s1)
  end.
Proof.
  unfold list_todos, selection. unfold bind at 1. unfold get_todos at 1.
  unfold bind at 1.
  destruct sc;
    destruct (for_each _ _ s) as [[keys| |] s1]; reflexivity.
Qed.

Lemma list_todos_exec (sc sp : bool) (s : state) (keys : list (list Z)) :
  for_each (if sp then priority_key else created_key) (selection sc s) s
  = (Ok keys, s) ->
  let sorted := map snd (sort_reverse (zip keys (selection sc s))) in
  list_todos sc sp s =
  (Ok sorted,
   if sc then mk_state sorted (next_id s) (file s) (writes s) (stdout s)
                (clock s) (ticks s)
   else s).
Proof. intros Hk sorted. rewrite list_todos_unfold, Hk. reflexivity. Qed.

Lemma sorted_selection (sc sp : bool) (s : state) (keys : list (list Z)) :
  Forall2 (fun t k => sort_key sp t = Some k) (selection sc s) keys ->
  let sorted := map snd (sort_reverse (zip keys (selection sc s))) in
  Permutation (selection sc s) sorted /\ sorted_reverse sp sorted.
Proof.
  intros HF sorted. split.
  - unfold sorted. rewrite sort_reverse_perm.
    rewrite (zip_keys_snd _ _ _ HF). reflexivity.
  - apply sorted_pairs_items; [apply sort_reverse_sorted|].
    eapply Permutation_Forall; [symmetry; apply sort_reverse_perm|].
    apply zip_keys_Forall, HF.
Qed.

Lemma list_todos_state (sc sp : bool) (s : state) :
  let s' := snd (list_todos sc sp s) in
  Permutation (todos s) (todos s') /\ next_id s' = next_id s.
Proof.
  cbn zeta. rewrite list_todos_unfold.
  pose proof (for_each_pure (if sp then priority_key else created_key)
                (selection sc s) s (key_pure sp)) as Hp.
  destruct (for_each _ (selection sc s) s) as [[keys| |] s1] eqn:E;
    cbn in Hp; subst s1; cbn [snd]; try (split; reflexivity).
  destruct sc; cbn; [|split; reflexivity]. split; [|reflexivity].
  rewrite sort_reverse_perm.
  rewrite zip_snd_length; [reflexivity | eapply for_each_length, E].
Qed.

Lemma stable_list_todos (sc sp : bool) : stable inv (list_todos sc sp).
Proof.
  intros s [H1 H2]. destruct (list_todos_state sc sp s) as [Hp Hn].
  split; [|unfold ids_below; rewrite Hn];
    (eapply Permutation_Forall; [exact Hp | assumption]).
Qed.

(** *** Loading *)

Lemma bind_Ok {A B} (m : M A) (k : A -> M B) (s s' : state) (b : B) :
  bind m k s = (Ok b, s') ->
  exists a s1, m s = (Ok a, s1) /\ k a s1 = (Ok b, s').
Proof.
  unfold bind. destruct (m s) as [[a| |] s1]; try discriminate.
  intros H. exists a, s1. split; [reflexivity | exact H].
Qed.

Lemma typed_Ok {A} (o : option A) (s s' : state) (a : A) :
  typed o s = (Ok a, s') -> o = Some a /\ s' = s.
Proof. destruct o; cbn; [intros [= -> ->]; auto | discriminate]. Qed.

Lemma same_data_refl (s : state) : same_data s s.
Proof. destruct s; reflexivity. Qed.

Lemma stable_same_now (s0 : state) : stable (same_data s0) now_isoformat.
Proof. intros s Hs. unfold same_data in *. rewrite Hs. reflexivity. Qed.

Lemma stable_subscript I (data : json) (k : string) : stable I (subscript data k).
Proof.
  unfold subscript. destruct data; try apply stable_raise.
  destruct (dict_get k kvs); [apply stable_ret | apply stable_raise].
Qed.

Lemma stable_TodoItem__init__ (s0 : state) i t d c cr p cat du r :
  stable (same_data s0) (TodoItem__init__ i t d c cr p cat du r).
Proof.
  unfold TodoItem__init__. apply stable_bind.
  - destruct cr as [x|]; [destruct (truthy x)|];
      first [apply stable_ret | apply stable_same_now].
  - intros created. apply stable_bind; [apply stable_same_now|].
    intros updated. apply stable_ret.
Qed.

Lemma stable_from_dict (s0 : state) (data : json) :
  stable (same_data s0) (from_dict data).
Proof.
  unfold from_dict.
  repeat first
    [ apply stable_ret
    | apply stable_typed
    | apply stable_subscript
    | apply stable_same_now
    | apply stable_TodoItem__init__
    | apply stable_bind; [|intros ?] ].
Qed.

Lemma truthy_spec (x : string) : truthy x = true <-> x <> "".
Proof.
  unfold truthy. rewrite negb_true_iff. split.
  - intros H ->. discriminate.
  - intros H. apply String.eqb_neq, H.
Qed.

Lemma TodoItem__init___ok i t d c cr p cat du r (s s' : state) (item : TodoItem) :
  TodoItem__init__ i t d c cr p cat du r s = (Ok item, s') -> item_ok item.
Proof.
  unfold TodoItem__init__. intros H.
  apply bind_Ok in H as (created & s1 & Hc & H).
  apply bind_Ok in H as (updated & s2 & Hu & H).
  injection H as <- _. split; cbn; [apply normalised_valid|].
  destruct cr as [x|]; [destruct (truthy x) eqn:E|].
  - injection Hc as <- _. apply truthy_spec, E.
  - injection Hc as <- _. apply isoformat_nonempty.
  - injection Hc as <- _. apply isoformat_nonempty.
Qed.

Lemma from_dict_ok (data : json) (s s' : state) (item : TodoItem) :
  from_dict data s = (Ok item, s') -> item_ok item.
Proof.
  unfold from_dict. intros H.
  do 11 (apply bind_Ok in H as (? & ? & _ & H)).
  apply bind_Ok in H as (item0 & s1 & Hinit & H).
  do 2 (apply bind_Ok in H as (? & ? & _ & H)).
  injection H as <- _. apply TodoItem__init___ok in Hinit.
  apply harmless_set_updated_at, Hinit.
Qed.

Lemma for_each_Forall {A B} (P : B -> Prop) (f : A -> M B) (l : list A)
    (ys : list B) (s s' : state) :
  (forall x s y s', f x s = (Ok y, s') -> P y) ->
  for_each f l s = (Ok ys, s') -> Forall P ys.
Proof.
  intros Hf. revert ys s s'.
  induction l as [|x l IH]; intros ys s s'; cbn [for_each].
  - intros [= <- _]. constructor.
  - intros H. apply bind_Ok in H as (y & s1 & Hy & H).
    apply bind_Ok in H as (ys' & s2 & Hys & H). injection H as <- _.
    constructor; [eapply Hf, Hy | eapply IH, Hys].
Qed.

Lemma foldl_max_le (a : Z) (l : list Z) :
  a <= foldl Z.max a l /\ Forall (fun x => x <= foldl Z.max a l) l.
Proof.
  revert a. induction l as [|x l IH]; intros a; cbn [foldl].
  - split; [lia | constructor].
  - destruct (IH (Z.max a x)) as [H1 H2]. split; [lia|].
    constructor; [lia | exact H2].
Qed.

Lemma ids_below_max_id (l : list TodoItem) : ids_below (max_id l + 1) l.
Proof.
  unfold ids_below. destruct l as [|t l]; [constructor|]. cbn [max_id].
  destruct (foldl_max_le (id t) (map id l)) as [H1 H2].
  constructor; [lia|].
  apply Forall_forall. intros x Hx. rewrite Forall_forall in H2.
  assert (id x <= foldl Z.max (id t) (map id l)); [|lia].
  apply H2. apply list_elem_of_In, in_map, list_elem_of_In, Hx.
Qed.

Lemma _update_next_id_exec (s : state) :
  _update_next_id s =
  (Ok tt, mk_state (todos s) (recount (todos s)) (file s) (writes s) (stdout s)
            (clock s) (ticks s)).
Proof.
  unfold _update_next_id, bind, get_todos, recount.
  destruct (todos s) eqn:E; unfold put_next_id; rewrite E; reflexivity.
Qed.

Lemma ids_below_recount (l : list TodoItem) : ids_below (recount l) l.
Proof. destruct l; [constructor | apply ids_below_max_id]. Qed.

Lemma stable__update_next_id : stable inv _update_next_id.
Proof.
  intros s [H1 _]. rewrite _update_next_id_exec.
  split; cbn; [exact H1 | apply ids_below_recount].
Qed.

Lemma load_todos_unfold (s : state) :
  load_todos s =
  match file s with
  | None => (Ok tt, s)
  | Some Unparseable => (put_todos [] >> put_next_id 1) s
  | Some (Document j) =>
      match iterate j with
      | None => (Raise TypeError, s)
      | Some items =>
          match for_each from_dict items s with
          | (Ok l, s1) => (put_todos l >> _update_next_id) s1
          | (Raise e, s1) =>
              if caught_on_load e then (put_todos [] >> put_next_id 1) s1
              else (Raise e, s1)
          | (OutOfModel, s1) => (OutOfModel, s1)
          end
      end
  end.
Proof.
  unfold load_todos. destruct (file s) as [[|j]|]; try reflexivity.
  unfold try_except, json_load. unfold bind at 1. unfold ret at 1.
  unfold bind at 1. destruct (iterate j) as [items|]; [|reflexivity].
  unfold ret at 1. unfold bind at 1.
  destruct (for_each from_dict items s) as [[l|e|] s1]; try reflexivity.
  unfold bind, put_todos. rewrite _update_next_id_exec. reflexivity.
Qed.

(** However [load_todos] ends, either only the clock has been read, or the
    list is one of well-formed items (empty after a caught exception)
    with the counter recomputed from it. *)
Lemma load_todos_state (s : state) :
  exists n,
    snd (load_todos s) = with_ticks n s
    \/ exists l, Forall item_ok l
         /\ snd (load_todos s) =
            mk_state l (recount l) (file s) (writes s) (stdout s) (clock s) n.
Proof.
  rewrite load_todos_unfold.
  assert (Hput : forall (l : list TodoItem) (s1 : state),
             s1 = with_ticks (ticks s1) s ->
             snd ((put_todos l >> _update_next_id) s1)
             = mk_state l (recount l) (file s) (writes s) (stdout s) (clock s)
                 (ticks s1)).
  { intros l s1 ->. unfold bind, put_todos. rewrite _update_next_id_exec.
    reflexivity. }
  assert (Hempty : forall s1 : state,
             s1 = with_ticks (ticks s1) s ->
             snd ((put_todos [] >> put_next_id 1) s1)
             = mk_state [] (recount []) (file s) (writes s) (stdout s) (clock s)
                 (ticks s1)).
  { intros s1 ->. reflexivity. }
  destruct (file s) as [[|j]|].
  - exists (ticks s). right. exists []. split; [constructor|].
    apply Hempty. destruct s; reflexivity.
  - destruct (iterate j) as [items|].
    2:{ exists (ticks s). left. destruct s; reflexivity. }
    pose proof (stable_for_each (same_data s) from_dict items
                  (stable_from_dict s) s (same_data_refl s)) as Hs.
    destruct (for_each from_dict items s) as [[l|e|] s1] eqn:E;
      cbn [snd] in Hs; unfold same_data in Hs; exists (ticks s1).
    + right. exists l. split; [|apply Hput, Hs].
      eapply for_each_Forall; [|exact E]. intros x s2 y s3. apply from_dict_ok.
    + destruct (caught_on_load e); [|left; exact Hs].
      right. exists []. split; [constructor | apply Hempty, Hs].
    + left. exact Hs.
  - exists (ticks s). left. destruct s; reflexivity.
Qed.

Lemma stable_load_todos : stable inv load_todos.
Proof.
  intros s Hs. destruct (load_todos_state s) as [n [-> | (l & Hl & ->)]].
  - apply (inv_data_only s); auto.
  - split; cbn; [exact Hl | apply ids_below_recount].
Qed.

Lemma stable_run_call (c : call) : stable inv (run_call c).
Proof.
  destruct c; cbn [run_call];
    first [ apply stable_load_todos | apply stable_discard ].
  - apply stable_add_todo.
  - apply stable_remove_todo.
  - apply stable_toggle_completion.
  - apply stable_update_todo.
  - apply stable_bind; [apply stable_get_todos | intros l; apply stable_ret].
  - apply stable_list_todos.
Qed.

Lemma inv_after_init (s0 : state) : inv (snd (TodoManager__init__ s0)).
Proof.
  change (inv (snd ((load_todos >> _update_next_id)
                      (mk_state [] 1 (file s0) (writes s0) (stdout s0)
                         (clock s0) (ticks s0))))).
  apply stable_bind; [apply stable_load_todos | intros _; apply stable__update_next_id|].
  split; constructor.
Qed.

(** Every item of a reachable state is well formed and has an id below the
    counter. *)
Lemma reachable_inv (s : state) : reachable s -> inv s.
Proof.
  induction 1 as [f clk s Hinit | s c _ IH _ | s f _ IH].
  - pose proof (inv_after_init (boot f clk)) as H. rewrite Hinit in H. exact H.
  - apply stable_run_call, IH.
  - apply (inv_data_only s); auto.
Qed.


(** *** Toggling and regeneration *)

Lemma fromisoformat_empty : fromisoformat "" = Unmodelled.
Proof. reflexivity. Qed.


Lemma touch_fields (stamp : string) (t : TodoItem) :
  let t' := touch stamp t in
  id t' = id t /\ title t' = title t /\ description t' = description t
  /\ priority t' = priority t /\ category t' = category t
  /\ due_date t' = due_date t /\ recurring_pattern t' = recurring_pattern t
  /\ created_at t' = created_at t
  /\ completed t' = negb (completed t) /\ updated_at t' = stamp.
Proof. cbn. repeat split. Qed.

Lemma insert_length_other {A} (l : list A) (i : nat) (x : A) :
  length (<[i := x]> l) = length l
  /\ forall j, j <> i -> <[i := x]> l !! j = l !! j.
Proof.
  split; [apply length_insert|]. intros j Hj.
  apply list_lookup_insert_ne. congruence.
Qed.

(** The due date given to a successor is again a date [next_due] reads. *)
Lemma shifted_parses (k : nat) (due due' : string) :
  shifted k due due' -> due' = "" \/ exists d', fromisoformat due' = Parsed d'.
Proof.
  intros [|? d d' Hp Ha _]; [left; reflexivity|]. right.
  destruct (add_days_toordinal k d d' (fromisoformat_valid _ _ Hp) Ha)
    as (_ & Hv & _).
  eexists. apply fromisoformat_strftime, Hv.
Qed.

Lemma priority_order_valid (p : string) :
  p ∈ ["High"; "Medium"; "Low"] -> is_Some (priority_order p).
Proof.
  intros H. apply list_elem_of_In in H. cbn in H.
  destruct H as [<- | [<- | [<- | []]]]; eexists; reflexivity.
Qed.

(** The sort keys of an item stamped by a clock that shows a date and
    time can be computed. *)
Lemma fresh_item_sort_key (sp : bool) (s : state) t d p c du r :
  valid_datetime (clock s (ticks s)) = true ->
  is_Some (sort_key sp (fresh_item s t d p c du r)).
Proof.
  intros H. unfold sort_key, fresh_item, now.
  cbn [created_at priority Nat.add]. rewrite (fromisoformat_isoformat _ H).
  destruct sp; [|eexists; reflexivity].
  destruct (priority_order_valid (normalised p) (normalised_valid p)) as [x ->].
  eexists; reflexivity.
Qed.


(** C2.  When [toggle_completion] finds an item whose pattern is empty or
    which is complete, it returns [True], no item is created or removed,
    every other item is left as it is, and the found item changes in
    [completed] and [updated_at] only.  So the number of items changes
    only if the found item was incomplete with a non-empty pattern. *)
Theorem toggle_completion_no_regeneration (s : state) (todo_id : Z) (i : nat)
    (t : TodoItem) :
  find_id todo_id (todos s) = Some (i, t) ->
  let t' := touch (now s 0) t in
  let s' := snd (toggle_completion todo_id s) in
  (recurring_pattern t = "" \/ completed t = true ->
   fst (toggle_completion todo_id s) = Ok true
   /\ todos s' = <[i := t']> (todos s)
   /\ length (todos s') = length (todos s)
   /\ (forall j, j <> i -> todos s' !! j = todos s !! j)
   /\ todos s' !! i = Some t'
   /\ next_id s' = next_id s
   /\ id t' = id t /\ title t' = title t /\ description t' = description t
   /\ priority t' = priority t /\ category t' = category t
   /\ due_date t' = due_date t /\ recurring_pattern t' = recurring_pattern t
   /\ created_at t' = created_at t
   /\ completed t' = negb (completed t))
  /\ (length (todos s') <> length (todos s) ->
      completed t = false /\ recurring_pattern t <> "").
Proof.
  intros Hf t' s'.
  pose proof (find_id_Some _ _ _ _ Hf) as [Hl _].
  pose proof (toggle_exec s todo_id i t Hf) as Hexec. cbn zeta in Hexec.
  assert (Hplain : recurring_pattern t = "" \/ completed t = true ->
            toggle_completion todo_id s =
            (Ok true,
             saved (mk_state (<[i := t']> (todos s)) (next_id s) (file s)
                      (writes s) (stdout s) (clock s) (S (ticks s))))).
  { intros H. rewrite Hexec.
    change (recurring_pattern (touch (now s 0) t)) with (recurring_pattern t).
    change (completed (touch (now s 0) t)) with (negb (completed t)).
    destruct H as [-> | ->]; [rewrite andb_false_r|]; reflexivity. }
  split.
  - intros H. subst s'. rewrite (Hplain H). cbn [fst snd saved todos next_id].
    destruct (insert_length_other (todos s) i t') as [Hlen Hother].
    repeat split; try assumption.
    apply list_lookup_insert_eq. eapply lookup_lt_Some, Hl.
  - intros Hlen. destruct (completed t) eqn:Hc.
    + exfalso. apply Hlen. subst s'. rewrite Hplain by auto.
      cbn. apply length_insert.
    + split; [reflexivity|]. intros Hr. apply Hlen. subst s'.
      rewrite Hplain by auto. cbn. apply length_insert.
Qed.

(** *** Saving and loading *)

Lemma from_dict_to_dict (t : TodoItem) (s : state) :
  item_ok t -> from_dict (to_dict t) s = (Ok t, with_ticks (2 + ticks s) s).
Proof.
  destruct t as [i ti de co pr ca du re cr up]. intros [Hp Hc]. cbn in Hp, Hc.
  apply str_in_spec in Hp. apply truthy_spec in Hc.
  unfold from_dict, to_dict, TodoItem__init__, bind, subscript, typed, get_as.
  cbn. rewrite Hc. cbn. rewrite Hp. reflexivity.
Qed.

Lemma for_each_from_dict_to_dict (l : list TodoItem) (s : state) :
  Forall item_ok l ->
  for_each from_dict (map to_dict l) s
  = (Ok l, with_ticks (2 * length l + ticks s) s).
Proof.
  intros H. revert s. induction H as [|t l Ht _ IH]; intros s; cbn [map for_each].
  - destruct s; reflexivity.
  - unfold bind at 1. rewrite (from_dict_to_dict t s Ht).
    unfold bind at 1. rewrite IH. unfold ret, with_ticks.
    cbn [todos next_id file writes stdout clock ticks length].
    do 2 f_equal. lia.
Qed.

Lemma load_saved (l : list TodoItem) (s : state) :
  Forall item_ok l -> file s = snapshot l ->
  load_todos s =
  (Ok tt,
   mk_state l (recount l) (file s) (writes s) (stdout s) (clock s)
     (2 * length l + ticks s)).
Proof.
  intros Hl Hf. rewrite load_todos_unfold, Hf. unfold snapshot. cbn [iterate].
  rewrite (for_each_from_dict_to_dict l s Hl).
  unfold bind, put_todos. rewrite _update_next_id_exec. cbn. rewrite Hf.
  reflexivity.
Qed.

(** C6.  For a collection of items as the constructor makes them (a valid
    priority, a non-empty creation stamp), [save_todos] followed by
    [load_todos] gives back the same list of items, equal field by field;
    so does constructing a new manager on the saved file. *)
Theorem save_load_roundtrip (s : state) :
  Forall item_ok (todos s) ->
  exists s1 s2,
    save_todos s = (Ok tt, s1)
    /\ load_todos s1 = (Ok tt, s2)
    /\ todos s2 = todos s
    /\ file s2 = file s1
    /\ forall clk, exists s3,
         TodoManager__init__ (boot (file s1) clk) = (Ok tt, s3)
         /\ todos s3 = todos s.
Proof.
  intros H. exists (saved s). eexists. split; [reflexivity|].
  split; [apply (load_saved (todos s)); [exact H | reflexivity]|].
  split; [reflexivity|]. split; [reflexivity|].
  intros clk. eexists. split; [|shelve].
  unfold TodoManager__init__.
  unfold bind at 1. unfold put_todos at 1. cbv beta iota.
  unfold bind at 1. unfold put_next_id at 1. cbv beta iota.
  unfold bind at 1. rewrite (load_saved (todos s)); [|exact H | reflexivity].
  rewrite _update_next_id_exec. reflexivity.
  Unshelve. reflexivity.
Qed.







(** *** Reachable states *)

(** C9.  In every reachable state of the manager, the priority of every
    item is High, Medium or Low. *)
Theorem reachable_priority_valid (s : state) :
  reachable s ->
  Forall (fun t => priority t ∈ ["High"; "Medium"; "Low"]) (todos s).
Proof.
  intros H. apply reachable_inv in H as [Hitems _].
  eapply Forall_impl; [exact Hitems|]. intros t [Hp _]. exact Hp.
Qed.

(** C10 (as amended).  When the sort key of every selected item can be
    computed, [list_todos] returns the selected items (all of them with
    [show_completed], the incomplete ones without) as a permutation in
    non-increasing key order.  With [show_completed] the manager's own
    list is replaced by that sorted permutation and nothing else changes;
    without it the state, and so the order of the stored list, is exactly
    as before. *)
Theorem list_todos_sorts (sc sp : bool) (s : state) :
  Forall (fun t => is_Some (sort_key sp t)) (selection sc s) ->
  exists sorted,
    list_todos sc sp s =
    (Ok sorted,
     if sc then mk_state sorted (next_id s) (file s) (writes s) (stdout s)
                  (clock s) (ticks s)
     else s)
    /\ Permutation (selection sc s) sorted
    /\ sorted_reverse sp sorted.
Proof.
  intros H. destruct (keys_exec sp (selection sc s) s H) as (keys & Hk & HF).
  eexists. split; [apply (list_todos_exec sc sp s keys Hk)|].
  apply sorted_selection, HF.
Qed.

(** *** The id counter *)

Lemma counter_from_data_only (n0 : Z) : data_only (counter_from n0).
Proof. intros s s' _ Hn H. unfold counter_from in *. rewrite Hn. exact H. Qed.

Lemma mono_add_todo t d p c du r (s : state) :
  next_id s <= next_id (snd (add_todo t d p c du r s)).
Proof.
  destruct (_validate_priority p) eqn:Hp;
    [destruct (_validate_date_format du) eqn:Hd;
     [destruct (_validate_recurring_pattern r) eqn:Hr|]|].
  - rewrite add_todo_accepts by assumption. cbn. lia.
  - destruct (add_todo_rejects t d p c du r s) as [line ->]; [auto | cbn; lia].
  - destruct (add_todo_rejects t d p c du r s) as [line ->]; [auto | cbn; lia].
  - destruct (add_todo_rejects t d p c du r s) as [line ->]; [auto | cbn; lia].
Qed.

Lemma mono_create (t : TodoItem) (s : state) :
  next_id s <= next_id (snd (_create_recurring_task t s)).
Proof.
  rewrite create_exec.
  destruct (pattern_days (recurring_pattern t)) as [k|]; [|cbn; lia].
  destruct (fst (next_due k (due_date t) s)); cbn; lia.
Qed.

Lemma mono_toggle_completion (todo_id : Z) (s : state) :
  next_id s <= next_id (snd (toggle_completion todo_id s)).
Proof.
  destruct (find_id todo_id (todos s)) as [[i t]|] eqn:Hf.
  - rewrite (toggle_exec s todo_id i t Hf). cbn zeta.
    destruct (_ && _); [|cbn; lia].
    match goal with
    | |- context [_create_recurring_task ?t' ?s1] =>
        pose proof (mono_create t' s1) as H;
        destruct (_create_recurring_task t' s1) as [[[]| |] s2]
    end; cbn in *; lia.
  - unfold toggle_completion, bind, get_todos. rewrite Hf. cbn. lia.
Qed.

Lemma mono_update_todo todo_id t d p c du r (s : state) :
  next_id s <= next_id (snd (update_todo todo_id t d p c du r s)).
Proof.
  apply (stable_update_todo_gen (counter_from (next_id s)));
    [apply counter_from_data_only | | unfold counter_from; lia].
  intros i f _ s1 H. exact H.
Qed.

(** Within a session, that is, as long as the list is not loaded again,
    the counter never decreases. *)
Lemma mono_run_call (c : call) (s : state) :
  c <> Load -> next_id s <= next_id (snd (run_call c s)).
Proof.
  intros Hc. destruct c; cbn [run_call]; try congruence;
    unfold discard, bind.
  - pose proof (mono_add_todo title0 description0 priority0 category0 due_date0
                  recurring_pattern0 s) as H.
    destruct (add_todo _ _ _ _ _ _ s) as [[a| |] s1]; exact H.
  - rewrite remove_todo_exec.
    destruct (find_id todo_id (todos s)) as [[i t]|]; cbn; lia.
  - pose proof (mono_toggle_completion todo_id s) as H.
    destruct (toggle_completion todo_id s) as [[a| |] s1]; exact H.
  - pose proof (mono_update_todo todo_id title0 description0 priority0 category0
                  due_date0 recurring_pattern0 s) as H.
    destruct (update_todo _ _ _ _ _ _ _ s) as [[a| |] s1]; exact H.
  - cbn. lia.
  - destruct (list_todos_state show_completed sort_by_priority s) as [_ H].
    destruct (list_todos _ _ s) as [[a| |] s1]; cbn in *; lia.
Qed.

Lemma run_calls_session (cs : list call) (s : state) :
  Forall (fun c => c <> Load) cs -> inv s ->
  next_id s <= next_id (run_calls cs s) /\ inv (run_calls cs s).
Proof.
  intros H. revert s. induction H as [|c cs Hc _ IH]; intros s Hs.
  - split; [cbn; lia | exact Hs].
  - change (run_calls (c :: cs) s) with (run_calls cs (snd (run_call c s))).
    destruct (IH (snd (run_call c s))) as [H1 H2]; [apply stable_run_call, Hs|].
    split; [|exact H2]. pose proof (mono_run_call c s Hc). lia.
Qed.

Lemma init_next_id (s0 s : state) :
  TodoManager__init__ s0 = (Ok tt, s) -> next_id s = recount (todos s).
Proof.
  unfold TodoManager__init__. intros H.
  apply bind_Ok in H as ([] & s1 & _ & H).
  apply bind_Ok in H as ([] & s2 & _ & H).
  apply bind_Ok in H as ([] & s3 & _ & H).
  rewrite _update_next_id_exec in H. injection H as <-. reflexivity.
Qed.

(** What [add_todo] does in the JSON-file manager: the id is the counter,
    which exceeds every id held; the counter is [max + 1] (or 1) when the
    manager has just been constructed; ids grow along a session. *)
Lemma add_todo_ids :
  (forall (s : state) t d p c du r,
      inv s ->
      _validate_priority p = true -> _validate_date_format du = true ->
      _validate_recurring_pattern r = true ->
      exists item s',
        add_todo t d p c du r s = (Ok (Some item), s')
        /\ completed item = false /\ id item = next_id s
        /\ Forall (fun x => id x < id item) (todos s)
        /\ next_id s' = id item + 1
        /\ todos s' = (todos s ++ [item])%list)
  /\ (forall f clk s,
         TodoManager__init__ (boot f clk) = (Ok tt, s) ->
         next_id s = match todos s with [] => 1 | _ => max_id (todos s) + 1 end)
  /\ (forall (s : state) (cs : list call) t d p c du r t' d' p' c' du' r'
             item s1 item' s2,
         inv s -> Forall (fun c => c <> Load) cs ->
         add_todo t d p c du r s = (Ok (Some item), s1) ->
         add_todo t' d' p' c' du' r' (run_calls cs s1) = (Ok (Some item'), s2) ->
         id item < id item').
Proof.
  split; [|split].
  - intros s t d p c du r [_ Hids] Hp Hd Hr.
    eexists _, _. split; [apply add_todo_accepts; assumption|].
    cbn. repeat split; try reflexivity. exact Hids.
  - intros f clk s H. apply (init_next_id _ _ H).
  - intros s cs t d p c du r t' d' p' c' du' r' item s1 item' s2 Hs Hcs H1 H2.
    assert (Hacc : forall t d p c du r (s s' : state) item,
               add_todo t d p c du r s = (Ok (Some item), s') ->
               id item = next_id s /\ next_id s' = next_id s + 1).
    { clear. intros t d p c du r s s' item H.
      destruct (_validate_priority p) eqn:Hp;
        [destruct (_validate_date_format du) eqn:Hd;
         [destruct (_validate_recurring_pattern r) eqn:Hr|]|].
      - rewrite add_todo_accepts in H by assumption.
        injection H as <- <-. split; reflexivity.
      - destruct (add_todo_rejects t d p c du r s) as [line E]; [auto|].
        rewrite E in H. discriminate.
      - destruct (add_todo_rejects t d p c du r s) as [line E]; [auto|].
        rewrite E in H. discriminate.
      - destruct (add_todo_rejects t d p c du r s) as [line E]; [auto|].
        rewrite E in H. discriminate. }
    destruct (Hacc _ _ _ _ _ _ _ _ _ H1) as [Hi1 Hn1].
    destruct (Hacc _ _ _ _ _ _ _ _ _ H2) as [Hi2 _].
    assert (inv s1) as Hs1.
    { pose proof (stable_add_todo t d p c du r s Hs) as H. rewrite H1 in H. exact H. }
    destruct (run_calls_session cs s1 Hcs Hs1) as [Hmono _]. lia.
Qed.

(** *** Deleting *)

Lemma remove_todo_absent (s : state) (todo_id : Z) :
  Forall (fun t => id t <> todo_id) (todos s) ->
  remove_todo todo_id s = (Ok false, s).
Proof.
  intros H%find_id_None. rewrite remove_todo_exec, H. reflexivity.
Qed.

End JsonCliFacts.

(** ** The in-memory manager *)

Section MemoryCliFacts.
Import MemoryCli.

Lemma add_task_accepts (title description : string) (self : TodoCore) :
  truthy (strip title) = true ->
  let task := mk_Task (next_id self) (strip title) (strip description)
                "pending" (clock self (ticks self)) in
  add_task title description self =
  (Returns task,
   mk_TodoCore (tasks self ++ [task]) (next_id self + 1) (clock self)
     (S (ticks self))).
Proof. intros H. unfold add_task. rewrite H. reflexivity. Qed.

Lemma add_task_rejects (title description : string) (self : TodoCore) :
  truthy (strip title) = false ->
  add_task title description self =
  (RaisesValueError "Task title cannot be empty", self).
Proof. intros H. unfold add_task. rewrite H. reflexivity. Qed.

Lemma find_id_Some_memory task_id l i t :
  find_id task_id l = Some (i, t) -> l !! i = Some t /\ id t = task_id.
Proof. unfold find_id. intros H%list_find_Some. tauto. Qed.

Lemma run_call_memory (c : call) (self : TodoCore) :
  ids_below self ->
  ids_below (run_call c self) /\ next_id self <= next_id (run_call c self).
Proof.
  unfold ids_below. intros H. destruct c; cbn [run_call].
  - unfold add_task. destruct (negb (truthy (strip title0))); cbn.
    + split; [exact H | lia].
    + split; [|lia]. apply Forall_app. split.
      * eapply Forall_impl; [exact H|]. cbn. intros; lia.
      * constructor; [cbn; lia | constructor].
  - unfold update_task.
    destruct (find_id task_id (tasks self)) as [[i t]|] eqn:E; cbn.
    + split; [|lia]. apply Forall_insert; [exact H|].
      apply find_id_Some_memory in E as [Hl _].
      rewrite Forall_forall in H. specialize (H t (list_elem_of_lookup_2 _ _ _ Hl)).
      destruct title0, description0; cbn; exact H.
    + split; [exact H | lia].
  - unfold delete_task.
    destruct (find_id task_id (tasks self)) as [[i t]|]; cbn.
    + split; [apply Forall_delete, H | lia].
    + split; [exact H | lia].
  - unfold mark_task_completed.
    destruct (find_id task_id (tasks self)) as [[i t]|] eqn:E; cbn.
    + split; [|lia]. apply Forall_insert; [exact H|].
      apply find_id_Some_memory in E as [Hl _].
      rewrite Forall_forall in H. apply (H t (list_elem_of_lookup_2 _ _ _ Hl)).
    + split; [exact H | lia].
Qed.

Lemma run_calls_memory (cs : list call) (self : TodoCore) :
  ids_below self ->
  ids_below (run_calls cs self) /\ next_id self <= next_id (run_calls cs self).
Proof.
  revert self. induction cs as [|c cs IH]; intros self H.
  - split; [exact H | cbn; lia].
  - change (run_calls (c :: cs) self) with (run_calls cs (run_call c self)).
    destruct (run_call_memory c self H) as [H1 H2].
    destruct (IH _ H1) as [H3 H4]. split; [exact H3 | lia].
Qed.

Lemma init_memory (clk : nat -> datetime) : ids_below (TodoCore__init__ clk).
Proof. constructor. Qed.

(** What [add_task] does in the in-memory manager. *)
Lemma add_task_ids :
  (forall (self : TodoCore) title description,
      ids_below self -> truthy (strip title) = true ->
      exists task self',
        add_task title description self = (Returns task, self')
        /\ status task = "pending" /\ id task = next_id self
        /\ Forall (fun x => id x < id task) (tasks self)
        /\ next_id self' = id task + 1
        /\ tasks self' = (tasks self ++ [task])%list)
  /\ (forall clk, next_id (TodoCore__init__ clk) = 1
                  /\ tasks (TodoCore__init__ clk) = [])
  /\ (forall (self : TodoCore) (cs : list call) t d t' d' task s1 task' s2,
         ids_below self ->
         add_task t d self = (Returns task, s1) ->
         add_task t' d' (run_calls cs s1) = (Returns task', s2) ->
         id task < id task').
Proof.
  split; [|split].
  - intros self title description H Ht. eexists _, _.
    split; [apply add_task_accepts, Ht|]. cbn. repeat split. exact H.
  - intros clk. split; reflexivity.
  - intros self cs t d t' d' task s1 task' s2 H H1 H2.
    assert (Hacc : forall t d (s s' : TodoCore) task,
               add_task t d s = (Returns task, s') ->
               id task = next_id s /\ s' = run_call (AddTask t d) s
               /\ next_id s' = next_id s + 1).
    { clear. intros t d s s' task H. cbn [run_call].
      destruct (truthy (strip t)) eqn:E.
      - rewrite add_task_accepts in H |- * by exact E.
        injection H as <- <-. repeat split.
      - rewrite add_task_rejects in H by exact E. discriminate. }
    destruct (Hacc _ _ _ _ _ H1) as (Hi1 & -> & Hn1).
    destruct (Hacc _ _ _ _ _ H2) as (Hi2 & _ & _).
    destruct (run_call_memory (AddTask t d) self H) as [H3 _].
    destruct (run_calls_memory cs _ H3) as [_ H4]. lia.
Qed.

Lemma delete_task_absent (self : TodoCore) (task_id : Z) :
  Forall (fun t => id t <> task_id) (tasks self) ->
  delete_task task_id self = (false, self).
Proof.
  intros H. unfold delete_task, find_id.
  rewrite (proj2 (list_find_None (fun t => id t = task_id) (tasks self)) H).
  reflexivity.
Qed.

End MemoryCliFacts.

(** ** The web backend *)

Section WebFacts.
Import Web.

Lemma is_user_spec (current_user : User) (user_id : Z) :
  is_user current_user user_id = true <-> u_id current_user = Some user_id.
Proof. unfold is_user. apply bool_decide_eq_true. Qed.

Lemma is_user_false (current_user : User) (user_id : Z) :
  u_id current_user <> Some user_id -> is_user current_user user_id = false.
Proof. intros H. unfold is_user. apply bool_decide_eq_false, H. Qed.

(** A caller who is not the path user gets the authorization error of the
    route, and the session is untouched: no statement was sent. *)
Lemma route_forbidden (r : request) (current_user : User) (session : Session) :
  u_id current_user <> Some (path_user r) ->
  route r current_user session
  = (HTTPException 403 (forbidden_detail r), session).
Proof.
  intros H. destruct r; cbn [route path_user] in *;
    unfold create_new_task, read_tasks, read_task, update_existing_task,
      delete_existing_task, toggle_task_complete;
    rewrite (is_user_false _ _ H); reflexivity.
Qed.

Lemma missing_spec (task_id user_id : Z) (session : Session) :
  missing task_id user_id session <->
  fst (get_task_by_id task_id user_id session) = None.
Proof. unfold missing, get_task_by_id. cbn. symmetry. apply list_find_None. Qed.

(** The path user gets 404 exactly from a route that names a task, when
    no row has that id and owner; never from the other two routes. *)
Lemma route_not_found (r : request) (current_user : User) (session : Session) :
  u_id current_user = Some (path_user r) ->
  (exists detail, fst (route r current_user session) = HTTPException 404 detail)
  <-> exists task_id, path_task r = Some task_id
                      /\ missing task_id (path_user r) session.
Proof.
  intros H%is_user_spec.
  destruct r; cbn [route path_user path_task] in *;
    unfold create_new_task, read_tasks, read_task, update_existing_task,
      delete_existing_task, toggle_task_complete, update_task, delete_task,
      toggle_task_completion;
    rewrite H; cbn [negb].
  1,2: split; [intros [d Hd] | intros (t & Ht & _); discriminate].
  1: destruct (create_task _ _ _); discriminate.
  1: destruct (get_tasks_by_user _ _ _); discriminate.
  all: setoid_rewrite missing_spec; unfold get_task_by_id; cbn [fst];
    destruct (list_find _ _) as [[i t]|] eqn:E; cbn.
  all: split;
    [ intros [d Hd];
      first [ discriminate | exists task_id; split; [reflexivity | exact E] ]
    | intros (t' & [= <-] & Ht);
      first [ congruence | eexists; reflexivity ] ].
Qed.

Lemma delete_task_missing (task_id user_id : Z) (session : Session) :
  missing task_id user_id session ->
  delete_task task_id user_id session = (false, exec_count session).
Proof.
  intros H%missing_spec. unfold delete_task.
  unfold get_task_by_id in *. cbn [fst] in H. rewrite H. reflexivity.
Qed.

End WebFacts.

(** ** Concrete sessions, and the statements that span the three programs *)

Section Sessions.
Import JsonCli.

Lemma started_reachable : reachable Demo.started.
Proof. apply (reachable_init None Demo.clock). reflexivity. Qed.

Lemma with_daily_reachable : reachable Demo.with_daily.
Proof.
  apply (reachable_call Demo.started Demo.add_daily);
    [apply started_reachable | exact I].
Qed.

Lemma with_two_reachable : reachable Demo.with_two.
Proof.
  apply (reachable_call Demo.with_daily Demo.add_plain);
    [apply with_daily_reachable | exact I].
Qed.

Lemma after_removal_reachable : reachable Demo.after_removal.
Proof.
  apply (reachable_call Demo.with_two (Remove 2));
    [apply with_two_reachable | exact I].
Qed.

Lemma with_bad_date_reachable : reachable Demo.with_bad_date.
Proof.
  apply (reachable_call Demo.started
           (Add "Pay rent" "" "Medium" "" "2024-02-30" "Monthly"));
    [apply started_reachable | exact I].
Qed.

Lemma from_yearly_file_reachable : reachable Demo.from_yearly_file.
Proof. apply (reachable_init Demo.yearly_file Demo.clock). reflexivity. Qed.



(** A due date that [add_todo] accepts and [datetime.fromisoformat]
    rejects: toggling raises [ValueError], the item stays completed in
    memory and nothing is saved. *)
Lemma toggle_completion_invalid_date :
  reachable Demo.with_bad_date
  /\ fst (toggle_completion 1 Demo.with_bad_date) = Raise ValueError
  /\ (completed <$> todos (snd (toggle_completion 1 Demo.with_bad_date)) !! 0%nat)
     = Some true
  /\ (completed <$> todos Demo.with_bad_date !! 0%nat) = Some false
  /\ writes (snd (toggle_completion 1 Demo.with_bad_date))
     = writes Demo.with_bad_date.
Proof. split; [apply with_bad_date_reachable|]. repeat split; reflexivity. Qed.

(** Toggling the task without recurrence changes that task only. *)
Lemma toggle_completion_no_regeneration_witness :
  fst (toggle_completion 2 Demo.with_two) = Ok true
  /\ length (todos (snd (toggle_completion 2 Demo.with_two))) = 2%nat
  /\ todos (snd (toggle_completion 2 Demo.with_two)) !! 0%nat
     = todos Demo.with_two !! 0%nat.
Proof.
  edestruct (toggle_completion_no_regeneration Demo.with_two 2 1) as [H _].
  - vm_compute. reflexivity.
  - destruct H as (H1 & _ & H2 & H3 & _); [left; reflexivity|].
    split; [exact H1|]. split; [exact H2|]. apply H3. discriminate.
Defined.

End Sessions.

Section MoreSessions.
Import JsonCli.

(** C3 (the code departs from it).  [update_todo] is called on the daily
    task with a new title and a due date that fails validation: it
    prints the error and returns [False], the file is not written, but
    the title of the item in memory has already been replaced, and the
    next save writes it. *)
Theorem update_todo_rejected_after_assignment :
  let call := update_todo 1 (Some "Repot plants") None None None
                (Some "tomorrow") None in
  let s' := snd (call Demo.with_daily) in
  _validate_date_format "tomorrow" = false
  /\ fst (call Demo.with_daily) = Ok false
  /\ stdout s' = ["Invalid date format: tomorrow. Expected format: YYYY-MM-DD"]
  /\ file s' = file Demo.with_daily /\ writes s' = writes Demo.with_daily
  /\ (title <$> todos Demo.with_daily !! 0%nat) = Some "Water plants"
  /\ (title <$> todos s' !! 0%nat) = Some "Repot plants"
  /\ file (snd (toggle_completion 1 s'))
     = snapshot (todos (snd (toggle_completion 1 s')))
  /\ (title <$> todos (snd (toggle_completion 1 s')) !! 0%nat)
     = Some "Repot plants".
Proof. repeat split; reflexivity. Qed.

(** After adding two tasks and removing the second, the next id is 3,
    not the greatest id held plus one. *)
Lemma add_todo_id_after_removal :
  reachable Demo.after_removal
  /\ map id (todos Demo.after_removal) = [1]
  /\ max_id (todos Demo.after_removal) + 1 = 2
  /\ exists item s',
       add_todo "Book flights" "" "Low" "" "" "" Demo.after_removal
       = (Ok (Some item), s')
       /\ id item = 3.
Proof.
  split; [apply after_removal_reachable|]. split; [reflexivity|].
  split; [reflexivity|]. eexists _, _. split; reflexivity.
Qed.

(** Saving the two tasks and loading them again. *)
Lemma save_load_roundtrip_witness :
  exists s1 s2,
    save_todos Demo.with_two = (Ok tt, s1)
    /\ load_todos s1 = (Ok tt, s2)
    /\ todos s2 = todos Demo.with_two
    /\ length (todos s2) = 2%nat.
Proof.
  destruct (save_load_roundtrip Demo.with_two) as (s1 & s2 & H1 & H2 & H3 & _).
  - apply reachable_inv, with_two_reachable.
  - exists s1, s2. repeat split; try assumption. rewrite H3. reflexivity.
Defined.



(** A file that parses but whose list holds something else than
    dictionaries: the [TypeError] of [from_dict] is not caught. *)
Lemma load_todos_not_a_dictionary :
  load_todos (boot (Some (Document (JList [JInt 1]))) Demo.clock)
  = (Raise TypeError, boot (Some (Document (JList [JInt 1]))) Demo.clock).
Proof. reflexivity. Qed.

(** The priority [Urgent] of the hand-written file is stored as
    [Medium]. *)
Lemma reachable_priority_valid_witness :
  reachable Demo.from_yearly_file
  /\ Forall (fun t => priority t ∈ ["High"; "Medium"; "Low"])
       (todos Demo.from_yearly_file).
Proof.
  split; [apply from_yearly_file_reachable|].
  apply reachable_priority_valid, from_yearly_file_reachable.
Defined.

(** Listing all tasks, newest first, reorders the stored list. *)
Lemma list_todos_sorts_witness :
  exists sorted,
    fst (list_todos true false Demo.with_two) = Ok sorted
    /\ todos (snd (list_todos true false Demo.with_two)) = sorted
    /\ Permutation (todos Demo.with_two) sorted
    /\ sorted_reverse false sorted.
Proof.
  destruct (list_todos_sorts true false Demo.with_two) as (sorted & H1 & H2 & H3).
  - repeat (constructor; [eexists; vm_compute; reflexivity|]). constructor.
  - exists sorted. rewrite H1. repeat split; assumption.
Defined.

Lemma sorted_reverse_head (sp : bool) (a b : TodoItem) (l : list TodoItem)
    (ka kb : list Z) :
  sorted_reverse sp (a :: b :: l) ->
  sort_key sp a = Some ka -> sort_key sp b = Some kb ->
  lex_ltb ka kb = false.
Proof.
  unfold sorted_reverse. intros H Ha Hb.
  apply StronglySorted_inv in H as [_ H].
  apply Forall_inv in H. apply H; assumption.
Qed.

(** Listing the pending tasks only: the stored list is not reordered,
    and stays oldest first. *)
Lemma list_todos_pending_leaves_order :
  map id (todos Demo.with_two) = [1; 2]
  /\ (exists sorted,
        list_todos false false Demo.with_two = (Ok sorted, Demo.with_two)
        /\ map id sorted = [2; 1])
  /\ ~ sorted_reverse false (todos (snd (list_todos false false Demo.with_two))).
Proof.
  split; [reflexivity|]. split; [eexists; split; reflexivity|].
  intros H.
  eapply (sorted_reverse_head false _ _ []) in H; [|reflexivity..].
  vm_compute in H. discriminate.
Qed.

End MoreSessions.

(** C4 (as amended).  In both command-line managers a successful add
    creates an item that is not completed (status [pending]) whose id is
    the manager's counter; the counter exceeds every id held, is
    [max + 1] (1 for an empty list) when the JSON manager has just been
    constructed and 1 when the in-memory manager has, and is one more
    after the add; along a session any later add gets a greater id. *)
Theorem add_assigns_counter :
  ((forall (s : JsonCli.state) t d p c du r,
       JsonCli.inv s ->
       JsonCli._validate_priority p = true ->
       JsonCli._validate_date_format du = true ->
       JsonCli._validate_recurring_pattern r = true ->
       exists item s',
         JsonCli.add_todo t d p c du r s = (JsonCli.Ok (Some item), s')
         /\ JsonCli.completed item = false
         /\ JsonCli.id item = JsonCli.next_id s
         /\ Forall (fun x => JsonCli.id x < JsonCli.id item) (JsonCli.todos s)
         /\ JsonCli.next_id s' = JsonCli.id item + 1
         /\ JsonCli.todos s' = (JsonCli.todos s ++ [item])%list)
   /\ (forall f clk s,
          JsonCli.TodoManager__init__ (JsonCli.boot f clk) = (JsonCli.Ok tt, s) ->
          JsonCli.next_id s =
          match JsonCli.todos s with
          | [] => 1
          | _ => JsonCli.max_id (JsonCli.todos s) + 1
          end)
   /\ (forall (s : JsonCli.state) (cs : list JsonCli.call)
              t d p c du r t' d' p' c' du' r' item s1 item' s2,
          JsonCli.inv s -> Forall (fun c => c <> JsonCli.Load) cs ->
          JsonCli.add_todo t d p c du r s = (JsonCli.Ok (Some item), s1) ->
          JsonCli.add_todo t' d' p' c' du' r' (JsonCli.run_calls cs s1)
          = (JsonCli.Ok (Some item'), s2) ->
          JsonCli.id item < JsonCli.id item'))
  /\ ((forall (self : MemoryCli.TodoCore) title description,
          MemoryCli.ids_below self -> truthy (strip title) = true ->
          exists task self',
            MemoryCli.add_task title description self
            = (MemoryCli.Returns task, self')
            /\ MemoryCli.status task = "pending"
            /\ MemoryCli.id task = MemoryCli.next_id self
            /\ Forall (fun x => MemoryCli.id x < MemoryCli.id task)
                 (MemoryCli.tasks self)
            /\ MemoryCli.next_id self' = MemoryCli.id task + 1
            /\ MemoryCli.tasks self' = (MemoryCli.tasks self ++ [task])%list)
      /\ (forall clk,
             MemoryCli.next_id (MemoryCli.TodoCore__init__ clk) = 1
             /\ MemoryCli.tasks (MemoryCli.TodoCore__init__ clk) = [])
      /\ (forall (self : MemoryCli.TodoCore) (cs : list MemoryCli.call)
                 t d t' d' task s1 task' s2,
             MemoryCli.ids_below self ->
             MemoryCli.add_task t d self = (MemoryCli.Returns task, s1) ->
             MemoryCli.add_task t' d' (MemoryCli.run_calls cs s1)
             = (MemoryCli.Returns task', s2) ->
             MemoryCli.id task < MemoryCli.id task')).
Proof. split; [exact add_todo_ids | exact add_task_ids]. Qed.

(** Adding to the manager that holds the daily task, and to the in-memory
    manager that holds two tasks. *)
Lemma add_assigns_counter_witness :
  (exists item s',
      JsonCli.add_todo "File taxes" "" "Low" "" "" "" Demo.with_daily
      = (JsonCli.Ok (Some item), s')
      /\ JsonCli.completed item = false /\ JsonCli.id item = 2)
  /\ (exists task self',
         MemoryCli.add_task "Sweep" "" Demo.memory_two
         = (MemoryCli.Returns task, self')
         /\ MemoryCli.status task = "pending" /\ MemoryCli.id task = 3).
Proof.
  destruct add_assigns_counter as [[H1 _] [H2 _]]. split.
  - destruct (H1 Demo.with_daily "File taxes" "" "Low" "" "" "")
      as (item & s' & Ha & Hb & Hc & _).
    + apply reachable_inv, with_daily_reachable.
    + reflexivity.
    + reflexivity.
    + reflexivity.
    + exists item, s'. repeat split; assumption.
  - destruct (H2 Demo.memory_two "Sweep" "") as (task & self' & Ha & Hb & Hc & _).
    + repeat (constructor; [vm_compute; reflexivity|]). constructor.
    + reflexivity.
    + exists task, self'. repeat split; assumption.
Defined.

(** C5.  On each of the six task routes, a caller whose id is not the
    path user id gets HTTP 403 with the session untouched, so no lookup
    has been made, and the response is the same whatever the database
    holds; HTTP 404 is raised only to the path user, on a route that
    names a task, when no row has that id and owner, and is raised
    then. *)
Theorem routes_check_owner_first (r : Web.request) (current_user : Web.User) :
  (Web.u_id current_user <> Some (Web.path_user r) ->
   (forall session,
       Web.route r current_user session
       = (Web.HTTPException 403 (Web.forbidden_detail r), session))
   /\ forall session1 session2,
       fst (Web.route r current_user session1)
       = fst (Web.route r current_user session2))
  /\ (forall session detail,
         fst (Web.route r current_user session) = Web.HTTPException 404 detail ->
         Web.u_id current_user = Some (Web.path_user r)
         /\ exists task_id,
              Web.path_task r = Some task_id
              /\ Web.missing task_id (Web.path_user r) session)
  /\ (Web.u_id current_user = Some (Web.path_user r) ->
      forall session task_id,
        Web.path_task r = Some task_id ->
        Web.missing task_id (Web.path_user r) session ->
        exists detail,
          fst (Web.route r current_user session) = Web.HTTPException 404 detail).
Proof.
  split; [|split].
  - intros H. split.
    + intros session. apply route_forbidden, H.
    + intros s1 s2. rewrite !route_forbidden by exact H. reflexivity.
  - intros session detail H.
    destruct (decide (Web.u_id current_user = Some (Web.path_user r))) as [Hu|Hu].
    + split; [exact Hu|]. apply (route_not_found r current_user session Hu).
      exists detail. exact H.
    + rewrite route_forbidden in H by exact Hu. discriminate.
  - intros Hu session task_id Hp Hm.
    apply (route_not_found r current_user session Hu).
    exists task_id. split; assumption.
Qed.

(** Bob asks for, and tries to delete, task 5 of Alice and a task that
    does not exist: the answers are the same; Alice asking for the
    missing task gets 404. *)
Lemma routes_check_owner_first_witness :
  Web.route (Web.GetTask 1 5) Demo.bob Demo.table
  = (Web.HTTPException 403 "Not authorized to access tasks for this user",
     Demo.table)
  /\ fst (Web.route (Web.DeleteTask 1 5) Demo.bob Demo.table)
     = fst (Web.route (Web.DeleteTask 1 5) Demo.bob
              (Web.mk_Session [] 6 0 Demo.clock 1))
  /\ exists detail,
       fst (Web.route (Web.GetTask 1 9) Demo.alice Demo.table)
       = Web.HTTPException 404 detail.
Proof.
  split; [|split].
  - destruct (routes_check_owner_first (Web.GetTask 1 5) Demo.bob) as [H _].
    apply H. discriminate.
  - destruct (routes_check_owner_first (Web.DeleteTask 1 5) Demo.bob) as [H _].
    apply H. discriminate.
  - destruct (routes_check_owner_first (Web.GetTask 1 9) Demo.alice) as (_ & _ & H).
    apply (H eq_refl Demo.table 9); [reflexivity|].
    repeat (constructor; [vm_compute; intros [? ?]; discriminate|]). constructor.
Defined.

(** C8.  Deleting an id that the collection does not hold returns
    [False] and leaves the whole state as it was in the two command-line
    managers, so also the storage file and the count of its writes; in
    the web backend the service returns [False], the route raises HTTP
    404 for the path user, and the rows are as before. *)
Theorem delete_absent_unchanged :
  (forall (s : JsonCli.state) (todo_id : Z),
      Forall (fun t => JsonCli.id t <> todo_id) (JsonCli.todos s) ->
      JsonCli.remove_todo todo_id s = (JsonCli.Ok false, s))
  /\ (forall (self : MemoryCli.TodoCore) (task_id : Z),
         Forall (fun t => MemoryCli.id t <> task_id) (MemoryCli.tasks self) ->
         MemoryCli.delete_task task_id self = (false, self))
  /\ (forall (session : Web.Session) (current_user : Web.User)
             (user_id task_id : Z),
         Web.missing task_id user_id session ->
         Web.delete_task task_id user_id session
         = (false, Web.exec_count session)
         /\ (Web.u_id current_user = Some user_id ->
             Web.delete_existing_task user_id task_id current_user session
             = (Web.HTTPException 404 "Task not found", Web.exec_count session))
         /\ Web.rows (Web.exec_count session) = Web.rows session).
Proof.
  split; [|split].
  - intros s todo_id H. apply remove_todo_absent, H.
  - intros self task_id H. apply delete_task_absent, H.
  - intros session current_user user_id task_id H.
    split; [apply delete_task_missing, H|]. split; [|reflexivity].
    intros Hu%is_user_spec. unfold Web.delete_existing_task.
    rewrite Hu, (delete_task_missing _ _ _ H). reflexivity.
Qed.

(** Deleting id 9, which nobody holds. *)
Lemma delete_absent_unchanged_witness :
  JsonCli.remove_todo 9 Demo.with_two = (JsonCli.Ok false, Demo.with_two)
  /\ MemoryCli.delete_task 9 Demo.memory_two = (false, Demo.memory_two)
  /\ Web.delete_existing_task 1 9 Demo.alice Demo.table
     = (Web.HTTPException 404 "Task not found", Web.exec_count Demo.table).
Proof.
  destruct delete_absent_unchanged as (H1 & H2 & H3). split; [|split].
  - apply H1. repeat (constructor; [vm_compute; discriminate|]). constructor.
  - apply H2. repeat (constructor; [vm_compute; discriminate|]). constructor.
  - apply (H3 Demo.table Demo.alice 1 9); [|reflexivity].
    repeat (constructor; [vm_compute; intros [? ?]; discriminate|]). constructor.
Defined.

(** * Further properties *)

(** ** Lists *)

Section MoreListFacts.
Context {A B : Type}.

Lemma NoDup_map_delete (f : A -> B) (i : nat) (l : list A) :
  NoDup (map f l) -> NoDup (map f (delete i l)).
Proof.
  revert i. induction l as [|x l IH]; intros [|i]; cbn; intros H;
    try exact H.
  - apply NoDup_cons in H as [_ H]. exact H.
  - apply NoDup_cons in H as [Hx H]. apply NoDup_cons. split; [|apply IH, H].
    intros Hin. apply Hx.
    apply list_elem_of_In, in_map_iff in Hin as (y & Hy & Hin).
    apply list_elem_of_In, in_map_iff. exists y. split; [exact Hy|].
    apply list_elem_of_In. apply list_elem_of_In in Hin.
    eapply elem_of_sublist; [exact Hin|]. apply sublist_delete.
Qed.

(** With distinct keys, deleting an element removes its key. *)
Lemma NoDup_map_delete_ne (f : A -> B) (l : list A) (i : nat) (t : A) :
  NoDup (map f l) -> l !! i = Some t ->
  Forall (fun x => f x <> f t) (delete i l).
Proof.
  intros Hnd Hl. rewrite delete_take_drop.
  rewrite <- (take_drop_middle l i t Hl) in Hnd.
  rewrite map_app in Hnd. cbn [map] in Hnd.
  apply NoDup_app in Hnd as (_ & Hleft & Hright).
  apply NoDup_cons in Hright as [Hright _].
  apply Forall_forall. intros x Hx Heq.
  apply elem_of_app in Hx as [Hx|Hx].
  - apply (Hleft (f t)); [|left].
    rewrite <- Heq. apply list_elem_of_In, in_map, list_elem_of_In, Hx.
  - apply Hright. rewrite <- Heq.
    apply list_elem_of_In, in_map, list_elem_of_In, Hx.
Qed.

Lemma filter_insert_out (P : A -> Prop) `{!forall x, Decision (P x)}
    (l : list A) (i : nat) (x y : A) :
  l !! i = Some x -> ~ P x -> ~ P y -> filter P (<[i:=y]> l) = filter P l.
Proof.
  intros Hl Hx Hy. rewrite insert_take_drop by (eapply lookup_lt_Some, Hl).
  rewrite <- (take_drop_middle l i x Hl) at 3.
  rewrite !filter_app, !filter_cons.
  destruct (decide (P y)); [contradiction|].
  destruct (decide (P x)); [contradiction|]. reflexivity.
Qed.

Lemma filter_delete_out (P : A -> Prop) `{!forall x, Decision (P x)}
    (l : list A) (i : nat) (x : A) :
  l !! i = Some x -> ~ P x -> filter P (delete i l) = filter P l.
Proof.
  intros Hl Hx. rewrite delete_take_drop.
  rewrite <- (take_drop_middle l i x Hl) at 3.
  rewrite !filter_app, !filter_cons.
  destruct (decide (P x)); [contradiction|]. reflexivity.
Qed.

(** Replacing the first match by another match leaves it the first. *)
Lemma list_find_insert_same (P : A -> Prop) `{!forall x, Decision (P x)}
    (l : list A) (i : nat) (x y : A) :
  list_find P l = Some (i, x) -> P y ->
  list_find P (<[i:=y]> l) = Some (i, y).
Proof.
  intros (Hl & _ & Hbefore)%list_find_Some Hy. apply list_find_Some.
  split; [|split].
  - apply list_lookup_insert_eq, (lookup_lt_Some _ _ _ Hl).
  - exact Hy.
  - intros j z Hj Hlt. rewrite list_lookup_insert_ne in Hj by lia.
    apply (Hbefore j z Hj Hlt).
Qed.

Lemma list_find_snoc_new (P : A -> Prop) `{!forall x, Decision (P x)}
    (l : list A) (y : A) :
  Forall (fun x => ~ P x) l -> P y ->
  list_find P (l ++ [y]) = Some (length l, y).
Proof.
  intros Hl Hy. apply list_find_Some. split; [|split].
  - rewrite lookup_app_r by lia.
    replace (length l - length l)%nat with 0%nat by lia. reflexivity.
  - exact Hy.
  - intros j z Hj Hlt. rewrite lookup_app_l in Hj by lia.
    rewrite Forall_forall in Hl. apply Hl, (list_elem_of_lookup_2 _ _ _ Hj).
Qed.

Lemma StronglySorted_insert_same (R : A -> A -> Prop) (l : list A)
    (i : nat) (x y : A) :
  l !! i = Some x ->
  (forall z, R x z -> R y z) -> (forall z, R z x -> R z y) ->
  StronglySorted R l -> StronglySorted R (<[i:=y]> l).
Proof.
  intros Hl H1 H2 Hs. revert i Hl.
  induction Hs as [|a l Hs IH Ha]; intros [|i] Hl; try discriminate.
  - injection Hl as ->. cbn. constructor; [exact Hs|].
    eapply Forall_impl; [exact Ha|]. exact H1.
  - cbn in Hl |- *. constructor; [apply IH, Hl|].
    apply Forall_insert; [exact Ha|].
    rewrite Forall_forall in Ha. apply H2, Ha, (list_elem_of_lookup_2 _ _ _ Hl).
Qed.

Lemma StronglySorted_delete (R : A -> A -> Prop) (l : list A) (i : nat) :
  StronglySorted R l -> StronglySorted R (delete i l).
Proof.
  intros Hs. revert i. induction Hs as [|a l Hs IH Ha]; intros [|i]; cbn.
  - constructor.
  - constructor.
  - exact Hs.
  - constructor; [apply IH | apply Forall_delete, Ha].
Qed.

Lemma StronglySorted_snoc (R : A -> A -> Prop) (l : list A) (x : A) :
  StronglySorted R l -> Forall (fun a => R a x) l ->
  StronglySorted R (l ++ [x]).
Proof.
  induction 1 as [|a l Hs IH Ha]; intros Hx; cbn.
  - repeat constructor.
  - apply Forall_cons in Hx as [Hax Hx]. constructor; [apply IH, Hx|].
    apply Forall_app. split; [exact Ha | constructor; [exact Hax | constructor]].
Qed.

(** *** Sorting a list by a key *)

(** A list already in non-increasing order is left as it is. *)
Lemma sort_reverse_sorted_id (l : list (list Z * A)) :
  StronglySorted not_below l -> sort_reverse l = l.
Proof.
  induction 1 as [|x l Hs IH Hx]; [reflexivity|].
  cbn [sort_reverse foldr]. fold (sort_reverse l). rewrite IH.
  destruct l as [|y l]; [reflexivity|]. cbn [insert_reverse].
  apply Forall_inv in Hx. unfold not_below in Hx. rewrite Hx. reflexivity.
Qed.

(** An element below all others goes last. *)
Lemma insert_reverse_last (x : list Z * A) (l : list (list Z * A)) :
  Forall (fun y => lex_ltb (fst x) (fst y) = true) l ->
  insert_reverse x l = (l ++ [x])%list.
Proof.
  induction 1 as [|y l Hy _ IH]; cbn [insert_reverse]; [reflexivity|].
  rewrite Hy, IH. reflexivity.
Qed.

Lemma map_snd_key (key : A -> list Z) (l : list A) :
  map snd (map (fun t => (key t, t)) l) = l.
Proof. induction l as [|t l IH]; cbn; [reflexivity | f_equal; exact IH]. Qed.

(** [sorted(l, key=key, reverse=True)]: the same elements, none before
    one of a greater key. *)
Lemma sorted_by_key (key : A -> list Z) (l : list A) :
  let sorted := map snd (sort_reverse (map (fun t => (key t, t)) l)) in
  Permutation l sorted
  /\ StronglySorted (fun a b => lex_ltb (key a) (key b) = false) sorted.
Proof.
  cbn zeta. split.
  - rewrite sort_reverse_perm, map_snd_key. reflexivity.
  - assert (Forall (fun p => fst p = key (snd p))
              (sort_reverse (map (fun t => (key t, t)) l))) as HF.
    { eapply Permutation_Forall; [symmetry; apply sort_reverse_perm|].
      apply Forall_forall. intros p Hp%list_elem_of_In.
      apply in_map_iff in Hp as (t & <- & _). reflexivity. }
    pose proof (sort_reverse_sorted (map (fun t => (key t, t)) l)) as Hs.
    induction Hs as [|p ps Hs IH Hp]; cbn [map]; [constructor|].
    apply Forall_cons in HF as [Hk HF]. constructor; [apply IH, HF|].
    rewrite Forall_forall in Hp, HF. apply Forall_forall.
    intros b Hb%list_elem_of_In. apply in_map_iff in Hb as (q & <- & Hq).
    apply list_elem_of_In in Hq.
    rewrite <- Hk, <- (HF q Hq). apply Hp, Hq.
Qed.

(** Keys that rise along the list: the sort returns the reverse. *)
Lemma sort_reverse_rising (key : A -> list Z) (l : list A) :
  StronglySorted (fun a b => lex_ltb (key a) (key b) = true) l ->
  map snd (sort_reverse (map (fun t => (key t, t)) l)) = rev l.
Proof.
  intros H.
  assert (sort_reverse (map (fun t => (key t, t)) l)
          = rev (map (fun t => (key t, t)) l)) as ->.
  { induction H as [|t l Hs IH Ht]; [reflexivity|].
    cbn [map sort_reverse foldr rev].
    fold (sort_reverse (map (fun t => (key t, t)) l)).
    rewrite IH. apply insert_reverse_last.
    apply Forall_forall. intros y Hy%list_elem_of_In.
    apply in_rev, in_map_iff in Hy as (b & <- & Hb).
    rewrite Forall_forall in Ht. apply Ht, list_elem_of_In, Hb. }
  rewrite map_rev, map_snd_key. reflexivity.
Qed.

End MoreListFacts.

Section JsonCliMoreFacts.
Import JsonCli JsonCliMore.

(** X1.  When one of the three checks of [add_todo] fails, the call
    returns [None] and prints the message of the first failing check
    (priority, then date, then pattern); no item is created, the counter,
    the file and the clock are left alone. *)
Theorem add_todo_invalid_unchanged (title description priority category
    due_date recurring_pattern : string) (s : state) :
  _validate_priority priority = false
  \/ _validate_date_format due_date = false
  \/ _validate_recurring_pattern recurring_pattern = false ->
  add_todo title description priority category due_date recurring_pattern s
  = (Ok None, printed (first_error priority due_date recurring_pattern) s).
Proof.
  intros H. unfold add_todo, first_error.
  destruct (_validate_priority priority); cbn [negb]; [|reflexivity].
  destruct (_validate_date_format due_date); cbn [negb]; [|reflexivity].
  destruct (_validate_recurring_pattern recurring_pattern); cbn [negb];
    [|reflexivity].
  destruct H as [H|[H|H]]; discriminate.
Qed.

Ltac file_facts :=
  unfold saved_now, file_untouched, saved, appended, printed;
  cbn [fst snd succeeded some todos next_id file writes stdout clock ticks];
  split; first [reflexivity | lia].

Lemma quiet_setattr (i : nat) (f : TodoItem -> TodoItem) : quiet (setattr i f).
Proof. intros s. eexists. split; [reflexivity|]. split; reflexivity. Qed.

Lemma quiet_print (line : string) : quiet (print line).
Proof. intros s. eexists. split; [reflexivity|]. split; reflexivity. Qed.

Lemma ends_saved_assign_given (s0 : state) arg assign rest :
  (forall v, quiet (assign v)) -> ends_saved s0 rest ->
  ends_saved s0 (assign_given arg assign rest).
Proof.
  intros Ha Hr. destruct arg as [v|]; cbn [assign_given]; [|exact Hr].
  intros s1 [H1 H2]. unfold bind.
  destruct (Ha v s1) as (s2 & -> & H3 & H4).
  apply Hr. split; congruence.
Qed.

Lemma ends_saved_assign_checked (s0 : state) arg valid assign message rest :
  (forall v, quiet (assign v)) -> ends_saved s0 rest ->
  ends_saved s0 (assign_checked arg valid assign message rest).
Proof.
  intros Ha Hr. destruct arg as [v|]; cbn [assign_checked]; [|exact Hr].
  destruct (valid v).
  - intros s1 [H1 H2]. unfold bind.
    destruct (Ha v s1) as (s2 & -> & H3 & H4).
    apply Hr. split; congruence.
  - intros s1 H. exact H.
Qed.

Lemma ends_saved_finish (s0 : state) (i : nat) :
  ends_saved s0
    (let* stamp := now_isoformat in
     setattr i (set_updated_at stamp) >> save_todos >> ret true).
Proof.
  intros s1 [H1 H2]. cbn. split; [reflexivity|]. cbn [writes]. lia.
Qed.

Lemma persists_update_todo todo_id t d p c du r (s : state) :
  persists (fun b : bool => b) (update_todo todo_id t d p c du r) s.
Proof.
  assert (ends_saved s (update_todo todo_id t d p c du r)) as H.
  { unfold update_todo. intros s1 Hs1. unfold bind at 1. unfold get_todos at 1.
    destruct (find_id todo_id (todos s1)) as [[i t0]|]; [|exact Hs1].
    revert s1 Hs1.
    change (ends_saved s
      (assign_given t (fun v => setattr i (set_title v))
      (assign_given d (fun v => setattr i (set_description v))
      (assign_checked p _validate_priority
         (fun v => setattr i (set_priority v)) msg_invalid_priority
      (assign_given c (fun v => setattr i (set_category v))
      (assign_checked du _validate_date_format
         (fun v => setattr i (set_due_date v)) msg_invalid_date
      (assign_checked r _validate_recurring_pattern
         (fun v => setattr i (set_recurring_pattern v)) msg_invalid_pattern
      (let* stamp := now_isoformat in
       setattr i (set_updated_at stamp) >> save_todos >> ret true)))))))).
    repeat first
      [ apply ends_saved_finish
      | apply ends_saved_assign_given; [intros; apply quiet_setattr|]
      | apply ends_saved_assign_checked; [intros; apply quiet_setattr|] ]. }
  unfold persists. specialize (H s (conj eq_refl eq_refl)).
  destruct (update_todo todo_id t d p c du r s) as [[[]| |] s']; exact H.
Qed.

Lemma persists_toggle_completion todo_id (s : state) :
  persists (fun b : bool => b) (toggle_completion todo_id) s.
Proof.
  unfold persists.
  destruct (find_id todo_id (todos s)) as [[i t]|] eqn:Hf.
  - rewrite (toggle_exec s todo_id i t Hf). cbn zeta.
    destruct (_ && _).
    + rewrite create_exec.
      destruct (pattern_days _) as [k|].
      * destruct (fst (next_due k _ _)); file_facts.
      * file_facts.
    + file_facts.
  - unfold toggle_completion, bind, get_todos. rewrite Hf. file_facts.
Qed.

(** X2.  Each of the four mutating methods either reports success, and
    then the storage file holds the serialised current list, written
    during the call, or ends in any other way (a failure value or an
    exception), and then the file has not been opened for writing. *)
Theorem saved_or_untouched (s : state) :
  (forall t d p c du r, persists some (add_todo t d p c du r) s)
  /\ (forall todo_id, persists (fun b : bool => b) (remove_todo todo_id) s)
  /\ (forall todo_id, persists (fun b : bool => b) (toggle_completion todo_id) s)
  /\ (forall todo_id t d p c du r,
         persists (fun b : bool => b) (update_todo todo_id t d p c du r) s).
Proof.
  split; [|split; [|split]].
  - intros t d p c du r. unfold persists.
    destruct (_validate_priority p) eqn:Hp;
      [destruct (_validate_date_format du) eqn:Hd;
       [destruct (_validate_recurring_pattern r) eqn:Hr|]|].
    + rewrite add_todo_accepts by assumption. file_facts.
    + destruct (add_todo_rejects t d p c du r s) as [line ->]; [auto|]. file_facts.
    + destruct (add_todo_rejects t d p c du r s) as [line ->]; [auto|]. file_facts.
    + destruct (add_todo_rejects t d p c du r s) as [line ->]; [auto|]. file_facts.
  - intros todo_id. unfold persists. rewrite remove_todo_exec.
    destruct (find_id todo_id (todos s)) as [[i t]|]; file_facts.
  - intros todo_id. apply persists_toggle_completion.
  - intros todo_id t d p c du r. apply persists_update_todo.
Qed.

Lemma get_todo_exec (todo_id : Z) (s : state) :
  get_todo todo_id s = (Ok (snd <$> find_id todo_id (todos s)), s).
Proof. reflexivity. Qed.

(** X3.  For an id that no item of the collection has,
    [toggle_completion] and [update_todo] return [False] and [get_todo]
    returns [None]; the state, with the file and the clock, is exactly as
    before. *)
Theorem absent_id_no_effect (s : state) (todo_id : Z) :
  Forall (fun t => id t <> todo_id) (todos s) ->
  toggle_completion todo_id s = (Ok false, s)
  /\ (forall t d p c du r, update_todo todo_id t d p c du r s = (Ok false, s))
  /\ get_todo todo_id s = (Ok None, s).
Proof.
  intros H%find_id_None. split; [|split].
  - unfold toggle_completion, bind, get_todos. rewrite H. reflexivity.
  - intros t d p c du r. unfold update_todo, bind, get_todos. rewrite H.
    reflexivity.
  - rewrite get_todo_exec, H. reflexivity.
Qed.

(** X4.  When [remove_todo] finds the id, it returns [True] and deletes
    the first item that has it: the items before and after keep their
    order, the counter is not changed, and the file is saved.  If the ids
    of the collection are distinct, the id is then no longer found. *)
Theorem remove_todo_removes (s : state) (todo_id : Z) (i : nat) (t : TodoItem) :
  find_id todo_id (todos s) = Some (i, t) ->
  exists s',
    remove_todo todo_id s = (Ok true, s')
    /\ todos s = (take i (todos s) ++ t :: drop (S i) (todos s))%list
    /\ todos s' = (take i (todos s) ++ drop (S i) (todos s))%list
    /\ Forall (fun x => id x <> todo_id) (take i (todos s))
    /\ next_id s' = next_id s
    /\ file s' = snapshot (todos s')
    /\ (NoDup (map id (todos s)) -> get_todo todo_id s' = (Ok None, s')).
Proof.
  intros Hf. pose proof (find_id_Some _ _ _ _ Hf) as [Hl Hid].
  rewrite remove_todo_exec, Hf. eexists. split; [reflexivity|].
  cbn [saved todos next_id file].
  split; [symmetry; apply take_drop_middle, Hl|].
  split; [apply delete_take_drop|].
  split.
  - apply Forall_forall. intros x Hx.
    apply list_elem_of_lookup in Hx as [j Hj].
    pose proof (lookup_lt_Some _ _ _ Hj) as Hlen. rewrite length_take in Hlen.
    rewrite lookup_take_lt in Hj by lia.
    unfold find_id in Hf. apply list_find_Some in Hf as (_ & _ & Hmin).
    apply (Hmin j x Hj). lia.
  - split; [reflexivity|]. split; [reflexivity|].
    intros Hnd. rewrite get_todo_exec. unfold saved at 1. cbn [todos].
    assert (find_id todo_id (delete i (todos s)) = None) as ->; [|reflexivity].
    apply find_id_None. rewrite <- Hid. apply (NoDup_map_delete_ne id); assumption.
Qed.

Lemma find_id_app_new (l : list TodoItem) (t : TodoItem) (n : Z) :
  ids_below n l -> id t = n ->
  find_id n (l ++ [t]) = Some (length l, t)
  /\ forall j, j <> n -> snd <$> find_id j (l ++ [t]) = snd <$> find_id j l.
Proof.
  intros Hl Ht. unfold find_id. split.
  - apply list_find_Some. split; [|split].
    + rewrite lookup_app_r by lia. replace (length l - length l)%nat with 0%nat by lia.
      reflexivity.
    + exact Ht.
    + intros j y Hj Hlt. rewrite lookup_app_l in Hj by lia.
      unfold ids_below in Hl. rewrite Forall_forall in Hl.
      specialize (Hl y (list_elem_of_lookup_2 _ _ _ Hj)). lia.
  - intros j Hj.
    destruct (list_find (fun t0 => id t0 = j) l) as [[i x]|] eqn:E.
    + rewrite (list_find_app_l _ _ _ _ _ E). reflexivity.
    + assert (list_find (fun t0 => id t0 = j) (l ++ [t]) = None) as ->;
        [|reflexivity].
      apply list_find_app_None. split; [exact E|].
      apply list_find_None. constructor; [congruence | constructor].
Qed.

(** X5.  In a state whose ids are below the counter, an item that
    [add_todo] has just created is what [get_todo] returns for its id,
    and [get_todo] answers for every other id as it did before the
    add. *)
Theorem get_todo_after_add_todo (s s' : state) (item : TodoItem)
    (title description priority category due_date recurring_pattern : string) :
  inv s ->
  add_todo title description priority category due_date recurring_pattern s
  = (Ok (Some item), s') ->
  get_todo (id item) s' = (Ok (Some item), s')
  /\ forall j, j <> id item -> fst (get_todo j s') = fst (get_todo j s).
Proof.
  intros [_ Hids] H.
  destruct (_validate_priority priority) eqn:Hp;
    [destruct (_validate_date_format due_date) eqn:Hd;
     [destruct (_validate_recurring_pattern recurring_pattern) eqn:Hr|]|].
  2-4: destruct (add_todo_rejects title description priority category due_date
                   recurring_pattern s) as [line E]; [auto|];
       rewrite E in H; discriminate.
  rewrite add_todo_accepts in H by assumption. injection H as <- <-.
  destruct (find_id_app_new (todos s) (fresh_item s title description priority
              category due_date recurring_pattern) (next_id s) Hids eq_refl)
    as [H1 H2].
  split.
  - rewrite get_todo_exec. unfold appended at 1. cbn [todos id fresh_item].
    rewrite H1. reflexivity.
  - intros j Hj. cbn [id fresh_item] in Hj. rewrite !get_todo_exec.
    unfold appended. cbn [fst todos]. rewrite (H2 j Hj). reflexivity.
Qed.

Lemma acceptable_Some (valid : string -> bool) (v : string) :
  acceptable valid (Some v) -> valid v = true.
Proof. intros H. exact H. Qed.

Lemma setattr_at (i : nat) (f : TodoItem -> TodoItem) (l : list TodoItem)
    (t : TodoItem) (s : state) :
  (i < length l)%nat ->
  setattr i f (with_todos (<[i:=t]> l) s)
  = (Ok tt, with_todos (<[i:=f t]> l) s).
Proof.
  intros Hi. unfold setattr, bind, get_todos, put_todos, with_todos.
  cbn [todos next_id file writes stdout clock ticks].
  rewrite (alter_lookup _ _ _ t) by (apply list_lookup_insert_eq, Hi).
  rewrite list_insert_insert_eq. reflexivity.
Qed.

Lemma assign_given_at (i : nat) (set : string -> TodoItem -> TodoItem)
    (arg : option string) (rest : M bool) (l : list TodoItem) (t : TodoItem)
    (s : state) :
  (i < length l)%nat ->
  assign_given arg (fun v => setattr i (set v)) rest
    (with_todos (<[i:=t]> l) s)
  = rest (with_todos (<[i:=assigned set arg t]> l) s).
Proof.
  intros Hi. destruct arg as [v|]; cbn [assign_given assigned]; [|reflexivity].
  unfold bind. rewrite setattr_at by exact Hi. reflexivity.
Qed.

Lemma assign_checked_at (i : nat) (set : string -> TodoItem -> TodoItem)
    (valid : string -> bool) (message : string -> string)
    (arg : option string) (rest : M bool) (l : list TodoItem) (t : TodoItem)
    (s : state) :
  (i < length l)%nat -> acceptable valid arg ->
  assign_checked arg valid (fun v => setattr i (set v)) message rest
    (with_todos (<[i:=t]> l) s)
  = rest (with_todos (<[i:=assigned set arg t]> l) s).
Proof.
  intros Hi Hv.
  destruct arg as [v|]; cbn [assign_checked assigned]; [|reflexivity].
  cbn [acceptable] in Hv. rewrite Hv.
  unfold bind. rewrite setattr_at by exact Hi. reflexivity.
Qed.

(** X6.  When [update_todo] finds the id and every given priority, due
    date and pattern passes its check, it returns [True]; the first item
    with that id has the given fields replaced and a new update stamp,
    and keeps its id, completion flag, creation stamp and the fields not
    given; every other item is as before and the list is saved. *)
Theorem update_todo_applies (s : state) (todo_id : Z) (i : nat) (t0 : TodoItem)
    (title description priority category due_date recurring_pattern
     : option string) :
  find_id todo_id (todos s) = Some (i, t0) ->
  acceptable _validate_priority priority ->
  acceptable _validate_date_format due_date ->
  acceptable _validate_recurring_pattern recurring_pattern ->
  update_todo todo_id title description priority category due_date
    recurring_pattern s
  = (Ok true,
     saved (mk_state
              (<[i := updated_item t0 title description priority category
                        due_date recurring_pattern (now s 0)]> (todos s))
              (next_id s) (file s) (writes s) (stdout s) (clock s)
              (S (ticks s)))).
Proof.
  intros Hf Hp Hd Hr. pose proof (find_id_Some _ _ _ _ Hf) as [Hl _].
  pose proof (lookup_lt_Some _ _ _ Hl) as Hi.
  unfold update_todo. unfold bind at 1. unfold get_todos at 1. rewrite Hf.
  assert (s = with_todos (<[i:=t0]> (todos s)) s) as Hs.
  { rewrite (list_insert_id _ _ _ Hl). destruct s; reflexivity. }
  rewrite Hs at 1.
  rewrite (assign_given_at i set_title) by exact Hi.
  rewrite (assign_given_at i set_description) by exact Hi.
  rewrite (assign_checked_at i set_priority) by assumption.
  rewrite (assign_given_at i set_category) by exact Hi.
  rewrite (assign_checked_at i set_due_date) by assumption.
  rewrite (assign_checked_at i set_recurring_pattern) by assumption.
  unfold bind at 1. unfold now_isoformat at 1.
  cbn [with_todos todos next_id file writes stdout clock ticks].
  unfold bind at 1.
  change (mk_state ?l (next_id s) (file s) (writes s) (stdout s) (clock s)
            (S (ticks s)))
    with (with_todos l (with_ticks (S (ticks s)) s)).
  rewrite setattr_at by exact Hi.
  unfold bind, save_todos, bind, get_todos, write_file, ret, saved, with_todos,
    with_ticks, now.
  cbn [todos next_id file writes stdout clock ticks].
  destruct title, description, priority, category, due_date,
    recurring_pattern; reflexivity.
Qed.

(** *** Listing twice *)

Lemma key_exec_inv (sp : bool) (x : TodoItem) (k : list Z) (s s' : state) :
  (if sp then priority_key else created_key) x s = (Ok k, s') ->
  sort_key sp x = Some k.
Proof.
  unfold sort_key. destruct sp; unfold priority_key, created_key.
  - destruct (priority_order (priority x)) as [p|]; [|discriminate].
    unfold bind, created_key.
    destruct (fromisoformat (created_at x)); try discriminate.
    intros [= <- _]. reflexivity.
  - destruct (fromisoformat (created_at x)); try discriminate.
    intros [= <- _]. reflexivity.
Qed.

Lemma keys_exec_inv (sp : bool) (l : list TodoItem) (keys : list (list Z))
    (s s' : state) :
  for_each (if sp then priority_key else created_key) l s = (Ok keys, s') ->
  Forall2 (fun t k => sort_key sp t = Some k) l keys.
Proof.
  revert keys s s'. induction l as [|t l IH]; intros keys s s'; cbn [for_each].
  - intros [= <- _]. constructor.
  - intros H. apply bind_Ok in H as (k & s1 & Hk & H).
    apply bind_Ok in H as (ks & s2 & Hks & H). injection H as <- _.
    constructor; [eapply key_exec_inv, Hk | eapply IH, Hks].
Qed.

Lemma sorted_items_pairs (sp : bool) (l : list TodoItem) (keys : list (list Z)) :
  Forall2 (fun t k => sort_key sp t = Some k) l keys ->
  sorted_reverse sp l -> StronglySorted not_below (zip keys l).
Proof.
  unfold sorted_reverse. intros HF. induction HF as [|t k l keys Hk HF IH].
  - constructor.
  - intros Hs. apply StronglySorted_inv in Hs as [Hs Ht]. cbn [zip zip_with].
    constructor; [apply IH, Hs|].
    clear IH Hs. induction HF as [|t' k' l keys Hk' HF IH]; [constructor|].
    apply Forall_cons in Ht as [Ht Ht']. cbn [zip zip_with].
    constructor; [|apply IH, Ht'].
    unfold not_below. cbn [fst]. apply Ht; assumption.
Qed.

Lemma sorted_reverse_filter (sp : bool) (P : TodoItem -> Prop)
    `{!forall t, Decision (P t)} (l : list TodoItem) :
  sorted_reverse sp l -> sorted_reverse sp (filter P l).
Proof.
  unfold sorted_reverse. induction 1 as [|t l Hs IH Ht]; [constructor|].
  rewrite filter_cons. destruct (decide (P t)); [|exact IH].
  constructor; [exact IH|].
  apply Forall_forall. intros x Hx%list_elem_of_filter.
  rewrite Forall_forall in Ht. apply Ht, Hx.
Qed.

(** A stored list that is already in the requested order is returned as
    it is, and nothing changes. *)
Lemma list_todos_sorted_unchanged (sc sp : bool) (s : state) :
  Forall (fun t => is_Some (sort_key sp t)) (selection sc s) ->
  sorted_reverse sp (todos s) ->
  list_todos sc sp s = (Ok (selection sc s), s).
Proof.
  intros Hk Hs.
  destruct (keys_exec sp (selection sc s) s Hk) as (keys & Hkeys & HF).
  rewrite (list_todos_exec sc sp s keys Hkeys). cbn zeta.
  assert (sorted_reverse sp (selection sc s)) as Hsel.
  { unfold selection. destruct sc; [exact Hs|].
    apply sorted_reverse_filter, Hs. }
  rewrite (sort_reverse_sorted_id _ (sorted_items_pairs sp _ _ HF Hsel)).
  rewrite (zip_keys_snd _ _ _ HF).
  destruct sc; [|reflexivity]. destruct s; reflexivity.
Qed.

(** X7.  Listing with [show_completed] is idempotent: after a call that
    returned, the same call returns the same list and changes nothing;
    and a call without [show_completed] then returns the incomplete items
    in the order in which they are stored, again changing nothing. *)
Theorem list_todos_twice (sp : bool) (s s1 : state) (sorted : list TodoItem) :
  list_todos true sp s = (Ok sorted, s1) ->
  todos s1 = sorted
  /\ list_todos true sp s1 = (Ok sorted, s1)
  /\ list_todos false sp s1
     = (Ok (filter (fun t => completed t = false) sorted), s1).
Proof.
  intros H. rewrite list_todos_unfold in H.
  pose proof (for_each_pure (if sp then priority_key else created_key)
                (selection true s) s (key_pure sp)) as Hp.
  destruct (for_each _ (selection true s) s) as [[keys| |] s0] eqn:E;
    try discriminate.
  cbn [snd] in Hp. subst s0. cbn zeta in H.
  pose proof (keys_exec_inv sp _ _ _ _ E) as HF.
  destruct (sorted_selection true sp s keys HF) as [Hperm Hsorted].
  cbn zeta in Hperm, Hsorted. injection H as Hl Hs1.
  unfold selection in Hl, Hperm, Hsorted, HF.
  rewrite Hl in Hperm, Hsorted.
  assert (todos s1 = sorted) as Ht by (rewrite <- Hs1, <- Hl; reflexivity).
  assert (Forall (fun t => is_Some (sort_key sp t)) sorted) as Hkeys.
  { eapply Permutation_Forall; [exact Hperm|].
    eapply Forall2_Forall_l; [exact HF|]. apply Forall_forall.
    intros k _ t Hk. eexists. exact Hk. }
  split; [exact Ht|]. split.
  - rewrite (list_todos_sorted_unchanged true sp s1).
    + cbn [selection]. rewrite Ht. reflexivity.
    + cbn [selection]. rewrite Ht. exact Hkeys.
    + rewrite Ht. exact Hsorted.
  - rewrite (list_todos_sorted_unchanged false sp s1).
    + cbn [selection]. rewrite Ht. reflexivity.
    + cbn [selection]. rewrite Ht.
      apply Forall_forall. intros t Ht'%list_elem_of_filter.
      rewrite Forall_forall in Hkeys. apply Hkeys, Ht'.
    + rewrite Ht. exact Hsorted.
Qed.

(** X8.  If the sort key of a selected item cannot be computed (its
    creation stamp is no ISO date-time, or its priority is not in the
    table), [list_todos] does not return a list, and the state, with the
    order of the stored list, is exactly as before. *)
Theorem list_todos_failure_atomic (sc sp : bool) (s : state) :
  Exists (fun t => sort_key sp t = None) (selection sc s) ->
  exists o, list_todos sc sp s = (o, s) /\ forall l, o <> Ok l.
Proof.
  intros Hex. rewrite list_todos_unfold.
  pose proof (for_each_pure (if sp then priority_key else created_key)
                (selection sc s) s (key_pure sp)) as Hp.
  destruct (for_each _ (selection sc s) s) as [[keys| |] s0] eqn:E;
    cbn [snd] in Hp; subst s0.
  - exfalso. pose proof (keys_exec_inv sp _ _ _ _ E) as HF.
    apply Exists_exists in Hex as (t & Ht & Hnone).
    apply list_elem_of_lookup in Ht as [j Hj].
    destruct (Forall2_lookup_l _ _ _ _ _ HF Hj) as (k & _ & Hk). congruence.
  - eexists. split; [reflexivity | discriminate].
  - eexists. split; [reflexivity | discriminate].
Qed.



(** X10.  For a due date that can be shifted, the due date computed for
    a successor passes the date check of [add_todo] and [update_todo];
    it is empty exactly when the original one is, and otherwise both are
    dates, the new one the given number of days after the old one, at
    midnight, and again of a year from 1000 on. *)
Theorem next_due_is_valid (k : nat) (due : string) (s : state) :
  shiftable k due ->
  exists due',
    next_due k due s = (Ok due', s)
    /\ _validate_date_format due' = true
    /\ (due' = "" <-> due = "")
    /\ (due <> "" ->
        exists d d',
          fromisoformat due = Parsed d
          /\ fromisoformat due' = Parsed (midnight (year d') (month d') (day d'))
          /\ toordinal d' = toordinal d + Z.of_nat k
          /\ 1000 <= year d').
Proof.
  intros [-> | (d & d' & Hp & Hy & Ha)].
  - exists "". split; [reflexivity|]. split; [reflexivity|].
    split; [tauto|]. intros H. contradiction.
  - assert (due <> "") as Hdue.
    { intros ->. rewrite fromisoformat_empty in Hp. discriminate. }
    exists (strftime_Ymd d'). unfold next_due.
    rewrite (proj2 (truthy_spec _) Hdue), Hp, Ha.
    destruct (add_days_toordinal k d d' (fromisoformat_valid _ _ Hp) Ha)
      as (Ho & Hv & Hyy).
    assert (strftime_Ymd d' <> "") as Hne.
    { unfold strftime_Ymd. apply append_nonempty_l, pad_digits_nonempty. }
    split; [reflexivity|]. split; [|split].
    + unfold _validate_date_format, match_date_re.
      rewrite (proj2 (truthy_spec _) Hne).
      pose proof (read_date_shape_strftime _ _ _ "" Hv) as Hr.
      rewrite append_empty_r in Hr.
      change (strftime_Ymd (midnight (year d') (month d') (day d')))
        with (strftime_Ymd d') in Hr.
      rewrite Hr. reflexivity.
    + split; intros; contradiction.
    + intros _. exists d, d'. split; [reflexivity|].
      split; [apply fromisoformat_strftime, Hv|]. split; [exact Ho | lia].
Qed.

End JsonCliMoreFacts.

Section OwnSessions.
Import JsonCli JsonCliMore.

Lemma steady_same (s s' : state) :
  todos s' = todos s -> next_id s' = next_id s -> file s' = file s ->
  clock s' = clock s -> steady s -> steady s'.
Proof. unfold steady. intros -> -> -> -> H. exact H. Qed.

Lemma stable_steady_print (line : string) : stable steady (print line).
Proof. intros s H. apply (steady_same s); auto. Qed.

Lemma stable_steady_now : stable steady now_isoformat.
Proof. intros s H. apply (steady_same s); auto. Qed.

Lemma steady_saved (s : state) : steady s -> steady (saved s).
Proof.
  intros (Hc & Hk & Hi & _). repeat split; try assumption; try apply Hk.
  right; right. exists (todos s). split; [reflexivity | exact Hk].
Qed.

Lemma stable_steady_save : stable steady save_todos.
Proof. intros s H. rewrite save_todos_exec. apply steady_saved, H. Qed.

Lemma map_id_alter (f : TodoItem -> TodoItem) (i : nat) (l : list TodoItem) :
  (forall t, id (f t) = id t) -> map id (alter f i l) = map id l.
Proof.
  intros Hf. revert i. induction l as [|t l IH]; intros [|i]; cbn;
    rewrite ?Hf, ?IH; reflexivity.
Qed.

Lemma stable_steady_setattr (i : nat) (f : TodoItem -> TodoItem) :
  gentle f -> stable steady (setattr i f).
Proof.
  intros Hf s (Hc & (H1 & H2 & H3) & Hi & Hfile).
  unfold setattr, bind, get_todos, put_todos. cbn [snd].
  repeat split; cbn [todos next_id file clock]; try assumption.
  - apply Forall_alter; [exact H1|]. intros t _ Ht. apply Hf, Ht.
  - apply Forall_alter; [exact H2|]. intros t _ [dt Ht]. exists dt.
    destruct (Hf t) as (_ & -> & _). exact Ht.
  - rewrite map_id_alter; [exact H3|]. intros t. apply Hf.
  - unfold ids_below. apply Forall_alter; [exact Hi|]. intros t _ Ht.
    cbn beta. destruct (Hf t) as (-> & _). exact Ht.
Qed.

Lemma steady_appended (s : state) t d p c du r :
  steady s -> steady (appended s (fresh_item s t d p c du r)).
Proof.
  intros (Hc & (H1 & H2 & H3) & Hi & Hfile).
  assert (well_kept (todos s ++ [fresh_item s t d p c du r])) as Hk.
  { repeat split.
    - apply Forall_app. split; [exact H1|].
      constructor; [apply fresh_item_ok | constructor].
    - apply Forall_app. split; [exact H2|]. constructor; [|constructor].
      eexists. unfold fresh_item, now. cbn [created_at].
      apply fromisoformat_isoformat, Hc.
    - rewrite map_app. apply NoDup_app. split; [exact H3|]. split.
      + intros x Hx Hx'. cbn in Hx'. apply list_elem_of_singleton in Hx'.
        subst x. apply list_elem_of_In, in_map_iff in Hx as (y & Hy & Hin).
        unfold ids_below in Hi. rewrite Forall_forall in Hi.
        specialize (Hi y (proj2 (list_elem_of_In _ _) Hin)). lia.
      + apply NoDup_singleton. }
  unfold appended. repeat split; cbn [todos next_id file clock];
    try assumption; try apply Hk.
  - unfold ids_below in *. apply Forall_app. split.
    + eapply Forall_impl; [exact Hi|]. cbn. intros; lia.
    + constructor; [cbn; lia | constructor].
  - right; right. eexists. split; [reflexivity | exact Hk].
Qed.

Lemma stable_steady_add t d p c du r : stable steady (add_todo t d p c du r).
Proof.
  intros s Hs.
  destruct (_validate_priority p) eqn:Hp;
    [destruct (_validate_date_format du) eqn:Hd;
     [destruct (_validate_recurring_pattern r) eqn:Hr|]|].
  - rewrite add_todo_accepts by assumption. cbn [snd].
    apply steady_appended, Hs.
  - destruct (add_todo_rejects t d p c du r s) as [line ->]; [auto|].
    apply (steady_same s); auto.
  - destruct (add_todo_rejects t d p c du r s) as [line ->]; [auto|].
    apply (steady_same s); auto.
  - destruct (add_todo_rejects t d p c du r s) as [line ->]; [auto|].
    apply (steady_same s); auto.
Qed.

Lemma stable_steady_create (t : TodoItem) :
  stable steady (_create_recurring_task t).
Proof.
  intros s Hs. rewrite create_exec.
  destruct (pattern_days (recurring_pattern t)) as [k|]; [|exact Hs].
  destruct (fst (next_due k (due_date t) s)); cbn [snd]; try exact Hs.
  apply steady_appended, Hs.
Qed.

Lemma gentle_plain (f : TodoItem -> TodoItem) :
  (forall t, id (f t) = id t) -> (forall t, created_at (f t) = created_at t) ->
  (forall t, priority (f t) = priority t) -> gentle f.
Proof.
  intros H1 H2 H3 t. split; [apply H1|]. split; [apply H2|].
  unfold item_ok. rewrite H2, H3. tauto.
Qed.

Lemma gentle_set_priority (v : string) :
  _validate_priority v = true -> gentle (set_priority v).
Proof.
  intros Hv t. split; [reflexivity|]. split; [reflexivity|].
  intros [_ Hc]. split; [apply str_in_spec, Hv | exact Hc].
Qed.

Lemma stable_steady_toggle (todo_id : Z) :
  stable steady (toggle_completion todo_id).
Proof.
  unfold toggle_completion.
  apply stable_bind; [apply stable_get_todos|]. intros l.
  destruct (find_id todo_id l) as [[i t]|]; [|apply stable_ret].
  apply stable_bind;
    [apply stable_steady_setattr, gentle_plain; reflexivity|]. intros _.
  apply stable_bind; [apply stable_steady_now|]. intros stamp.
  apply stable_bind;
    [apply stable_steady_setattr, gentle_plain; reflexivity|]. intros _.
  apply stable_bind.
  - destruct (_ && _); [apply stable_steady_create | apply stable_ret].
  - intros _. apply stable_bind; [apply stable_steady_save|].
    intros _. apply stable_ret.
Qed.

Lemma stable_steady_checked arg valid assign message rest :
  (forall v, valid v = true -> stable steady (assign v)) ->
  stable steady rest ->
  stable steady (assign_checked arg valid assign message rest).
Proof.
  intros Ha Hr. destruct arg as [v|]; cbn; [|exact Hr].
  destruct (valid v) eqn:E.
  - apply stable_bind; [apply Ha, E | intros _; exact Hr].
  - apply stable_bind; [apply stable_steady_print | intros _; apply stable_ret].
Qed.

Lemma stable_steady_update todo_id t d p c du r :
  stable steady (update_todo todo_id t d p c du r).
Proof.
  unfold update_todo.
  apply stable_bind; [apply stable_get_todos|]. intros l.
  destruct (find_id todo_id l) as [[i t0]|]; [|apply stable_ret].
  apply stable_assign_given;
    [intros; apply stable_steady_setattr, gentle_plain; reflexivity|].
  apply stable_assign_given;
    [intros; apply stable_steady_setattr, gentle_plain; reflexivity|].
  apply stable_steady_checked;
    [intros; apply stable_steady_setattr, gentle_set_priority; assumption|].
  apply stable_assign_given;
    [intros; apply stable_steady_setattr, gentle_plain; reflexivity|].
  apply stable_steady_checked;
    [intros; apply stable_steady_setattr, gentle_plain; reflexivity|].
  apply stable_steady_checked;
    [intros; apply stable_steady_setattr, gentle_plain; reflexivity|].
  apply stable_bind; [apply stable_steady_now|]. intros stamp.
  apply stable_bind;
    [apply stable_steady_setattr, gentle_plain; reflexivity|]. intros _.
  apply stable_bind; [apply stable_steady_save|]. intros _.
  apply stable_ret.
Qed.

Lemma stable_steady_remove (todo_id : Z) :
  stable steady (remove_todo todo_id).
Proof.
  intros s Hs. rewrite remove_todo_exec.
  destruct (find_id todo_id (todos s)) as [[i t]|]; [|exact Hs].
  cbn [snd]. apply steady_saved.
  destruct Hs as (Hc & (H1 & H2 & H3) & Hi & Hfile).
  repeat split; cbn [todos next_id file clock]; try assumption.
  - apply Forall_delete, H1.
  - apply Forall_delete, H2.
  - apply NoDup_map_delete, H3.
  - apply Forall_delete, Hi.
Qed.

Lemma well_kept_Permutation (l l' : list TodoItem) :
  Permutation l l' -> well_kept l -> well_kept l'.
Proof.
  intros Hp (H1 & H2 & H3). repeat split.
  - eapply Permutation_Forall; eassumption.
  - eapply Permutation_Forall; eassumption.
  - eapply NoDup_Permutation_proper; [|exact H3].
    symmetry. apply Permutation_map, Hp.
Qed.

Lemma list_todos_rest (sc sp : bool) (s : state) :
  file (snd (list_todos sc sp s)) = file s
  /\ clock (snd (list_todos sc sp s)) = clock s.
Proof.
  rewrite list_todos_unfold.
  pose proof (for_each_pure (if sp then priority_key else created_key)
                (selection sc s) s (key_pure sp)) as Hp.
  destruct (for_each _ (selection sc s) s) as [[keys| |] s1];
    cbn [snd] in Hp; subst s1; cbn [snd]; try (split; reflexivity).
  destruct sc; split; reflexivity.
Qed.

Lemma stable_steady_list (sc sp : bool) : stable steady (list_todos sc sp).
Proof.
  intros s (Hc & Hk & Hi & Hfile).
  destruct (list_todos_state sc sp s) as [Hperm Hn]. cbn zeta in Hperm, Hn.
  destruct (list_todos_rest sc sp s) as [Hf Hclk].
  unfold steady. rewrite Hn, Hf, Hclk. repeat split; try assumption;
    try (apply (well_kept_Permutation _ _ Hperm), Hk).
  unfold ids_below. eapply Permutation_Forall; eassumption.
Qed.

Lemma stable_steady_load : stable steady load_todos.
Proof.
  intros s Hs. pose proof Hs as (Hc & Hk & Hi & [Hf|[Hf|(l & Hf & Hl)]]).
  - rewrite load_todos_unfold, Hf. exact Hs.
  - rewrite load_todos_unfold, Hf. cbn [snd].
    unfold bind, put_todos, put_next_id. cbn [snd].
    repeat split; cbn [todos next_id file clock];
      first [ assumption | apply Forall_nil_2 | apply NoDup_nil_2
            | right; left; exact Hf ].
  - rewrite (load_saved l s (proj1 Hl) Hf). cbn [snd].
    repeat split; cbn [todos next_id file clock]; try assumption;
      try apply Hl.
    + apply ids_below_recount.
    + right; right. exists l. split; assumption.
Qed.

Lemma stable_steady_run_call (c : call) : stable steady (run_call c).
Proof.
  destruct c; cbn [run_call];
    first [ apply stable_steady_load | apply stable_discard ].
  - apply stable_steady_add.
  - apply stable_steady_remove.
  - apply stable_steady_toggle.
  - apply stable_steady_update.
  - apply stable_bind; [apply stable_get_todos | intros l; apply stable_ret].
  - apply stable_steady_list.
Qed.

Lemma steady_after_init (f : option file_contents) (clk : nat -> datetime) :
  own_file f -> ticking clk ->
  steady (snd (TodoManager__init__ (boot f clk))).
Proof.
  intros Hf Hc.
  change (steady (snd ((load_todos >> _update_next_id)
                         (mk_state [] 1 f 0 [] clk 0)))).
  apply stable_bind; [apply stable_steady_load| |].
  - intros _ s (Hc' & Hk & _ & Hfile). rewrite _update_next_id_exec.
    repeat split; cbn [snd todos next_id file clock]; try assumption;
      try apply Hk.
    apply ids_below_recount.
  - repeat split; cbn [todos next_id file clock]; try assumption;
      constructor.
Qed.

(** A session on a file of the manager's own, with a clock that reads
    date-times, stays steady. *)
Lemma session_steady (f : option file_contents) (clk : nat -> datetime)
    (s : state) :
  own_file f -> ticking clk -> session f clk s -> steady s.
Proof.
  intros Hf Hc. induction 1 as [s Hinit | s c _ IH _].
  - pose proof (steady_after_init f clk Hf Hc) as H.
    rewrite Hinit in H. exact H.
  - apply stable_steady_run_call, IH.
Qed.

(** *** Calls that return *)

Lemma returns_ret {A} (a : A) : returns (ret a).
Proof. intros s. eexists _, _. reflexivity. Qed.

Lemma returns_bind {A B} (m : M A) (k : A -> M B) :
  returns m -> (forall a, returns (k a)) -> returns (bind m k).
Proof.
  intros Hm Hk s. unfold bind. destruct (Hm s) as (a & s1 & ->). apply Hk.
Qed.

Lemma returns_setattr (i : nat) (f : TodoItem -> TodoItem) :
  returns (setattr i f).
Proof. intros s. eexists _, _. reflexivity. Qed.

Lemma returns_print (line : string) : returns (print line).
Proof. intros s. eexists _, _. reflexivity. Qed.

Lemma returns_assign_given arg assign (rest : M bool) :
  (forall v, returns (assign v)) -> returns rest ->
  returns (assign_given arg assign rest).
Proof.
  intros Ha Hr. destruct arg as [v|]; cbn [assign_given]; [|exact Hr].
  apply returns_bind; [apply Ha | intros _; exact Hr].
Qed.

Lemma returns_assign_checked arg valid assign message (rest : M bool) :
  (forall v, returns (assign v)) -> returns rest ->
  returns (assign_checked arg valid assign message rest).
Proof.
  intros Ha Hr. destruct arg as [v|]; cbn [assign_checked]; [|exact Hr].
  destruct (valid v).
  - apply returns_bind; [apply Ha | intros _; exact Hr].
  - apply returns_bind; [apply returns_print | intros _; apply returns_ret].
Qed.

Lemma returns_update_todo todo_id t d p c du r :
  returns (update_todo todo_id t d p c du r).
Proof.
  unfold update_todo. apply returns_bind.
  { intros s. eexists _, _. reflexivity. }
  intros l. destruct (find_id todo_id l) as [[i t0]|]; [|apply returns_ret].
  repeat first
    [ apply returns_assign_given; [intros; apply returns_setattr|]
    | apply returns_assign_checked; [intros; apply returns_setattr|] ].
  apply returns_bind; [intros s; eexists _, _; reflexivity|]. intros stamp.
  apply returns_bind; [apply returns_setattr|]. intros _.
  apply returns_bind; [intros s; eexists _, _; reflexivity|]. intros _.
  apply returns_ret.
Qed.

Lemma returns_discard {A} (m : M A) (s : state) :
  (exists a s', m s = (Ok a, s')) -> exists s', discard m s = (Ok tt, s').
Proof.
  intros (a & s' & H). exists s'. unfold discard, bind. rewrite H. reflexivity.
Qed.

Lemma stamped_sort_key (sp : bool) (t : TodoItem) :
  item_ok t -> stamped t -> is_Some (sort_key sp t).
Proof.
  intros [Hp _] [dt Hdt]. unfold sort_key. rewrite Hdt.
  destruct sp; [|eexists; reflexivity].
  destruct (priority_order_valid _ Hp) as [x ->]. eexists; reflexivity.
Qed.

Lemma steady_sort_keys (sc sp : bool) (s : state) :
  steady s -> Forall (fun t => is_Some (sort_key sp t)) (selection sc s).
Proof.
  intros (_ & (H1 & H2 & _) & _).
  assert (Forall (fun t => is_Some (sort_key sp t)) (todos s)) as H.
  { apply Forall_forall. intros t Ht. rewrite Forall_forall in H1, H2.
    apply stamped_sort_key; auto. }
  unfold selection. destruct sc; [exact H|].
  apply Forall_forall. intros t Ht%list_elem_of_filter.
  rewrite Forall_forall in H. apply H, Ht.
Qed.

Lemma wall_clock_ticking : ticking Samples.wall_clock.
Proof.
  intros n. unfold Samples.wall_clock, valid_datetime, valid_date, valid_time.
  cbn [year month day hour minute second microsecond].
  pose proof (Nat.mod_upper_bound (n / 3600) 24 ltac:(lia)).
  pose proof (Nat.mod_upper_bound (n / 60) 60 ltac:(lia)).
  pose proof (Nat.mod_upper_bound n 60 ltac:(lia)).
  repeat (apply andb_true_intro; split);
    first [ reflexivity | apply Z.leb_le; lia | apply Z.ltb_lt; lia ].
Qed.

(** X11.  In a session on a storage file of the manager's own (none, one
    that is no JSON, or one it saved), with a clock that reads date-times,
    every call other than [toggle_completion] returns: [list_todos] finds
    a sort key for every item and [load_todos] finds every field it
    reads. *)
Theorem session_calls_return (f : option file_contents)
    (clk : nat -> datetime) (s : state) (c : call) :
  own_file f -> ticking clk -> session f clk s -> toggles c = false ->
  exists s', run_call c s = (Ok tt, s').
Proof.
  intros Hf Hc Hs Hc'. pose proof (session_steady f clk s Hf Hc Hs) as Hst.
  destruct c as [t d p ca du r|i|i|i t d p ca du r|i|sc sp|];
    cbn [run_call]; try discriminate.
  - apply returns_discard.
    destruct (_validate_priority p) eqn:Hp;
      [destruct (_validate_date_format du) eqn:Hd;
       [destruct (_validate_recurring_pattern r) eqn:Hr|]|].
    + rewrite add_todo_accepts by assumption. eexists _, _. reflexivity.
    + destruct (add_todo_rejects t d p ca du r s) as [line ->]; [auto|].
      eexists _, _. reflexivity.
    + destruct (add_todo_rejects t d p ca du r s) as [line ->]; [auto|].
      eexists _, _. reflexivity.
    + destruct (add_todo_rejects t d p ca du r s) as [line ->]; [auto|].
      eexists _, _. reflexivity.
  - apply returns_discard. rewrite remove_todo_exec.
    destruct (find_id i (todos s)) as [[j x]|]; eexists _, _; reflexivity.
  - apply returns_discard, returns_update_todo.
  - apply returns_discard. eexists _, _. reflexivity.
  - apply returns_discard.
    destruct (keys_exec sp (selection sc s) s (steady_sort_keys sc sp s Hst))
      as (keys & Hkeys & _).
    rewrite (list_todos_exec sc sp s keys Hkeys). eexists _, _. reflexivity.
  - destruct Hst as (_ & _ & _ & [Hfile|[Hfile|(l & Hfile & Hl)]]).
    + rewrite load_todos_unfold, Hfile. eexists. reflexivity.
    + rewrite load_todos_unfold, Hfile. eexists. reflexivity.
    + rewrite (load_saved l s (proj1 Hl) Hfile). eexists. reflexivity.
Qed.

Lemma session_calls_return_witness :
  exists s', run_call (List true true)
               (snd (run_call Demo.add_plain
                       (snd (TodoManager__init__ (boot None Samples.wall_clock)))))
             = (Ok tt, s').
Proof.
  apply (session_calls_return None Samples.wall_clock).
  - left. reflexivity.
  - exact wall_clock_ticking.
  - apply session_call; [apply session_init; reflexivity | exact I].
  - reflexivity.
Defined.

Lemma find_id_NoDup (l : list TodoItem) (i : nat) (t : TodoItem) :
  NoDup (map id l) -> l !! i = Some t -> find_id (id t) l = Some (i, t).
Proof.
  intros Hnd Hl. unfold find_id. apply list_find_Some.
  split; [exact Hl|]. split; [reflexivity|].
  intros j y Hj Hlt Heq.
  assert (j = i); [|lia].
  apply (NoDup_lookup (map id l) j i (id t) Hnd).
  - rewrite list_lookup_fmap, Hj. cbn. f_equal. exact Heq.
  - rewrite list_lookup_fmap, Hl. reflexivity.
Qed.

(** X12.  In such a session the stored items have distinct ids, all below
    the counter, so [get_todo] with the id of a stored item returns that
    very item. *)
Theorem session_ids_distinct (f : option file_contents)
    (clk : nat -> datetime) (s : state) :
  own_file f -> ticking clk -> session f clk s ->
  NoDup (map id (todos s))
  /\ ids_below (next_id s) (todos s)
  /\ forall t, t ∈ todos s -> get_todo (id t) s = (Ok (Some t), s).
Proof.
  intros Hf Hc Hs.
  destruct (session_steady f clk s Hf Hc Hs) as (_ & (_ & _ & Hnd) & Hi & _).
  split; [exact Hnd|]. split; [exact Hi|].
  intros t [i Ht]%list_elem_of_lookup.
  unfold get_todo, bind, get_todos, ret.
  rewrite (find_id_NoDup _ i t Hnd Ht). reflexivity.
Qed.

Lemma session_ids_distinct_witness :
  let s := snd (run_call Demo.add_plain
                  (snd (TodoManager__init__ (boot None Samples.wall_clock)))) in
  NoDup (map id (todos s))
  /\ ids_below (next_id s) (todos s)
  /\ forall t, t ∈ todos s -> get_todo (id t) s = (Ok (Some t), s).
Proof.
  apply (session_ids_distinct None Samples.wall_clock).
  - left. reflexivity.
  - exact wall_clock_ticking.
  - apply session_call; [apply session_init; reflexivity | exact I].
Defined.

End OwnSessions.

Section JsonCliCounter.
Import JsonCli JsonCliMore.

Lemma foldl_max_attained (a : Z) (l : list Z) : foldl Z.max a l ∈ a :: l.
Proof.
  revert a. induction l as [|x l IH]; intros a; cbn [foldl].
  - left.
  - specialize (IH (Z.max a x)).
    apply elem_of_cons in IH as [IH|IH].
    + rewrite IH. destruct (Z.max_spec a x) as [[_ ->]|[_ ->]].
      * right; left.
      * left.
    + right; right. exact IH.
Qed.

(** X23.  [_update_next_id] sets the counter to 1 when there is no item,
    and otherwise to one more than an id that is held and that no held id
    exceeds; the items are not changed. *)
Theorem update_next_id_greatest (s : state) :
  exists s',
    _update_next_id s = (Ok tt, s')
    /\ todos s' = todos s
    /\ ids_below (next_id s') (todos s)
    /\ (todos s = [] -> next_id s' = 1)
    /\ (todos s <> [] -> exists t, t ∈ todos s /\ next_id s' = id t + 1).
Proof.
  rewrite _update_next_id_exec. eexists. split; [reflexivity|].
  cbn [todos next_id]. split; [reflexivity|].
  split; [apply ids_below_recount|]. split.
  - intros ->. reflexivity.
  - intros Hne. destruct (todos s) as [|t l]; [contradiction|].
    cbn [recount max_id].
    pose proof (foldl_max_attained (id t) (map id l)) as H.
    change (id t :: map id l) with (map id (t :: l)) in H.
    apply list_elem_of_In, in_map_iff in H as (x & Hx & Hin).
    exists x. split; [apply list_elem_of_In, Hin | rewrite Hx; reflexivity].
Qed.

End JsonCliCounter.

(** ** Examples for the JSON-file manager *)

Section JsonCliMoreExamples.
Import JsonCli JsonCliMore.

Lemma add_todo_invalid_unchanged_witness :
  add_todo "Pay rent" "" "Urgent" "" "2024-02-01" "Monthly" Demo.started
  = (Ok None,
     printed "Invalid priority: Urgent. Must be one of: High, Medium, Low"
       Demo.started).
Proof.
  apply (add_todo_invalid_unchanged "Pay rent" "" "Urgent" "" "2024-02-01"
           "Monthly" Demo.started).
  left. reflexivity.
Defined.

Lemma absent_id_no_effect_witness :
  toggle_completion 9 Demo.with_two = (Ok false, Demo.with_two)
  /\ get_todo 9 Demo.with_two = (Ok None, Demo.with_two).
Proof.
  destruct (absent_id_no_effect Demo.with_two 9) as (H1 & _ & H3).
  - repeat (constructor; [vm_compute; discriminate|]). constructor.
  - split; assumption.
Defined.

Lemma remove_todo_removes_witness :
  exists s',
    remove_todo 1 Demo.with_two = (Ok true, s')
    /\ map id (todos s') = [2]
    /\ get_todo 1 s' = (Ok None, s').
Proof.
  edestruct (remove_todo_removes Demo.with_two 1) as (s' & H1 & _ & H3 & _ & _ & _ & H7).
  - vm_compute. reflexivity.
  - exists s'. split; [exact H1|]. split.
    + rewrite H3. vm_compute. reflexivity.
    + apply H7. vm_compute.
      apply NoDup_cons. split; [|apply NoDup_singleton].
      intros H%list_elem_of_singleton. discriminate.
Defined.

Lemma get_todo_after_add_todo_witness :
  exists item s',
    add_todo "File taxes" "" "Low" "" "" "" Demo.with_daily
    = (Ok (Some item), s')
    /\ id item = 2
    /\ get_todo 2 s' = (Ok (Some item), s')
    /\ fst (get_todo 1 s') = fst (get_todo 1 Demo.with_daily).
Proof.
  pose proof (get_todo_after_add_todo Demo.with_daily _ _ "File taxes" ""
                "Low" "" "" "" (reachable_inv _ with_daily_reachable) eq_refl)
    as [H1 H2].
  eexists _, _. split; [reflexivity|]. split; [reflexivity|].
  split; [exact H1|]. apply H2. discriminate.
Defined.

Lemma update_todo_applies_witness :
  exists t s',
    update_todo 1 (Some "Water the plants") None (Some "Low") None None None
      Demo.with_daily = (Ok true, s')
    /\ todos s' = [t]
    /\ title t = "Water the plants" /\ priority t = "Low"
    /\ due_date t = "2024-01-31" /\ id t = 1.
Proof.
  eexists _, _. split.
  - apply (update_todo_applies Demo.with_daily 1 0);
      [vm_compute; reflexivity | reflexivity | exact I | exact I].
  - vm_compute. repeat split.
Defined.

Lemma list_todos_twice_witness :
  exists sorted s1,
    list_todos true true Demo.with_two = (Ok sorted, s1)
    /\ map id sorted = [1; 2]
    /\ list_todos true true s1 = (Ok sorted, s1).
Proof.
  assert (exists sorted s1,
             list_todos true true Demo.with_two = (Ok sorted, s1)
             /\ map id sorted = [1; 2]) as (sorted & s1 & H & Hids).
  { eexists _, _. split; vm_compute; reflexivity. }
  exists sorted, s1. split; [exact H|]. split; [exact Hids|].
  apply (list_todos_twice true Demo.with_two s1 sorted H).
Defined.

Lemma list_todos_failure_atomic_witness :
  exists o,
    list_todos true false Samples.from_misdated_file
    = (o, Samples.from_misdated_file)
    /\ forall l, o <> Ok l.
Proof.
  apply (list_todos_failure_atomic true false Samples.from_misdated_file).
  apply Exists_cons_hd. vm_compute. reflexivity.
Defined.


Lemma next_due_is_valid_witness :
  exists due',
    next_due 1 "2024-01-31" Demo.started = (Ok due', Demo.started)
    /\ due' = "2024-02-01"
    /\ _validate_date_format due' = true.
Proof.
  destruct (next_due_is_valid 1 "2024-01-31" Demo.started)
    as (due' & H1 & H2 & _).
  - right. exists (midnight 2024 1 31), (midnight 2024 2 1).
    repeat split; vm_compute; discriminate.
  - exists due'. split; [exact H1|]. split; [|exact H2].
    vm_compute in H1. congruence.
Defined.

End JsonCliMoreExamples.

(** ** The in-memory manager, continued *)

Section MemoryCliMoreFacts.
Import MemoryCli MemoryCliMore.

Lemma map_id_insert_memory (l : list Task) (i : nat) (t t' : Task) :
  l !! i = Some t -> id t' = id t -> map id (<[i:=t']> l) = map id l.
Proof.
  intros Hl Hid. change (map id (<[i:=t']> l)) with (id <$> <[i:=t']> l).
  rewrite list_fmap_insert, Hid. apply list_insert_id.
  rewrite list_lookup_fmap, Hl. reflexivity.
Qed.

Lemma kept_insert (self : TodoCore) (i : nat) (t t' : Task) :
  kept self -> tasks self !! i = Some t -> id t' = id t -> task_ok t' ->
  kept (mk_TodoCore (<[i:=t']> (tasks self)) (next_id self) (clock self)
          (ticks self)).
Proof.
  intros (H1 & H2 & H3 & H4) Hl Hid Hok.
  unfold kept. cbn [tasks next_id]. repeat split; try assumption.
  - apply Forall_insert; assumption.
  - rewrite (map_id_insert_memory _ _ t); assumption.
  - apply Forall_insert; [exact H3|]. rewrite Hid.
    rewrite Forall_forall in H3. apply H3, (list_elem_of_lookup_2 _ _ _ Hl).
Qed.

Lemma kept_run_call (c : call) (self : TodoCore) :
  kept self -> kept (run_call c self).
Proof.
  intros Hk. pose proof Hk as (H1 & H2 & H3 & H4).
  destruct c as [t d|i t d|i|i]; cbn [run_call].
  - destruct (truthy (strip t)) eqn:E.
    + rewrite (add_task_accepts t d self E). cbn [snd].
      unfold kept. cbn [tasks next_id]. repeat split.
      * apply Forall_app. split; [exact H1|]. constructor; [|constructor].
        split; [apply truthy_spec, E | left; reflexivity].
      * rewrite map_app. apply NoDup_app. split; [exact H2|]. split.
        -- intros x Hx Hx'. cbn in Hx'. apply list_elem_of_singleton in Hx'.
           subst x. apply list_elem_of_In, in_map_iff in Hx as (y & Hy & Hin).
           rewrite Forall_forall in H3.
           specialize (H3 y (proj2 (list_elem_of_In _ _) Hin)). lia.
        -- apply NoDup_singleton.
      * apply Forall_app. split.
        -- eapply Forall_impl; [exact H3|]. cbn. intros; lia.
        -- constructor; [cbn; lia | constructor].
      * lia.
    + rewrite (add_task_rejects t d self E). exact Hk.
  - unfold update_task.
    destruct (find_id i (tasks self)) as [[j x]|] eqn:E; [|exact Hk].
    cbn [snd]. apply find_id_Some_memory in E as [Hl _].
    rewrite Forall_forall in H1.
    destruct (H1 x (list_elem_of_lookup_2 _ _ _ Hl)) as [Ht Hs].
    apply (kept_insert self j x); [exact Hk | exact Hl | |].
    + destruct t, d; reflexivity.
    + destruct t as [v|], d as [w|]; cbn; split; try assumption;
        destruct (truthy (strip v)) eqn:Ev; try assumption;
        apply truthy_spec, Ev.
  - unfold delete_task.
    destruct (find_id i (tasks self)) as [[j x]|]; [|exact Hk].
    cbn [snd]. unfold kept. cbn [tasks next_id]. repeat split.
    + apply Forall_delete, H1.
    + apply NoDup_map_delete, H2.
    + apply Forall_delete, H3.
    + exact H4.
  - unfold mark_task_completed.
    destruct (find_id i (tasks self)) as [[j x]|] eqn:E; [|exact Hk].
    cbn [snd]. apply find_id_Some_memory in E as [Hl _].
    rewrite Forall_forall in H1.
    destruct (H1 x (list_elem_of_lookup_2 _ _ _ Hl)) as [Ht Hs].
    apply (kept_insert self j x); [exact Hk | exact Hl | reflexivity|].
    split; [exact Ht | right; reflexivity].
Qed.

Lemma kept_run_calls (cs : list call) (self : TodoCore) :
  kept self -> kept (run_calls cs self).
Proof.
  revert self. induction cs as [|c cs IH]; intros self H; [exact H|].
  change (run_calls (c :: cs) self) with (run_calls cs (run_call c self)).
  apply IH, kept_run_call, H.
Qed.

Lemma kept_init (clk : nat -> datetime) : kept (TodoCore__init__ clk).
Proof.
  unfold kept. cbn. repeat split; first [constructor | lia].
Qed.

(** X13.  Whatever calls are made on a new in-memory manager, every task
    it holds has a non-empty title and the status pending or completed,
    the ids are distinct, at least 1 and below the counter. *)
Theorem memory_session_kept (clk : nat -> datetime) (cs : list call) :
  let self := run_calls cs (TodoCore__init__ clk) in
  Forall task_ok (tasks self)
  /\ NoDup (map id (tasks self))
  /\ Forall (fun t => 1 <= id t < next_id self) (tasks self).
Proof.
  cbn zeta.
  destruct (kept_run_calls cs _ (kept_init clk)) as (H1 & H2 & H3 & _).
  repeat split; assumption.
Qed.

(** X14.  [view_all_tasks] returns the tasks held, each once, no task
    before one that was created later; the manager is not changed. *)
Theorem view_all_tasks_sorted (self : TodoCore) :
  Permutation (tasks self) (view_all_tasks self)
  /\ newest_first (view_all_tasks self).
Proof.
  exact (sorted_by_key (fun t => fields (created_at t)) (tasks self)).
Qed.

(** *** Newest first is the reverse of the order of creation *)

Lemma in_clock_order_insert (self : TodoCore) (i : nat) (t t' : Task) :
  in_clock_order self -> tasks self !! i = Some t ->
  created_at t' = created_at t ->
  in_clock_order (mk_TodoCore (<[i:=t']> (tasks self)) (next_id self)
                    (clock self) (ticks self)).
Proof.
  intros [H1 H2] Hl Hc. split; cbn [tasks clock ticks].
  - apply (StronglySorted_insert_same _ _ _ t); [exact Hl | | | exact H1];
      intros z; rewrite Hc; intros H; exact H.
  - apply Forall_insert; [exact H2|]. rewrite Hc.
    rewrite Forall_forall in H2. apply H2, (list_elem_of_lookup_2 _ _ _ Hl).
Qed.

Lemma in_clock_order_run_call (c : call) (self : TodoCore) :
  rising (clock self) -> in_clock_order self ->
  in_clock_order (run_call c self) /\ clock (run_call c self) = clock self.
Proof.
  intros Hr Ho. pose proof Ho as [H1 H2].
  destruct c as [t d|i t d|i|i]; cbn [run_call].
  - destruct (truthy (strip t)) eqn:E.
    + rewrite (add_task_accepts t d self E). cbn [snd].
      split; [|reflexivity]. split; cbn [tasks clock ticks].
      * apply StronglySorted_snoc; [exact H1|].
        eapply Forall_impl; [exact H2|]. cbn.
        intros a (k & Hk & ->). apply Hr, Hk.
      * apply Forall_app. split.
        -- eapply Forall_impl; [exact H2|]. cbn.
           intros a (k & Hk & Ha). exists k. split; [lia | exact Ha].
        -- constructor; [|constructor]. exists (ticks self).
           split; [lia | reflexivity].
    + rewrite (add_task_rejects t d self E). split; [exact Ho | reflexivity].
  - unfold update_task.
    destruct (find_id i (tasks self)) as [[j x]|] eqn:E;
      [|split; [exact Ho | reflexivity]].
    cbn [snd]. split; [|reflexivity].
    apply find_id_Some_memory in E as [Hl _].
    apply (in_clock_order_insert self j x); [exact Ho | exact Hl|].
    destruct t, d; reflexivity.
  - unfold delete_task.
    destruct (find_id i (tasks self)) as [[j x]|];
      [|split; [exact Ho | reflexivity]].
    cbn [snd]. split; [|reflexivity]. split; cbn [tasks clock ticks].
    + apply StronglySorted_delete, H1.
    + apply Forall_delete, H2.
  - unfold mark_task_completed.
    destruct (find_id i (tasks self)) as [[j x]|] eqn:E;
      [|split; [exact Ho | reflexivity]].
    cbn [snd]. split; [|reflexivity].
    apply find_id_Some_memory in E as [Hl _].
    apply (in_clock_order_insert self j x); [exact Ho | exact Hl | reflexivity].
Qed.

Lemma in_clock_order_run_calls (cs : list call) (self : TodoCore) :
  rising (clock self) -> in_clock_order self ->
  in_clock_order (run_calls cs self).
Proof.
  revert self. induction cs as [|c cs IH]; intros self Hr H; [exact H|].
  change (run_calls (c :: cs) self) with (run_calls cs (run_call c self)).
  destruct (in_clock_order_run_call c self Hr H) as [H1 H2].
  apply IH; [rewrite H2; exact Hr | exact H1].
Qed.

(** X15.  When every reading of the clock is later than the one before,
    [view_all_tasks] of a manager that started empty returns the tasks
    in the reverse of the order in which they are held: the task added
    last comes first. *)
Theorem view_all_tasks_reverses (clk : nat -> datetime) (cs : list call) :
  rising clk ->
  view_all_tasks (run_calls cs (TodoCore__init__ clk))
  = rev (tasks (run_calls cs (TodoCore__init__ clk))).
Proof.
  intros Hr.
  destruct (in_clock_order_run_calls cs (TodoCore__init__ clk) Hr) as [H _].
  { split; constructor. }
  exact (sort_reverse_rising (fun t => fields (created_at t)) _ H).
Qed.

Lemma demo_clock_rising : rising Demo.clock.
Proof.
  intros m n Hmn. unfold Demo.clock, fields.
  cbn [year month day hour minute second microsecond lex_ltb].
  pose proof (Nat.div_mod_eq m 60) as Hm.
  pose proof (Nat.div_mod_eq n 60) as Hn.
  pose proof (Nat.mod_upper_bound m 60 ltac:(lia)) as Hm'.
  pose proof (Nat.mod_upper_bound n 60 ltac:(lia)) as Hn'.
  rewrite !Z.ltb_irrefl, !Z.eqb_refl. cbn [orb andb].
  destruct (Z.ltb_spec (Z.of_nat (m / 60)) (Z.of_nat (n / 60))) as [H|H];
    [reflexivity|].
  cbn [orb].
  assert (m / 60 = n / 60)%nat as He by lia.
  rewrite He, Z.eqb_refl. cbn [andb].
  destruct (Z.ltb_spec (Z.of_nat (m mod 60)) (Z.of_nat (n mod 60))) as [H'|H'];
    [reflexivity | lia].
Qed.

Lemma view_all_tasks_reverses_witness :
  view_all_tasks Demo.memory_two = rev (tasks Demo.memory_two).
Proof.
  apply (view_all_tasks_reverses Demo.clock
           [AddTask "  Buy milk " ""; AddTask "Call home" "evening"]).
  exact demo_clock_rising.
Defined.

(** X16.  Whatever calls were made before, once [delete_task] has been
    called with an id no task has that id: a second [delete_task] and
    [mark_task_completed] return [False] and [update_task] returns
    [None], all three leaving the manager as it is. *)
Theorem delete_task_then_absent (clk : nat -> datetime) (cs : list call)
    (task_id : Z) :
  let self' := snd (delete_task task_id (run_calls cs (TodoCore__init__ clk))) in
  Forall (fun t => id t <> task_id) (tasks self')
  /\ delete_task task_id self' = (false, self')
  /\ mark_task_completed task_id self' = (false, self')
  /\ forall title description,
       update_task task_id title description self' = (None, self').
Proof.
  cbn zeta. set (self := run_calls cs (TodoCore__init__ clk)).
  destruct (kept_run_calls cs _ (kept_init clk)) as (_ & Hnd & _). fold self in Hnd.
  assert (Forall (fun t => id t <> task_id)
            (tasks (snd (delete_task task_id self)))) as H.
  { unfold delete_task.
    destruct (find_id task_id (tasks self)) as [[i t]|] eqn:E; cbn [snd tasks].
    - apply find_id_Some_memory in E as [Hl <-].
      apply (NoDup_map_delete_ne id); assumption.
    - apply (list_find_None (fun t => id t = task_id)), E. }
  split; [exact H|].
  pose proof (proj2 (list_find_None (fun t => id t = task_id) _) H) as Hn.
  split; [apply delete_task_absent, H|].
  split.
  - unfold mark_task_completed, find_id. rewrite Hn. reflexivity.
  - intros title description. unfold update_task, find_id. rewrite Hn.
    reflexivity.
Qed.

(** X17.  [mark_task_completed] is idempotent: a second call with the
    same id returns what the first returned and changes nothing. *)
Theorem mark_task_completed_twice (self : TodoCore) (task_id : Z) :
  mark_task_completed task_id (snd (mark_task_completed task_id self))
  = mark_task_completed task_id self.
Proof.
  unfold mark_task_completed at 2 3.
  destruct (find_id task_id (tasks self)) as [[i t]|] eqn:E; cbn [snd].
  - pose proof E as [Hl Hid]%find_id_Some_memory.
    unfold mark_task_completed. cbn [tasks next_id clock ticks].
    unfold find_id in *.
    rewrite (list_find_insert_same (fun x => id x = task_id) _ i t
               (mk_Task (id t) (title t) (description t) "completed"
                  (created_at t)) E Hid).
    cbn [id title description created_at].
    rewrite list_insert_insert_eq. reflexivity.
  - unfold mark_task_completed. rewrite E. reflexivity.
Qed.

End MemoryCliMoreFacts.

(** ** The web service, continued *)

Section WebMoreFacts.
Import Web WebMore.

Lemma get_task_by_id_Some (task_id user_id : Z) (session : Session)
    (i : nat) (t : Task) :
  list_find (matches task_id user_id) (rows session) = Some (i, t) ->
  rows session !! i = Some t /\ id t = task_id /\ Web.user_id t = user_id.
Proof. intros (H1 & [H2 H3] & _)%list_find_Some. auto. Qed.

(** X18.  No request to the six task routes, whoever sends it and
    whatever it answers, changes, adds or removes a row that does not
    belong to the caller. *)
Theorem route_leaves_foreign_rows (r : request) (current_user : User)
    (session : Session) :
  foreign current_user (snd (route r current_user session))
  = foreign current_user session.
Proof.
  destruct (decide (u_id current_user = Some (path_user r))) as [Hu|Hu];
    [|rewrite (route_forbidden r _ _ Hu); reflexivity].
  pose proof (proj2 (is_user_spec _ _) Hu) as Hb. unfold foreign.
  destruct r as [u task|u c|u tid|u tid upd|u tid|u tid c];
    cbn [route path_user] in *;
    unfold create_new_task, read_tasks, read_task, update_existing_task,
      delete_existing_task, toggle_task_complete;
    rewrite Hb; cbn [negb].
  - unfold create_task, utcnow. cbn [snd rows].
    rewrite filter_app, filter_cons. cbn [user_id].
    destruct (decide (u_id current_user <> Some u)); [contradiction|].
    rewrite filter_nil, app_nil_r. reflexivity.
  - reflexivity.
  - unfold get_task_by_id.
    destruct (list_find _ _) as [[i t]|]; reflexivity.
  - unfold update_task, get_task_by_id.
    destruct (list_find _ _) as [[i t]|] eqn:E; [|reflexivity].
    apply get_task_by_id_Some in E as (Hl & _ & Ho).
    cbn [utcnow exec_count snd put_rows rows].
    apply (filter_insert_out _ _ _ t); [exact Hl | |];
      cbn [user_id set_updated_at apply_update]; rewrite Ho; tauto.
  - unfold delete_task, get_task_by_id.
    destruct (list_find _ _) as [[i t]|] eqn:E; [|reflexivity].
    apply get_task_by_id_Some in E as (Hl & _ & Ho).
    cbn [exec_count snd put_rows rows].
    apply (filter_delete_out _ _ _ t); [exact Hl|]. rewrite Ho. tauto.
  - unfold toggle_task_completion, get_task_by_id.
    destruct (list_find _ _) as [[i t]|] eqn:E; [|reflexivity].
    apply get_task_by_id_Some in E as (Hl & _ & Ho).
    cbn [utcnow exec_count snd put_rows rows].
    apply (filter_insert_out _ _ _ t); [exact Hl | |];
      cbn [user_id set_updated_at set_completed]; rewrite Ho; tauto.
Qed.

(** X19.  [get_tasks_by_user] returns exactly the rows of the user that
    have the requested completion state (all of the user's rows when none
    is requested), each once, no task before one created later, and
    leaves the table as it is. *)
Theorem get_tasks_by_user_selects (user_id : Z) (completed : option bool)
    (session : Session) :
  let found := fst (get_tasks_by_user user_id completed session) in
  (forall t, t ∈ found <-> t ∈ rows session /\ wanted user_id completed t)
  /\ Permutation found
       (let mine := filter (fun t => Web.user_id t = user_id) (rows session) in
        match completed with
        | Some c => filter (fun t => Web.completed t = c) mine
        | None => mine
        end)
  /\ newest_first found
  /\ rows (snd (get_tasks_by_user user_id completed session)) = rows session.
Proof.
  cbn zeta. unfold get_tasks_by_user. cbn [fst snd exec_count rows].
  set (mine := filter (fun t => Web.user_id t = user_id) (rows session)).
  set (selected := match completed with
                   | Some c => filter (fun t => Web.completed t = c) mine
                   | None => mine
                   end).
  destruct (sorted_by_key (fun t => fields (created_at t)) selected)
    as [Hperm Hsorted].
  cbn zeta in Hperm, Hsorted. symmetry in Hperm.
  assert (forall t, t ∈ selected
                    <-> t ∈ rows session /\ wanted user_id completed t) as Hsel.
  { intros t. unfold selected, mine, wanted. destruct completed as [c|].
    - rewrite !list_elem_of_filter. tauto.
    - rewrite list_elem_of_filter. tauto. }
  split; [|split; [|split]].
  - intros t. rewrite <- Hsel. split; intros H.
    + eapply elem_of_Permutation_proper; [symmetry; exact Hperm | exact H].
    + eapply elem_of_Permutation_proper; [exact Hperm | exact H].
  - exact Hperm.
  - exact Hsorted.
  - reflexivity.
Qed.

(** X20.  What a write returns is what a read then returns: after a
    POST, PUT or PATCH on the task routes has returned a task, a GET of
    that task by the same caller returns the same task.  For POST this
    needs the primary key to be a key. *)
Theorem read_after_write (r : request) (current_user : User)
    (session session' : Session) (t : Task) :
  writes_task r = true ->
  (forall u task, r = PostTask u task -> keys_ok session) ->
  route r current_user session = (Returned (OneTask t), session') ->
  route (GetTask (path_user r) (id t)) current_user session'
  = (Returned (OneTask t), exec_count session').
Proof.
  intros Hw Hk Hr.
  destruct (decide (u_id current_user = Some (path_user r))) as [Hu|Hu];
    [|rewrite (route_forbidden r _ _ Hu) in Hr; discriminate].
  pose proof (proj2 (is_user_spec _ _) Hu) as Hb.
  cbn [route]. unfold read_task. rewrite Hb. cbn [negb].
  destruct r as [u task|u c|u tid|u tid upd|u tid|u tid c];
    try discriminate; cbn [route path_user] in *.
  - destruct (Hk u task eq_refl) as [_ Hbelow].
    unfold create_new_task in Hr. rewrite Hb in Hr. cbn [negb] in Hr.
    unfold create_task, utcnow in Hr. cbn in Hr. injection Hr as <- <-.
    unfold get_task_by_id. cbn [rows fst id].
    rewrite list_find_snoc_new; [reflexivity | | split; reflexivity].
    eapply Forall_impl; [exact Hbelow|]. cbn. intros x Hx [Hid _]. lia.
  - unfold update_existing_task in Hr. rewrite Hb in Hr. cbn [negb] in Hr.
    unfold update_task, get_task_by_id in Hr.
    destruct (list_find _ _) as [[i x]|] eqn:E; [|discriminate].
    cbn [utcnow exec_count put_rows rows next_pk statements clock ticks] in Hr.
    injection Hr as <- <-.
    pose proof E as (_ & Hid & Ho)%get_task_by_id_Some.
    unfold get_task_by_id, put_rows at 1. cbn [rows fst id set_updated_at apply_update].
    rewrite Hid.
    erewrite list_find_insert_same; [reflexivity | exact E|].
    split; [exact Hid | exact Ho].
  - unfold toggle_task_complete in Hr. rewrite Hb in Hr. cbn [negb] in Hr.
    unfold toggle_task_completion, get_task_by_id in Hr.
    destruct (list_find _ _) as [[i x]|] eqn:E; [|discriminate].
    cbn [utcnow exec_count put_rows rows next_pk statements clock ticks] in Hr.
    injection Hr as <- <-.
    pose proof E as (_ & Hid & Ho)%get_task_by_id_Some.
    unfold get_task_by_id, put_rows at 1. cbn [rows fst id set_updated_at set_completed].
    rewrite Hid.
    erewrite list_find_insert_same; [reflexivity | exact E|].
    split; [exact Hid | exact Ho].
Qed.

Lemma read_after_write_witness :
  exists t session',
    route (PostTask 1 (mk_TaskCreate "Buy milk" None None)) Demo.alice
      Demo.table = (Returned (OneTask t), session')
    /\ id t = 6 /\ user_id t = 1
    /\ route (GetTask 1 6) Demo.alice session'
       = (Returned (OneTask t), exec_count session').
Proof.
  pose proof (read_after_write
                (PostTask 1 (mk_TaskCreate "Buy milk" None None)) Demo.alice
                Demo.table _ _ eq_refl
                ltac:(intros; split;
                      [apply NoDup_singleton | repeat constructor])
                eq_refl) as H.
  eexists _, _. split; [reflexivity|]. split; [reflexivity|].
  split; [reflexivity | exact H].
Defined.

(** X21.  When the primary key is a key, a task that a DELETE has
    removed is gone for its owner: a following GET, PUT, PATCH or DELETE
    of that task answers 404 and changes no row. *)
Theorem deleted_task_not_found (user_id task_id : Z) (current_user : User)
    (session session' : Session) (m : string) (r : request) :
  NoDup (map id (rows session)) ->
  route (DeleteTask user_id task_id) current_user session
  = (Returned (Message m), session') ->
  path_user r = user_id -> path_task r = Some task_id ->
  route r current_user session'
  = (HTTPException 404 "Task not found", exec_count session').
Proof.
  intros Hnd Hr Hpu Hpt.
  destruct (decide (u_id current_user = Some user_id)) as [Hu|Hu];
    [|rewrite (route_forbidden (DeleteTask user_id task_id) _ _ Hu) in Hr;
      discriminate].
  pose proof (proj2 (is_user_spec _ _) Hu) as Hb.
  cbn [route] in Hr. unfold delete_existing_task in Hr.
  rewrite Hb in Hr. cbn [negb] in Hr.
  unfold delete_task, get_task_by_id in Hr.
  destruct (list_find _ _) as [[i x]|] eqn:E; [|discriminate].
  cbn in Hr. injection Hr as _ <-.
  apply get_task_by_id_Some in E as (Hl & Hid & Ho).
  assert (list_find (matches task_id user_id) (delete i (rows session)) = None)
    as Hnone.
  { apply list_find_None.
    eapply Forall_impl; [apply (NoDup_map_delete_ne id _ _ x Hnd Hl)|].
    cbn. intros y Hy [Hy' _]. congruence. }
  destruct r as [u task|u c|u tid|u tid upd|u tid|u tid c];
    cbn [path_user path_task] in Hpu, Hpt; try discriminate;
    injection Hpt as ->; subst u; cbn [route];
    unfold read_task, update_existing_task, delete_existing_task,
      toggle_task_complete, update_task, delete_task, toggle_task_completion,
      get_task_by_id;
    rewrite Hb; cbn [negb rows put_rows exec_count]; rewrite Hnone; reflexivity.
Qed.

Lemma deleted_task_not_found_witness :
  exists session',
    route (DeleteTask 1 5) Demo.alice Demo.table
    = (Returned (Message "Task deleted successfully"), session')
    /\ route (GetTask 1 5) Demo.alice session'
       = (HTTPException 404 "Task not found", exec_count session').
Proof.
  pose proof (deleted_task_not_found 1 5 Demo.alice Demo.table _
                "Task deleted successfully" (GetTask 1 5)
                (NoDup_singleton 5) eq_refl eq_refl eq_refl) as H.
  eexists. split; [reflexivity | exact H].
Defined.

End WebMoreFacts.

(** ** Registration *)

Section SignupFacts.
Import Signup.
Variable get_password_hash : string -> option string.

Lemma register_user_exec (user_data : UserRegister) (session : Session) :
  register_user get_password_hash user_data session
  = match list_find (fun u => email u = r_email user_data) (users session) with
    | Some _ => (HTTPException 400 "Email already registered", session)
    | None =>
        match get_password_hash (r_password user_data) with
        | None => (Raised, session)
        | Some hashed =>
            let db_user :=
              mk_User (next_pk session) (r_email user_data) hashed true
                (clock session (ticks session))
                (clock session (S (ticks session))) in
            (Returned db_user,
             mk_Session (users session ++ [db_user]) (next_pk session + 1)
               (clock session) (2 + ticks session))
        end
    end.
Proof. reflexivity. Qed.

(** X22.  [register_user] never stores an email twice: if the emails of
    the user table are distinct they stay distinct; a registration with
    an email already in the table is refused with status 400 and changes
    nothing; and an accepted registration returns an active user with
    the requested email, after which the same email is refused. *)
Theorem register_user_unique_email (user_data : UserRegister)
    (session : Session) :
  NoDup (map email (users session)) ->
  let result := register_user get_password_hash user_data session in
  NoDup (map email (users (snd result)))
  /\ (r_email user_data ∈ map email (users session) ->
      result = (HTTPException 400 "Email already registered", session))
  /\ (forall u, fst result = Returned u ->
        email u = r_email user_data /\ is_active u = true
        /\ users (snd result) = (users session ++ [u])%list
        /\ forall again,
             r_email again = r_email user_data ->
             register_user get_password_hash again (snd result)
             = (HTTPException 400 "Email already registered", snd result)).
Proof.
  intros Hnd. cbn zeta. rewrite (register_user_exec user_data session).
  destruct (list_find (fun u => email u = r_email user_data) (users session))
    as [[i x]|] eqn:E.
  - cbn [fst snd]. split; [exact Hnd|]. split; [reflexivity|].
    intros u H. discriminate.
  - pose proof (proj1 (list_find_None _ _) E) as Hnew.
    assert (r_email user_data ∈ map email (users session) -> False) as Hout.
    { intros Hin. apply list_elem_of_In, in_map_iff in Hin as (y & Hy & Hin).
      rewrite Forall_forall in Hnew.
      apply (Hnew y); [apply list_elem_of_In, Hin | exact Hy]. }
    destruct (get_password_hash (r_password user_data)) as [hashed|];
      cbn [fst snd users].
    + split; [|split].
      * rewrite map_app. apply NoDup_app. split; [exact Hnd|]. split.
        -- intros e He He'. cbn in He'. apply list_elem_of_singleton in He'.
           subst e. exact (Hout He).
        -- apply NoDup_singleton.
      * intros Hin. destruct (Hout Hin).
      * intros u [= <-]. cbn [email is_active]. repeat split.
        intros again Hagain. rewrite register_user_exec. cbn [users].
        destruct (list_find (fun u => email u = r_email again) _)
          as [[j y]|] eqn:E'; [reflexivity|].
        exfalso. apply list_find_None in E'.
        apply Forall_app in E' as [_ E'].
        apply Forall_inv in E'. apply E'. cbn. symmetry. exact Hagain.
    + split; [exact Hnd|]. split; [intros Hin; destruct (Hout Hin)|].
      intros u H. discriminate.
Qed.

End SignupFacts.

Section SignupExamples.
Import Signup.

Lemma register_user_unique_email_witness :
  exists u session',
    register_user sample_hash (mk_UserRegister "alice@example.org" "secret")
      empty_table = (Returned u, session')
    /\ email u = "alice@example.org"
    /\ register_user sample_hash (mk_UserRegister "alice@example.org" "other")
         session'
       = (HTTPException 400 "Email already registered", session').
Proof.
  destruct (register_user_unique_email sample_hash
              (mk_UserRegister "alice@example.org" "secret") empty_table)
    as (_ & _ & H).
  - apply NoDup_nil_2.
  - eexists _, _. split; [reflexivity|].
    destruct (H _ eq_refl) as (H1 & _ & _ & H2).
    split; [exact H1|].
    apply (H2 (mk_UserRegister "alice@example.org" "other")). reflexivity.
Defined.

End SignupExamples.
